(** * Overmind: the Overlord orchestrator and the hatchery queen

    A shallow embedding of [Overlord] (objective registration, homeostatic
    spawn requests, directive placement, the safe-mode trigger and the
    init/run phases) and of [QueenOverlord] (supply, recharge and idle
    actions of the hatchery attendant), together with the properties of the
    specification that concern them.

    The game world is read as a snapshot: rooms, structures and creeps are
    records.  Calls to collaborators (the hatchery queue, directive classes,
    the room controller, the objective group) are recorded in a log, and a
    dereference of an absent object ends the computation as a [TypeError]. *)

From Stdlib Require Import QArith Qcanon.
From stdpp Require Import gmap strings list fin_maps sorting.
From Stdlib Require Import ZArith Lia.

Local Open Scope string_scope.
Local Open Scope Z_scope.
Local Open Scope list_scope.

Set Default Proof Using "Type".

(** ** Game objects *)

Record RoomPosition := mkPos { x : Z; y : Z; roomName : string }.

#[global] Instance RoomPosition_eq_dec : EqDecision RoomPosition.
Proof. solve_decision. Defined.

(** What every object of the game has: an identifier and a position. *)
Record RoomObject := mkObj { ref : string; pos : RoomPosition }.

#[global] Instance RoomObject_eq_dec : EqDecision RoomObject.
Proof. solve_decision. Defined.

(** The structure types of the game (the [STRUCTURE_*] constants). *)
Inductive StructureConstant :=
| STRUCTURE_SPAWN | STRUCTURE_EXTENSION | STRUCTURE_ROAD | STRUCTURE_WALL
| STRUCTURE_RAMPART | STRUCTURE_KEEPER_LAIR | STRUCTURE_PORTAL
| STRUCTURE_CONTROLLER | STRUCTURE_LINK | STRUCTURE_STORAGE | STRUCTURE_TOWER
| STRUCTURE_OBSERVER | STRUCTURE_POWER_BANK | STRUCTURE_POWER_SPAWN
| STRUCTURE_EXTRACTOR | STRUCTURE_LAB | STRUCTURE_TERMINAL
| STRUCTURE_CONTAINER | STRUCTURE_NUKER.

#[global] Instance StructureConstant_eq_dec : EqDecision StructureConstant.
Proof. solve_decision. Defined.

Record Structure := mkStructure {
  sobj :> RoomObject;
  structureType : StructureConstant;
  hits : Z;
  hitsMax : Z;
  energy : Z                       (* stored energy, for stores and links *)
}.

#[global] Instance Structure_eq_dec : EqDecision Structure.
Proof. solve_decision. Defined.

Record Resource := mkResource { robj :> RoomObject; amount : Z }.

Record ConstructionSite := mkSite { csobj :> RoomObject; siteType : StructureConstant }.

(** Markers (flags).  A directive class recognises its own markers with
    [filter]; the marker records which class that is. *)
Inductive DirectiveKind := GuardMarker | EmergencyMarker | OtherMarker (label : string).

#[global] Instance DirectiveKind_eq_dec : EqDecision DirectiveKind.
Proof. solve_decision. Defined.

Record Flag := mkFlag { flagPos : RoomPosition; marker : DirectiveKind }.

#[global] Instance Flag_eq_dec : EqDecision Flag.
Proof. solve_decision. Defined.

(** The numeric knob [patternRepetitionLimit]; the default setting of the
    Overlord is [Infinity]. *)
Inductive Limit := Finite (n : Z) | Infinity.

#[global] Instance Limit_eq_dec : EqDecision Limit.
Proof. solve_decision. Defined.

(** ** Numbers

    The numbers of the scripts are binary64.  Hit points and amounts are
    whole numbers well below [2^53], on which comparison, sum and difference
    are exact; they are integers here.  The one inexact operation of the code
    is the product with the constant 0.7, spelled out below. *)

Module Binary64.

(** The binary64 number nearest to 0.7 is [mantissa07 * 2^-53]
    (0x1.6666666666666p-1). *)
Definition mantissa07 : Z := 6305039478318694.

(** Rounding of [n * 2^-53], for [n >= 0], to 53 significant bits, to
    nearest with ties to even; the result is again counted in units of
    [2^-53]. *)
Definition round (n : Z) : Z :=
  let e := Z.log2 n - 52 in
  if e <=? 0 then n
  else
    let q := n / 2 ^ e in
    let r := n mod 2 ^ e in
    let half := 2 ^ (e - 1) in
    let up := (half <? r) || ((r =? half) && Z.odd q) in
    (if up then q + 1 else q) * 2 ^ e.

(** [0.7 * v] for a whole number [v >= 0], in units of [2^-53]. *)
Definition times07 (v : Z) : Z := round (mantissa07 * v).

(** [h < 0.7 * v] for whole numbers [h] and [v]. *)
Definition lt_times07 (h v : Z) : bool := h * 2 ^ 53 <? times07 v.

End Binary64.

(** ** Tasks, creeps and objectives *)

(** Modelled from the spec: the class Task is not among the sources.  The
    spec gives a task its owner (the one creep it is bound to), an action,
    a target and the tick of its creation. *)
Record Task := mkTask {
  owner : string;
  action : string;
  ttarget : RoomObject;
  createdTick : Z
}.

(** A creep, as the Overlord and the objective group read it.  The
    capability set (the actions the creep can perform) is the one the spec
    gives to workers. *)
Record Creep := mkCreep {
  cname : string;
  cpos : RoomPosition;
  role : string;
  username : string;               (* creep.owner.username *)
  capabilities : list string;
  task : option Task
}.

(** Modelled from the spec: the objective classes are not among the
    sources.  The spec gives an objective a type tag (the name of its
    bucket), a target and the worker that claimed it, if any; its rank is
    the place of its type in the priority list and is not stored. *)
Record Objective := mkObjective {
  oname : string;
  target : RoomObject;
  claimedBy : option string
}.

#[global] Instance Objective_eq_dec : EqDecision Objective.
Proof. solve_decision. Defined.

(** Modelled from the spec: what assignment reads from its surroundings,
    namely how far a position is from another (the spec leaves the metric
    open), whether a target still exists, and the current tick. *)
Class Ambient := {
  distance : RoomPosition → RoomPosition → Z;
  isValidTarget : RoomObject → bool;
  Game_time : Z
}.

(** ** The objective group *)

Module ObjectiveGroup.

(** Modelled from the spec: the class ObjectiveGroup (constructor,
    registerObjectives, assignTask) is not among the sources; the Overlord
    only constructs it and calls it.  The spec describes it as a mapping from
    bucket name to an ordered sequence of objectives, the bucket names being
    the configured priority list. *)
Record t := mk {
  objectivePriorities : list string;
  objectives : gmap string (list Objective)
}.

(** Modelled from the spec: the sequence of objectives of a bucket, empty
    for a name without bucket. *)
Definition bucket (g : t) (n : string) : list Objective :=
  default [] (objectives g !! n).

(** Modelled from the spec: the constructor of ObjectiveGroup; one empty
    bucket for each name of the priority list. *)
Definition new (priorities : list string) : t :=
  mk priorities (list_to_map ((λ n, (n, [])) <$> priorities)).

(** Modelled from the spec: one objective appended to the bucket of its
    type. *)
Definition push (g : t) (o : Objective) : t :=
  mk (objectivePriorities g)
     (<[oname o := bucket g (oname o) ++ [o]]> (objectives g)).

(** Modelled from the spec: registerObjectives appends the objective sets
    into their type buckets; nothing is deduplicated. *)
Definition registerObjectives (g : t) (sets : list (list Objective)) : t :=
  foldl push g (concat sets).

(** Modelled from the spec: an objective not yet claimed. *)
Definition unclaimed (o : Objective) : bool :=
  bool_decide (claimedBy o = None).

Section Assign.
Context `{!Ambient}.

(** Modelled from the spec: the capability set of the worker matches the
    action that the bucket requires. *)
Definition capable (w : Creep) (n : string) : bool :=
  bool_decide (n ∈ capabilities w).

(** Modelled from the spec: an objective of bucket [n] is compatible with a
    worker when the worker can perform the action of the bucket and the
    target still exists (an objective whose target has become invalid is
    skipped). *)
Definition compatible (w : Creep) (n : string) (o : Objective) : bool :=
  capable w n && isValidTarget (target o).

(** Modelled from the spec: the objectives among which assignTask chooses. *)
Definition candidate (w : Creep) (n : string) (o : Objective) : bool :=
  unclaimed o && compatible w n o.

(** Modelled from the spec: the distance from the worker to the target. *)
Definition range (w : Creep) (o : Objective) : Z :=
  distance (cpos w) (pos (target o)).

(** Modelled from the spec: the candidates of a bucket with their places in
    it, in bucket order. *)
Definition candidates (w : Creep) (n : string) (os : list Objective)
  : list (nat * Objective) :=
  filter (λ io, candidate w n io.2) (imap pair os).

(** Modelled from the spec: the nearer of two candidates; the earlier one
    wins a tie (the deterministic fallback is the input order). *)
Definition nearer (w : Creep) (a b : nat * Objective) : nat * Objective :=
  if range w b.2 <? range w a.2 then b else a.

(** Modelled from the spec: the candidate nearest to the worker. *)
Definition closest (w : Creep) (cands : list (nat * Objective))
  : option (nat * Objective) :=
  match cands with
  | [] => None
  | c :: cs => Some (foldl (nearer w) c cs)
  end.

(** Modelled from the spec: the objective marked as claimed by the worker. *)
Definition claim (w : Creep) (o : Objective) : Objective :=
  mkObjective (oname o) (target o) (Some (cname w)).

(** Modelled from the spec: the task created for the worker, bound to the
    target of the objective and the action of its bucket. *)
Definition taskFor (w : Creep) (n : string) (o : Objective) : Task :=
  mkTask (cname w) n (target o) Game_time.

(** [creep.task = tk] *)
Definition setTask (w : Creep) (tk : Task) : Creep :=
  mkCreep (cname w) (cpos w) (role w) (username w) (capabilities w) (Some tk).

(** Modelled from the spec: the marker of a claim is a single marker per
    target (at most one worker may hold a claim on the target of an
    objective), so marking the chosen objective shows on every objective
    bound to the same target, in whatever bucket it was registered. *)
Definition claimTarget (w : Creep) (tg : RoomObject) (o : Objective) : Objective :=
  if bool_decide (ref (target o) = ref tg) then claim w o else o.

(** Modelled from the spec: the buckets are tried in the order of the list;
    the first bucket with a candidate gives the task and has the chosen
    objective marked, through the marker of its target. *)
Fixpoint assignFrom (g : t) (w : Creep) (names : list string) : t * option Task :=
  match names with
  | [] => (g, None)
  | n :: rest =>
      match closest w (candidates w n (bucket g n)) with
      | Some (i, o) =>
          (mk (objectivePriorities g)
              ((λ os : list Objective, claimTarget w (target o) <$> os) <$> objectives g),
           Some (taskFor w n o))
      | None => assignFrom g w rest
      end
  end.

(** Modelled from the spec: the group after a query and the task the query
    creates, if any. *)
Definition offer (g : t) (w : Creep) : t * option Task :=
  assignFrom g w (objectivePriorities g).

(** Modelled from the spec: assignTask iterates the priority buckets in the
    configured order; within a bucket it selects, among the objectives not
    yet claimed, the one whose target is nearest to the worker, creates a
    task for the worker bound to that target and action and marks the
    objective claimed.  No bucket with a candidate: no task, the worker
    stays as it was. *)
Definition assignTask (g : t) (w : Creep) : t * Creep :=
  match offer g w with
  | (g', Some tk) => (g', setTask w tk)
  | (g', None) => (g', w)
  end.

(** Modelled from the spec: the tasks created by the queries of one tick,
    in order. *)
Fixpoint tasksOfTick (g : t) (ws : list Creep) : list Task :=
  match ws with
  | [] => []
  | w :: rest => option_list (offer g w).2 ++ tasksOfTick (offer g w).1 rest
  end.
End Assign.

End ObjectiveGroup.

(** ** Rooms and colonies *)

Record Room := mkRoom {
  rname : string;
  controller : option RoomObject;
  storage : option Structure;
  terminal : option Structure;
  labs : list Structure;
  storageUnits : list Structure;
  energyAvailable : Z;
  flags : list Flag;
  hostiles : list Creep;
  barriers : list Structure;
  repairables : list Structure;
  droppedEnergy : list Resource;
  structureSites : list ConstructionSite;
  roadSites : list ConstructionSite
}.

Record Hatchery := mkHatchery { hpos : RoomPosition }.

(** A colony as the Overlord reads it.  [incubator] is the colony that
    incubates this one, if any; of the colonies this one incubates only
    their rooms are read; [getCreepsByRole] is the colony's query. *)
Record Colony := mkColony {
  colonyName : string;
  room : Room;
  rooms : list Room;
  outposts : list Room;
  hatchery : option Hatchery;
  incubator : option string;
  isIncubating : bool;
  incubatingColonies : list (list Room);
  getCreepsByRole : string → list Creep
}.

Record ResourceRequest := mkRequest {
  rtarget : RoomObject;
  resourceType : string;
  ramount : Z
}.

Record RequestModes := mkModes { haul : list ResourceRequest; link : list ResourceRequest }.

Record ResourceRequestGroup := mkRequests {
  resourceIn : RequestModes;
  resourceOut : RequestModes
}.

Definition RESOURCE_ENERGY : string := "energy".

(** What a creep setup hands to the hatchery queue. *)
Record ProtoCreep := mkProto {
  setupRole : string;
  assignment : option RoomObject;
  patternRepetitionLimit : Limit
}.

#[global] Instance ProtoCreep_eq_dec : EqDecision ProtoCreep.
Proof. solve_decision. Defined.

(** ** Calls to collaborators and abrupt termination *)

Inductive Call :=
| DirectiveInit (d : string)                       (* directives[i].init() *)
| DirectiveRun (d : string)                        (* directives[i].run() *)
| RegisterObjectives (sets : list (list Objective)) (* objectiveGroup.registerObjectives(...) *)
| Enqueue (p : ProtoCreep)                         (* hatchery.enqueue(...) *)
| CreateDirective (k : DirectiveKind) (at_ : RoomPosition)
| ActivateSafeMode (ctl : RoomObject).             (* controller.activateSafeMode() *)

#[global] Instance Call_eq_dec : EqDecision Call.
Proof. solve_decision. Defined.

Inductive Exception := TypeError.

Inductive Outcome (A : Type) :=
| Done (a : A)
| Thrown (e : Exception).
Arguments Done {A} a.
Arguments Thrown {A} e.

(** A computation yields the calls it made, in order, and how it ended. *)
Definition Eff (A : Type) : Type := list Call * Outcome A.

Definition ret {A} (a : A) : Eff A := ([], Done a).

Definition bind {A B} (m : Eff A) (k : A → Eff B) : Eff B :=
  match m with
  | (log, Done a) => let '(log', r) := k a in (log ++ log', r)
  | (log, Thrown e) => (log, Thrown e)
  end.

Definition call (c : Call) : Eff unit := ([c], Done tt).

Definition throw {A} (e : Exception) : Eff A := ([], Thrown e).

Notation "m ;; k" := (bind m (λ _, k)) (at level 100, k at level 200, right associativity).

Definition when (b : bool) (m : Eff unit) : Eff unit := if b then m else ret tt.

(** [for (let a of l) body(a)] *)
Fixpoint forEach {A} (l : list A) (body : A → Eff unit) : Eff unit :=
  match l with
  | [] => ret tt
  | a :: l' => body a ;; forEach l' body
  end.

Definition calls {A} (m : Eff A) : list Call := m.1.

Definition completes {A} (m : Eff A) : Prop := ∃ a, m.2 = Done a.

(** ** Directive classes *)

(** The directive classes are not among the sources.  The spec gives them
    a static [filter(marker)] that recognises the markers of the class and a
    static [create(position)] that places one. *)
Module DirectiveGuard.

(** Modelled from the spec: DirectiveGuard.filter recognises the guard
    markers. *)
Definition filter (f : Flag) : bool := bool_decide (marker f = GuardMarker).

(** Modelled from the spec: DirectiveGuard.create places a guard directive
    at a position. *)
Definition create (p : RoomPosition) : Eff unit := call (CreateDirective GuardMarker p).

End DirectiveGuard.

Module DirectiveEmergency.

(** Modelled from the spec: DirectiveEmergency.filter recognises the
    emergency markers. *)
Definition filter (f : Flag) : bool := bool_decide (marker f = EmergencyMarker).

(** Modelled from the spec: DirectiveEmergency.create places an emergency
    directive at a position. *)
Definition create (p : RoomPosition) : Eff unit := call (CreateDirective EmergencyMarker p).

End DirectiveEmergency.

(** ** Objective classes *)

(** Modelled from the spec: the objective classes are not among the
    sources; each constructor tags its target with the type that bears its
    name in the priority list of the Overlord, and leaves it unclaimed. *)
Definition newObjective (n : string) (tg : RoomObject) : Objective :=
  mkObjective n tg None.

Definition ObjectiveCollectEnergyMiningSite := newObjective "collectEnergyMiningSite".
Definition ObjectiveDepositContainer := newObjective "depositContainer".
Definition ObjectivePickupEnergy := newObjective "pickupEnergy".
Definition ObjectiveRepair := newObjective "repair".
Definition ObjectiveBuild := newObjective "build".
Definition ObjectiveBuildRoad := newObjective "buildRoad".
Definition ObjectiveFortify := newObjective "fortify".
Definition ObjectiveUpgrade := newObjective "upgrade".

(** [_.sortBy(l, key)]: ascending and stable. *)
Fixpoint insertBy {A} (key : A → Z) (a : A) (l : list A) : list A :=
  match l with
  | [] => [a]
  | b :: l' => if key b <? key a then b :: insertBy key a l' else a :: b :: l'
  end.

Definition sortBy {A} (l : list A) (key : A → Z) : list A :=
  foldr (insertBy key) [] l.

(** ** The Overlord *)

Module Overlord.

Record Settings := mkSettings {
  incubationWorkersToSend : Z;
  storageBuffer : gmap string Z;
  unloadStorageBuffer : Z;
  maxAssistLifetimePercent : Z;        (* 0.1 of a lifetime, in percent *)
  workerPatternRepetitionLimit : Limit
}.

(** The fields of the class; [name] and [room] are those of the colony. *)
Record t := mk {
  colony : Colony;
  objectivePriorities : list string;
  objectiveGroup : ObjectiveGroup.t;
  resourceRequests : ResourceRequestGroup;
  directives : list string;
  settings : Settings
}.

Definition name (ov : t) : string := colonyName (colony ov).
Definition room (ov : t) : Room := room (colony ov).

(** Priority that objectives should be performed in. *)
Definition priorities : list string :=
  [ "supplyTower"; "supply"; "pickupEnergy"; "collectEnergyMiningSite";
    "collectEnergyContainer"; "depositContainer"; "build"; "repair";
    "buildRoad"; "fortify"; "upgrade" ].

Definition defaultSettings : Settings :=
  mkSettings 3
    (<["manager" := 75000]> (<["worker" := 50000]> (<["upgrader" := 75000]> ∅)))
    750000 10 Infinity.

(** The constructor. *)
Definition new (c : Colony) : t :=
  mk c priorities (ObjectiveGroup.new priorities)
     (mkRequests (mkModes [] []) (mkModes [] [])) [] defaultSettings.

(** *** Objective management *)

Definition isEnergy (r : ResourceRequest) : bool :=
  bool_decide (resourceType r = RESOURCE_ENERGY).

(** [s.hits < 0.7 * s.hitsMax], the product being the binary64 one. *)
Definition below70 (s : Structure) : bool :=
  Binary64.lt_times07 (hits s) (hitsMax s).

(** The filter on [room.repairables]. *)
Definition needsRepair (s : Structure) : bool :=
  (hits s <? hitsMax s)
  && (bool_decide (structureType s ≠ STRUCTURE_CONTAINER) || below70 s)
  && (bool_decide (structureType s ≠ STRUCTURE_ROAD) || below70 s).

Definition repairStructures (r : Room) : list Structure :=
  List.filter needsRepair (repairables r).

Definition repairObjectives (r : Room) : list Objective :=
  (λ s : Structure, ObjectiveRepair s) <$> repairStructures r.

Definition roomObjectives (ov : t) (r : Room) : list (list Objective) :=
  let droppedEnergy := List.filter (λ d, 100 <? amount d) (droppedEnergy r) in
  let pickupEnergyObjectives := (λ d : Resource, ObjectivePickupEnergy d) <$> droppedEnergy in
  let buildObjectives := (λ s : ConstructionSite, ObjectiveBuild s) <$> structureSites r in
  let buildRoadObjectives := (λ s : ConstructionSite, ObjectiveBuildRoad s) <$> roadSites r in
  let fortifyObjectives :=
    match incubator (colony ov) with
    | None =>
        let lowestBarriers := take 5 (sortBy (barriers r) hits) in
        (λ b : Structure, ObjectiveFortify b) <$> lowestBarriers
    | Some _ => []
    end in
  let upgradeObjectives :=
    match controller r with
    | Some c => [ObjectiveUpgrade c]
    | None => []
    end in
  [ pickupEnergyObjectives; repairObjectives r; buildObjectives;
    buildRoadObjectives; fortifyObjectives; upgradeObjectives ].

(** Register objectives from across the colony in the objective group. *)
Definition registerObjectives (ov : t) : Eff unit :=
  let withdrawalRequests := List.filter isEnergy (haul (resourceOut (resourceRequests ov))) in
  let collectContainers := rtarget <$> withdrawalRequests in
  let collectEnergyMiningSiteObjectives := ObjectiveCollectEnergyMiningSite <$> collectContainers in
  let depositRequests := List.filter isEnergy (haul (resourceIn (resourceRequests ov))) in
  let depositContainers := rtarget <$> depositRequests in
  let depositContainerObjectives := ObjectiveDepositContainer <$> depositContainers in
  call (RegisterObjectives [collectEnergyMiningSiteObjectives; depositContainerObjectives]) ;;
  forEach (rooms (colony ov)) (λ r, call (RegisterObjectives (roomObjectives ov r))).

Definition setGroup (ov : t) (g : ObjectiveGroup.t) : t :=
  mk (colony ov) (objectivePriorities ov) g (resourceRequests ov)
     (directives ov) (settings ov).

(** Assign a task to a creep: the default assignment of the objective
    group. *)
Definition assignTask `{!Ambient} (ov : t) (creep : Creep) : t * Creep :=
  let '(g, creep') := ObjectiveGroup.assignTask (objectiveGroup ov) creep in
  (setGroup ov g, creep').

(** The tasks that the [assignTask] calls of one tick create, in order. *)
Fixpoint tasksOfTick `{!Ambient} (ov : t) (creeps : list Creep) : list Task :=
  match creeps with
  | [] => []
  | c :: cs =>
      option_list (ObjectiveGroup.offer (objectiveGroup ov) c).2
      ++ tasksOfTick (assignTask ov c).1 cs
  end.

(** The objective group once the registrations of a log have reached it. *)
Definition registered (g : ObjectiveGroup.t) (log : list Call) : ObjectiveGroup.t :=
  foldl (λ g c, match c with
                | RegisterObjectives sets => ObjectiveGroup.registerObjectives g sets
                | _ => g
                end) g log.

(** *** Spawner operations *)

Definition MineralSupplierSetup_create (asg : option RoomObject) (lim : Limit) : ProtoCreep :=
  mkProto "mineralSupplier" asg lim.

Definition WorkerSetup_create (asg : option RoomObject) (lim : Limit) : ProtoCreep :=
  mkProto "worker" asg lim.

Definition numWorkersNeeded (ov : t) : Z :=
  match incubator (colony ov) with
  | Some _ => 3
  | None => 1
  end.

Definition registerCreepRequests (ov : t) : Eff unit :=
  match hatchery (colony ov) with
  | Some _ =>
      (* Ensure there's a mineral supplier for the labs *)
      (match terminal (room ov) with
       | Some term =>
           when (0 <? Z.of_nat (length (labs (room ov))))
             (when (Z.of_nat (length (getCreepsByRole (colony ov) "mineralSupplier")) <? 1)
                (call (Enqueue (MineralSupplierSetup_create (Some (sobj term)) (Finite 1)))))
       | None => ret tt
       end) ;;
      (* Ensure there's enough workers *)
      let numWorkers := Z.of_nat (length (getCreepsByRole (colony ov) "worker")) in
      (* Only spawn workers once containers are up *)
      when ((numWorkers <? numWorkersNeeded ov)
            && (0 <? Z.of_nat (length (storageUnits (room ov)))))
        (call (Enqueue (WorkerSetup_create (controller (room ov))
                          (workerPatternRepetitionLimit (settings ov)))))
  | None => ret tt
  end.

Section Directives.
Variable EMERGENCY_ENERGY_THRESHOLD : Z.

Definition roomsToCheck (ov : t) : list Room :=
  outposts (colony ov) ++ concat (incubatingColonies (colony ov)).

(** One round of the guard loop. *)
Definition placeGuard (r : Room) : Eff unit :=
  let guardFlags := List.filter DirectiveGuard.filter (flags r) in
  match hostiles r with
  | h :: _ =>
      when (bool_decide (length guardFlags = 0%nat))
        (DirectiveGuard.create (cpos h))
  | [] => ret tt
  end.

Definition roomHasEnergy (ov : t) : bool :=
  EMERGENCY_ENERGY_THRESHOLD <=? energyAvailable (room ov).

Definition roomHasEnergySupply (ov : t) : bool :=
  match storage (room ov) with
  | Some st =>
      (EMERGENCY_ENERGY_THRESHOLD <? energy st)
      && (0 <? Z.of_nat (length (getCreepsByRole (colony ov) "supplier")))
  | None => false
  end.

Definition roomHasMiners (ov : t) : bool :=
  0 <? Z.of_nat (length (getCreepsByRole (colony ov) "miner")).

Definition emergencyFlags (ov : t) : list Flag :=
  List.filter DirectiveEmergency.filter (flags (room ov)).

Definition placeEmergency (ov : t) : Eff unit :=
  match isIncubating (colony ov), hatchery (colony ov) with
  | false, Some h =>
      when (negb (roomHasEnergy ov) && negb (roomHasEnergySupply ov)
            && negb (roomHasMiners ov)
            && bool_decide (length (emergencyFlags ov) = 0%nat))
        (DirectiveEmergency.create (hpos h))
  | _, _ => ret tt
  end.

(** Place new event-driven flags where needed. *)
Definition placeDirectives (ov : t) : Eff unit :=
  forEach (roomsToCheck ov) placeGuard ;;
  placeEmergency ov.

(** *** Safe mode *)

Definition criticalBarriers (ov : t) : list Structure :=
  List.filter (λ s, hits s <? 5000) (barriers (room ov)).

Definition nonInvaderHostiles (ov : t) : list Creep :=
  List.filter (λ c, bool_decide (username c ≠ "Invader")) (hostiles (room ov)).

Definition safeModeTrigger (ov : t) : bool :=
  (0 <? Z.of_nat (length (criticalBarriers ov)))
  && (0 <? Z.of_nat (length (nonInvaderHostiles ov)))
  && bool_decide (incubator (colony ov) = None).

Definition handleSafeMode (ov : t) : Eff unit :=
  if safeModeTrigger ov then
    match controller (room ov) with
    | Some ctl => call (ActivateSafeMode ctl)
    | None => throw TypeError       (* undefined.activateSafeMode() *)
    end
  else ret tt.

(** *** The two phases of a tick *)

Definition init (ov : t) : Eff unit :=
  forEach (directives ov) (λ d, call (DirectiveInit d)) ;;
  registerObjectives ov ;;
  registerCreepRequests ov.

Definition run (ov : t) : Eff unit :=
  forEach (directives ov) (λ d, call (DirectiveRun d)) ;;
  handleSafeMode ov ;;
  placeDirectives ov.
End Directives.

End Overlord.

(** ** The queen overlord *)

Module QueenOverlord.

(** The tasks a queen is given ([Tasks.transfer], [Tasks.withdraw],
    [Tasks.recharge]). *)
Inductive QueenTask :=
| transfer (tg : RoomObject)
| withdraw (tg : RoomObject)
| recharge.

#[global] Instance QueenTask_eq_dec : EqDecision QueenTask.
Proof. solve_decision. Defined.

Record Zerg := mkZerg {
  zname : string;
  zpos : RoomPosition;
  carryEnergy : Z;                 (* queen.carry.energy *)
  carryCapacity : Z;
  ztask : option QueenTask
}.

(** A link or a battery of the hatchery, with its two getters. *)
Record Store := mkStore { stobj :> RoomObject; isEmpty : bool; isFull : bool }.

Record TransportRequest := mkTransport { reqTarget : RoomObject; reqAmount : Z }.

(** The hatchery as the queen reads it; [getPrioritizedClosestRequest] is
    the query of its transport request group. *)
Record HatcheryCluster := mkCluster {
  hlink : option Store;
  battery : option Store;
  getPrioritizedClosestRequest : RoomPosition → string → option TransportRequest
}.

Definition setTask (queen : Zerg) (tk : QueenTask) : Zerg :=
  mkZerg (zname queen) (zpos queen) (carryEnergy queen) (carryCapacity queen) (Some tk).

Section Queen.
(** [queen.isIdle], a getter of the class Zerg, which is not among the
    sources. *)
Variable isIdle : Zerg → bool.
Variable hatchery : HatcheryCluster.

(** The link when it exists and is not empty. *)
Definition available (s : option Store) : option Store :=
  match s with
  | Some st => if isEmpty st then None else Some st
  | None => None
  end.

Definition rechargeActions (queen : Zerg) : Zerg :=
  match available (hlink hatchery) with
  | Some lnk => setTask queen (withdraw lnk)
  | None =>
      match available (battery hatchery) with
      | Some bat => setTask queen (withdraw bat)
      | None => setTask queen recharge
      end
  end.

Definition supplyActions (queen : Zerg) : Zerg :=
  (* Select the closest supply target out of the highest priority and refill it *)
  match getPrioritizedClosestRequest hatchery (zpos queen) "supply" with
  | Some request => setTask queen (transfer (reqTarget request))
  | None => rechargeActions queen   (* if there are no targets, refill yourself *)
  end.

Definition idleActions (queen : Zerg) : Zerg :=
  match hlink hatchery with
  | Some lnk =>
      match battery hatchery with
      | Some bat =>
          if negb (isFull bat) && negb (isEmpty lnk) then
            (* Move energy to battery as needed *)
            if carryEnergy queen <? carryCapacity queen
            then setTask queen (withdraw lnk)
            else setTask queen (transfer bat)
          else if carryEnergy queen <? carryCapacity queen then
            if negb (isEmpty lnk) then setTask queen (withdraw lnk)
            else if negb (isEmpty bat) then setTask queen (withdraw bat)
            else queen
          else queen
      | None =>
          if carryEnergy queen <? carryCapacity queen then
            if negb (isEmpty lnk) then setTask queen (withdraw lnk) else queen
          else queen
      end
  | None =>
      match battery hatchery with
      | Some bat =>
          if carryEnergy queen <? carryCapacity queen
          then setTask queen (withdraw bat)
          else queen
      | None => queen
      end
  end.

(** The first step of [handleQueen]: supply when she carries energy,
    recharge otherwise. *)
Definition firstActions (queen : Zerg) : Zerg :=
  if 0 <? carryEnergy queen then supplyActions queen else rechargeActions queen.

Definition handleQueen (queen : Zerg) : Zerg :=
  let queen := firstActions queen in
  (* If there aren't any tasks that need to be done, recharge the battery from link *)
  if isIdle queen then idleActions queen else queen.
End Queen.

End QueenOverlord.

(** ** Notions used by the properties *)

Module Claims.
Import ObjectiveGroup.





(** Kinds of calls. *)
Definition isCreate (k : DirectiveKind) (c : Call) : bool :=
  match c with
  | CreateDirective k' _ => bool_decide (k' = k)
  | _ => false
  end.

Definition isDirectiveInit (c : Call) : bool :=
  match c with DirectiveInit _ => true | _ => false end.

Definition isDirectiveRun (c : Call) : bool :=
  match c with DirectiveRun _ => true | _ => false end.

Definition isRegistration (c : Call) : bool :=
  match c with RegisterObjectives _ | Enqueue _ => true | _ => false end.

Definition isPlacement (c : Call) : bool :=
  match c with CreateDirective _ _ => true | _ => false end.

Definition isSafeMode (c : Call) : bool :=
  match c with ActivateSafeMode _ => true | _ => false end.

Definition isWorkerRequest (c : Call) : bool :=
  match c with Enqueue p => bool_decide (setupRole p = "worker") | _ => false end.

(** Every call of the first kind comes before every call of the second. *)
Definition precedes (P Q : Call → bool) (log : list Call) : Prop :=
  ∀ (i j : nat) (c d : Call),
    log !! i = Some c → log !! j = Some d → P c = true → Q d = true → (i < j)%nat.

(** No marker of the room is a guard marker. *)
Definition unguarded (r : Room) : Prop := ∀ f, f ∈ flags r → marker f ≠ GuardMarker.

(** An emergency marker stands in the colony room. *)
Definition marked (ov : Overlord.t) : Prop :=
  ∃ f, f ∈ flags (Overlord.room ov) ∧ marker f = EmergencyMarker.

(** The emergency directives that [placeDirectives] creates in a tick. *)
Definition emergencyCreates (T : Z) (ov : Overlord.t) : list Call :=
  List.filter (isCreate EmergencyMarker) (calls (Overlord.placeDirectives T ov)).

(** The conditions of a crash of the colony room: the colony is not
    incubating, has a hatchery, spawn energy is below the threshold, no
    storage holds more than the threshold while a supplier is there to
    carry it, and there is no miner. *)
Definition crisis (T : Z) (ov : Overlord.t) : Prop :=
  isIncubating (Overlord.colony ov) = false
  ∧ is_Some (hatchery (Overlord.colony ov))
  ∧ energyAvailable (Overlord.room ov) < T
  ∧ (∀ st, storage (Overlord.room ov) = Some st → T < energy st →
           getCreepsByRole (Overlord.colony ov) "supplier" = [])
  ∧ getCreepsByRole (Overlord.colony ov) "miner" = [].

Definition hatcheryAtHome (ov : Overlord.t) : Prop :=
  ∀ h, hatchery (Overlord.colony ov) = Some h →
       roomName (hpos h) = rname (Overlord.room ov).

Definition placedMarkers (log : list Call) : list Flag :=
  omap (λ c, match c with
             | CreateDirective k p => Some (mkFlag p k)
             | _ => None
             end) log.

(** Modelled from the spec: a directive created at a position leaves its
    marker in the room of that position, where the next tick finds it
    together with the markers that were there. *)
Definition markersKept (T : Z) (ov ov' : Overlord.t) : Prop :=
  ∀ f, f ∈ flags (Overlord.room ov)
       ∨ (f ∈ placedMarkers (calls (Overlord.placeDirectives T ov))
          ∧ roomName (flagPos f) = rname (Overlord.room ov)) →
       f ∈ flags (Overlord.room ov').

(** A link or battery of the hatchery that is absent or empty. *)
Definition exhausted (s : option QueenOverlord.Store) : Prop :=
  s = None ∨ ∃ st, s = Some st ∧ QueenOverlord.isEmpty st = true.

(** A colony seen at a tick and at the ticks that follow. *)
Fixpoint followedBy (T : Z) (ov : Overlord.t) (later : list Overlord.t) : Prop :=
  match later with
  | [] => True
  | ov' :: rest => markersKept T ov ov' ∧ followedBy T ov' rest
  end.
End Claims.

(** ** Sample data *)

Module Sample.
Definition W1N1 (px py : Z) : RoomPosition := mkPos px py "W1N1".

Definition road : Structure :=
  mkStructure (mkObj "road1" (W1N1 10 10)) STRUCTURE_ROAD 1000 5000 0.

Definition tower : Structure :=
  mkStructure (mkObj "tower1" (W1N1 20 20)) STRUCTURE_TOWER 2000 3000 0.

Definition worker (n : string) (px py : Z) (caps : list string) : Creep :=
  mkCreep n (W1N1 px py) "worker" "me" caps None.

Definition bob : Creep := worker "bob" 30 30 ["repair"; "upgrade"].

(** Chebyshev range inside a room; every target exists; tick 7. *)
#[export] Instance ambient : Ambient := {|
  distance p q := Z.max (Z.abs (x p - x q)) (Z.abs (y p - y q));
  isValidTarget _ := true;
  Game_time := 7
|}.

Definition quietRoom : Room :=
  mkRoom "W1N1" (Some (mkObj "ctl1" (W1N1 25 25))) None None [] [] 300 [] []
         [] [road; tower] [] [] [].

Definition hatch : Hatchery := mkHatchery (W1N1 5 5).

Definition quietColony : Colony :=
  mkColony "W1N1" quietRoom [quietRoom] [] (Some hatch) None false []
           (λ _, []).

Definition overlord : Overlord.t := Overlord.new quietColony.


(** The registrations of [init] applied to the fresh group. *)
Definition afterInit : Overlord.t :=
  Overlord.setGroup overlord
    (Overlord.registered (Overlord.objectiveGroup overlord)
       (calls (Overlord.registerObjectives overlord))).
(** The threshold of the emergency directive in the game scripts. *)
Definition threshold : Z := 1300.

Definition rampart : Structure :=
  mkStructure (mkObj "rampart1" (W1N1 2 25)) STRUCTURE_RAMPART 4000 300000 0.

Definition container : Structure :=
  mkStructure (mkObj "container1" (W1N1 8 8)) STRUCTURE_CONTAINER 180000 250000 0.

Definition raider : Creep := mkCreep "raider" (W1N1 1 25) "attacker" "Nemesis" [] None.

Definition scout : Creep :=
  mkCreep "scout" (mkPos 40 12 "W2N1") "attacker" "Invader" [] None.

Definition outpost : Room :=
  mkRoom "W2N1" None None None [] [] 0 [] [scout] [] [] [] [] [].

Definition emergencyMarker : Flag := mkFlag (hpos hatch) EmergencyMarker.

(** The colony room after a crash, with the markers [fl] in it: 100 energy
    to spawn with, no storage, no creep of any role. *)
Definition crashedRoom (fl : list Flag) : Room :=
  mkRoom "W1N1" (Some (mkObj "ctl1" (W1N1 25 25))) None None [] [container] 100 fl
         [] [] [road; tower; container] [] [] [].

Definition crashed (fl : list Flag) : Overlord.t :=
  Overlord.mk
    (mkColony "W1N1" (crashedRoom fl) [crashedRoom fl; outpost] [outpost]
              (Some hatch) None false [] (λ _, []))
    Overlord.priorities (ObjectiveGroup.new Overlord.priorities)
    (mkRequests (mkModes [] []) (mkModes [] [])) ["guard_W2N1"]
    Overlord.defaultSettings.

(** The colony room with a rampart about to fall and a raider inside. *)
Definition besiegedRoom (ctl : option RoomObject) : Room :=
  mkRoom "W1N1" ctl None None [] [] 300 [] [raider] [rampart] [] [] [] [].

Definition besieged (ctl : option RoomObject) : Overlord.t :=
  Overlord.new
    (mkColony "W1N1" (besiegedRoom ctl) [besiegedRoom ctl] [] (Some hatch) None
              false [] (λ _, [])).

Definition queen : QueenOverlord.Zerg :=
  QueenOverlord.mkZerg "queen" (W1N1 6 6) 0 300 None.

Definition hatcheryLink : QueenOverlord.Store :=
  QueenOverlord.mkStore (mkObj "link1" (W1N1 5 6)) false false.

Definition cluster : QueenOverlord.HatcheryCluster :=
  QueenOverlord.mkCluster (Some hatcheryLink) None (λ _ _, None).
End Sample.

(** ** Further notions on the calls of the Overlord *)

Module Kinds.

Definition isSupplierRequest (c : Call) : bool :=
  match c with
  | Enqueue p => bool_decide (setupRole p = "mineralSupplier")
  | _ => false
  end.

(** The order in which [_.sortBy(room.barriers, barrier => barrier.hits)]
    puts two barriers. *)
Definition fewerHits (a b : Structure) : Prop := hits a ≤ hits b.

(** The barriers with a given number of hits, in the order of a list. *)
Definition withHits (h : Z) (l : list Structure) : list Structure :=
  List.filter (λ b, hits b =? h) l.

(** The safe-mode trigger, in words: a barrier below 5000 hits, a hostile
    not owned by the invader, and no incubator. *)
Definition breach (ov : Overlord.t) : Prop :=
  (∃ b, b ∈ barriers (Overlord.room ov) ∧ hits b < 5000)
  ∧ (∃ c, c ∈ hostiles (Overlord.room ov) ∧ username c ≠ "Invader")
  ∧ incubator (Overlord.colony ov) = None.

End Kinds.

(** ** The trade network

    The embedding of [TraderJoe].  Prices and credits are binary64 numbers;
    every such number is a rational, and the code compares them far more
    than it computes with them, so they are canonical rationals here and
    the few binary64 operations of the code (a product, a sum, a
    difference, a quotient) are operations of the environment, left
    uninterpreted.  Amounts, costs and ticks are whole numbers.  The text of
    a notification is kept as the values it is made of. *)

Module TraderJoe.

Inductive OrderType := ORDER_BUY | ORDER_SELL.

#[global] Instance OrderType_eq_dec : EqDecision OrderType.
Proof. solve_decision. Defined.

Record Order := mkOrder {
  id : string;
  created : Z;
  active : bool;
  type : OrderType;
  resourceType : string;
  roomName : option string;
  amount : Z;
  remainingAmount : Z;
  price : Qc
}.

#[global] Instance Order_eq_dec : EqDecision Order.
Proof. solve_decision. Defined.

(** A transaction of the terminal: [order] is there when the transaction
    came from a market order, and only its price is read. *)
Record Transaction := mkTransaction {
  txTime : Z;
  txResourceType : string;
  txAmount : Z;
  txOrderPrice : option Qc            (* transaction.order.price *)
}.

(** A number that may be [Infinity]. *)
Inductive Number := Num (q : Qc) | Inf.

Record Terminal := mkTerminal {
  troom : string;                     (* terminal.room.name *)
  tprint : string;                    (* terminal.room.print *)
  energy : Z;                         (* terminal.store[RESOURCE_ENERGY] *)
  minerals : gmap string Z;           (* the rest of terminal.store *)
  storeCapacity : Z;
  cooldown : Z
}.

(** [_.sum(terminal.store)] *)
Definition storeSum (tm : Terminal) : Z :=
  energy tm + map_fold (λ _ v acc, v + acc) 0 (minerals tm).

Record PriceRange := mkRange { high : Qc; low : Qc }.

Record MarketCache := mkCache {
  sell : gmap string PriceRange;
  buy : gmap string PriceRange;
  tick : Z
}.

Record TraderMemory := mkMemory { cache : MarketCache; equalizeIndex : Z }.

Record ResourceStats := mkResourceStats { statAmount : Z; statCredits : Qc }.

Record TraderStats := mkStats {
  statsCredits : Qc;
  bought : gmap string ResourceStats;
  sold : gmap string ResourceStats
}.

(** The values a notification is written from. *)
Inductive Notice :=
| UpdatingPrice (room resource : string) (old new : Qc) (response : Z)
| Extending (room resource : string) (addAmount : Z) (response : Z)
| Creating (room resource : string) (atPrice : Qc) (response : Z)
| Transacted (kind : OrderType) (room : string) (amount : Z) (resource : string)
             (orderRoom : option string) (response : Z).

(** What the trader does to the market and the console. *)
Inductive Action :=
| cancelOrder (orderId : string)
| deal (orderId : string) (amount : Z) (room : string)
| changeOrderPrice (orderId : string) (newPrice : Qc)
| extendOrder (orderId : string) (addAmount : Z)
| createOrder (kind : OrderType) (resource : string) (atPrice : Qc) (amount : Z)
              (room : string)
| consoleLog (resource : string) (kind : OrderType) (hi lo : Qc)
| logInfo (notices : list Notice).

Record Market := mkMarket {
  credits : Qc;
  orders : list Order;                     (* my orders, as enumerated *)
  allOrders : list Order;                  (* the order book *)
  incomingTransactions : list Transaction;
  outgoingTransactions : list Transaction
}.

Record GameState := mkGame {
  time : Z;
  market : Market;
  shardName : string;                      (* Game.shard.name *)
  roomPrints : gmap string string          (* Game.rooms[name].print *)
}.

(** What surrounds the trader: the game, the colonies, the answers of the
    market to each call (given the calls made before it), the binary64
    operations, and the helpers [maxBy] and [minBy], which are not among
    the sources. *)
Class Env := {
  Game : GameState;
  colonies : gset string;                  (* Overmind.colonies *)
  calcTransactionCost : Z → option string → option string → Z;
  respond : list Action → Action → Z;
  fmul : Qc → Qc → Qc;
  fadd : Qc → Qc → Qc;
  fsub : Qc → Qc → Qc;
  fdiv : Qc → Qc → Qc;
  maxBy : list Order → (Order → Number) → option Order;
  minBy : list Order → (Order → Qc) → option Order;
  TERMINAL_MIN_SEND : Z
}.

Definition ofZ (z : Z) : Qc := Q2Qc (inject_Z z).

(** The constants of the code, as the binary64 numbers they denote. *)
Definition c0_01 : Qc := Q2Qc (Qmake 5764607523034235 576460752303423488).
Definition c0_3 : Qc := Q2Qc (Qmake 5404319552844595 18014398509481984).
Definition c0_25 : Qc := Q2Qc (Qmake 1 4).
Definition c0_5 : Qc := Q2Qc (Qmake 1 2).
Definition c5_0 : Qc := ofZ 5.
Definition c1_25 : Qc := Q2Qc (Qmake 5 4).

Definition RESOURCE_POWER : string := "power".
Definition RESOURCE_HYDROGEN : string := "H".
Definition RESOURCE_OXYGEN : string := "O".
Definition RESOURCE_UTRIUM : string := "U".
Definition RESOURCE_LEMERGIUM : string := "L".
Definition RESOURCE_KEANIUM : string := "K".
Definition RESOURCE_ZYNTHIUM : string := "Z".
Definition RESOURCE_CATALYST : string := "X".

(** Maximum prices I'm willing to pay to buy various resources. *)
Definition maxMarketPrices : gmap string Qc :=
  list_to_map
    [ ("default", c5_0); (RESOURCE_HYDROGEN, c0_3); (RESOURCE_OXYGEN, c0_25);
      (RESOURCE_UTRIUM, c0_3); (RESOURCE_LEMERGIUM, c0_25);
      (RESOURCE_KEANIUM, c0_25); (RESOURCE_ZYNTHIUM, c0_25);
      (RESOURCE_CATALYST, c0_5) ].

(** [TraderJoe.settings] *)
Definition cache_timeout : Z := 25.
Definition reserveCredits : Z := 10000.
Definition boostCredits : Z := 15000.
Definition orders_timeout : Z := 100000.
Definition cleanupAmount : Z := 10.

Definition ltb (a b : Qc) : bool := bool_decide (a < b)%Qc.
Definition leb (a b : Qc) : bool := bool_decide (a ≤ b)%Qc.

(** The trader: [memory], [stats] and [notifications]. *)
Record t := mk {
  memory : TraderMemory;
  stats : TraderStats;
  notifications : list Notice
}.

(** The trader together with what it has done so far. *)
Record Run := mkRun { self : t; actions : list Action }.

(** A method of the trader. *)
Definition M (A : Type) : Type := Run → A * Run.

Definition retM {A} (a : A) : M A := λ r, (a, r).

Definition bindM {A B} (m : M A) (k : A → M B) : M B :=
  λ r, let '(a, r') := m r in k a r'.

Notation "'let*' x ':=' m 'in' k" := (bindM m (λ x, k))
  (at level 10, x name, m at level 100, k at level 200).

Definition whenM (b : bool) (m : M unit) : M unit := if b then m else retM tt.

Fixpoint forEachM {A} (l : list A) (body : A → M unit) : M unit :=
  match l with
  | [] => retM tt
  | a :: l' => let* _ := body a in forEachM l' body
  end.

Definition getSelf : M t := λ r, (self r, r).

Definition setMemory (m : TraderMemory) : M unit :=
  λ r, (tt, mkRun (mk m (stats (self r)) (notifications (self r))) (actions r)).

Definition setStats (s : TraderStats) : M unit :=
  λ r, (tt, mkRun (mk (memory (self r)) s (notifications (self r))) (actions r)).

Section Methods.
Context `{!Env}.

(** A call to the market or the console; the answer is the environment's. *)
Definition perform (a : Action) : M Z :=
  λ r, (respond (actions r) a, mkRun (self r) (actions r ++ [a])).

(** [Game.market.getAllOrders(filter)] *)
Definition getAllOrders (f : Order → bool) : list Order :=
  List.filter f (allOrders (market Game)).

Definition notify (msg : Notice) : M unit :=
  λ r, (tt, mkRun (mk (memory (self r)) (stats (self r))
                      (notifications (self r) ++ [msg])) (actions r)).

Definition setCache (c : MarketCache) : M unit :=
  let* s := getSelf in
  setMemory (mkMemory c (equalizeIndex (memory s))).

Definition invalidateMarketCache : M unit :=
  setCache (mkCache ∅ ∅ 0).

(** [_.groupBy]: the groups in the order in which their keys first appear,
    each in the order of the list. *)
Fixpoint groupInsert (k : string) (o : Order) (gs : list (string * list Order))
  : list (string * list Order) :=
  match gs with
  | [] => [(k, [o])]
  | (k', g) :: rest =>
      if bool_decide (k = k') then (k', g ++ [o]) :: rest
      else (k', g) :: groupInsert k o rest
  end.

Definition groupBy (l : list Order) (key : Order → string) : list (string * list Order) :=
  foldl (λ gs o, groupInsert (key o) o gs) [] l.

(** [_.max] and [_.min] of a list that is not empty. *)
Definition maxOf (p : Qc) (ps : list Qc) : Qc :=
  foldl (λ best q, if ltb best q then q else best) p ps.

Definition minOf (p : Qc) (ps : list Qc) : Qc :=
  foldl (λ best q, if ltb q best then q else best) p ps.

(** The orders that count for the cache: not one of my active orders, and
    not tiny. *)
Definition countsForCache (o : Order) : bool :=
  let myActiveOrderIDs := id <$> List.filter active (orders (market Game)) in
  negb (bool_decide (id o ∈ myActiveOrderIDs)) && (1000 <=? amount o).

(** One round of the loops over the grouped orders; a group is never
    empty. *)
Definition cacheGroup (kind : OrderType) (verbose : bool) (g : string * list Order) : M unit :=
  match g.2 with
  | [] => retM tt
  | o :: os =>
      let hi := maxOf (price o) (price <$> os) in
      let lo := minOf (price o) (price <$> os) in
      let* _ := whenM verbose (let* _ := perform (consoleLog g.1 kind hi lo) in retM tt) in
      let* s := getSelf in
      let c := cache (memory s) in
      match kind with
      | ORDER_BUY => setCache (mkCache (sell c) (<[g.1 := mkRange hi lo]> (buy c)) (tick c))
      | ORDER_SELL => setCache (mkCache (<[g.1 := mkRange hi lo]> (sell c)) (buy c) (tick c))
      end
  end.

(** Builds a cache for market. *)
Definition buildMarketCache (verbose : bool) : M unit :=
  let* _ := invalidateMarketCache in
  let allOrders := getAllOrders countsForCache in
  let groupedBuyOrders :=
    groupBy (List.filter (λ o, bool_decide (type o = ORDER_BUY)) allOrders) resourceType in
  let groupedSellOrders :=
    groupBy (List.filter (λ o, bool_decide (type o = ORDER_SELL)) allOrders) resourceType in
  let* _ := forEachM groupedBuyOrders (cacheGroup ORDER_BUY verbose) in
  let* _ := forEachM groupedSellOrders (cacheGroup ORDER_SELL verbose) in
  let* s := getSelf in
  let c := cache (memory s) in
  setCache (mkCache (sell c) (buy c) (time Game)).

(** [if (order.roomName)]: a name that is there and not empty. *)
Definition hasRoomName (o : Order) : bool :=
  match roomName o with
  | Some rn => negb (bool_decide (rn = ""))
  | None => false
  end.

(** Cost per unit including transfer price with energy converted to
    credits. *)
Definition effectivePrice (order : Order) (terminal : Terminal) : Number :=
  if hasRoomName order then
    let transferCost :=
      fdiv (ofZ (calcTransactionCost 1000 (roomName order) (Some (troom terminal))))
           (ofZ 1000) in
    let energyToCreditMultiplier := c0_01 in
    Num (fadd (price order) (fmul transferCost energyToCreditMultiplier))
  else Inf.

(** Cost per unit for a buy order including transfer price. *)
Definition effectiveBuyPrice (order : Order) (terminal : Terminal) : Number :=
  if hasRoomName order then
    let transferCost :=
      fdiv (ofZ (calcTransactionCost 1000 (roomName order) (Some (troom terminal))))
           (ofZ 1000) in
    let energyToCreditMultiplier := c0_01 in
    Num (fsub (price order) (fmul transferCost energyToCreditMultiplier))
  else Inf.

(** The test of [cleanUpInactiveOrders]: the order is expired, or old and
    almost done, or placed from a dead colony. *)
Definition toClean (o : Order) : bool :=
  (bool_decide (type o = ORDER_SELL) && negb (active o) && (remainingAmount o =? 0))
  || ((orders_timeout <? time Game - created o) && (remainingAmount o <? cleanupAmount))
  || (hasRoomName o
      && negb (bool_decide (default "" (roomName o) ∈ colonies))).

Definition cleanUpInactiveOrders : M unit :=
  let ordersToClean := List.filter toClean (orders (market Game)) in
  forEachM ordersToClean (λ order, let* _ := perform (cancelOrder (id order)) in retM tt).

Definition logTransaction (order : Order) (terminalRoomName : string) (amount : Z)
    (response : Z) : M unit :=
  let roomName' := default terminalRoomName (roomPrints Game !! terminalRoomName) in
  notify (Transacted (type order) roomName' amount (resourceType order)
            (roomName order) response).

(** Opportunistically sells resources when the buy price is higher than
    current market sell low price. *)
Definition lookForGoodDeals (terminal : Terminal) (mineral : string) (margin : Qc)
  : M unit :=
  if ltb (credits (market Game)) (ofZ reserveCredits) then retM tt
  else
    let amount := if bool_decide (mineral = RESOURCE_POWER) then 100 else 5000 in
    let ordersForMineral :=
      getAllOrders (λ o, bool_decide (type o = ORDER_BUY)
                         && bool_decide (resourceType o = mineral)
                         && (amount <=? TraderJoe.amount o)) in
    let* s := getSelf in
    match sell (cache (memory s)) !! mineral with
    | None => retM tt
    | Some range =>
        let marketLow := low range in
        match maxBy ordersForMineral (λ order, effectiveBuyPrice order terminal) with
        | Some order =>
            if ltb (fmul marketLow margin) (price order) then
              let amount := Z.min (TraderJoe.amount order) 10000 in
              let cost := calcTransactionCost amount (Some (troom terminal)) (roomName order) in
              if cost <? energy terminal then
                let* response := perform (deal (id order) amount (troom terminal)) in
                logTransaction order (troom terminal) amount response
              else retM tt
            else retM tt
        | None => retM tt
        end
    end.

(** Sell resources directly to a buyer rather than making a sell order. *)
Definition sellDirectly (terminal : Terminal) (resource : string) (amount : Z)
  : M (option Z) :=
  let ordersForMineral :=
    getAllOrders (λ o, bool_decide (type o = ORDER_BUY)
                       && bool_decide (resourceType o = resource)
                       && (amount <=? TraderJoe.amount o)) in
  match maxBy ordersForMineral (λ order, effectiveBuyPrice order terminal) with
  | Some order =>
      let sellAmount := Z.min (TraderJoe.amount order) amount in
      let cost := calcTransactionCost sellAmount (Some (troom terminal)) (roomName order) in
      if cost <? energy terminal then
        let* response := perform (deal (id order) sellAmount (troom terminal)) in
        let* _ := logTransaction order (troom terminal) amount response in
        retM (Some response)
      else retM None
  | None => retM None
  end.

(** One round of the loop of [maintainSellOrder]. *)
Definition maintainOne (terminal : Terminal) (resource : string) (amount : Z)
    (marketLow : Qc) (order : Order) : M unit :=
  let* _ :=
    whenM (ltb marketLow (price order)
           || (ltb (price order) marketLow && (remainingAmount order =? 0)))
      (let* ret := perform (changeOrderPrice (id order) marketLow) in
       notify (UpdatingPrice (tprint terminal) resource (price order) marketLow ret)) in
  whenM (remainingAmount order <? 2000)
    (let addAmount := amount - remainingAmount order in
     let* ret := perform (extendOrder (id order) addAmount) in
     notify (Extending (tprint terminal) resource addAmount ret)).

(** Create or maintain a sell order. *)
Definition maintainSellOrder (terminal : Terminal) (resource : string) (amount : Z)
  : M unit :=
  let* s := getSelf in
  match sell (cache (memory s)) !! resource with
  | None => retM tt
  | Some range =>
      let marketLow := low range in
      if bool_decide (marketLow = ofZ 0) then retM tt
      else
        let mySellOrders :=
          List.filter (λ o, bool_decide (type o = ORDER_SELL)
                            && bool_decide (resourceType o = resource)
                            && bool_decide (roomName o = Some (troom terminal)))
                      (orders (market Game)) in
        match mySellOrders with
        | _ :: _ => forEachM mySellOrders (maintainOne terminal resource amount marketLow)
        | [] =>
            let* ret := perform (createOrder ORDER_SELL resource marketLow amount
                                   (troom terminal)) in
            notify (Creating (tprint terminal) resource marketLow ret)
        end
  end.

Definition sellResource (terminal : Terminal) (resource : string) (amount : Z)
  : M (option Z) :=
  if ltb (credits (market Game)) (ofZ reserveCredits) then
    sellDirectly terminal resource amount
  else
    let* _ := maintainSellOrder terminal resource amount in
    retM None.

Definition priceOf (s : t) (mineralType : string) : Number :=
  match sell (cache (memory s)) !! mineralType with
  | Some range => Num (low range)
  | None => Inf
  end.

(** [maxMarketPrices[mineralType] || maxMarketPrices.default] *)
Definition maxPriceFor (mineralType : string) : Qc :=
  match maxMarketPrices !! mineralType with
  | Some p => if bool_decide (p = ofZ 0) then c5_0 else p
  | None => c5_0
  end.

(** [Game.shard.name.includes('shard')] *)
Definition onMMO : bool :=
  match String.index 0 "shard" (shardName Game) with
  | Some _ => true
  | None => false
  end.

Definition buyMineral (terminal : Terminal) (mineralType : string) (amount : Z)
  : M unit :=
  if ltb (credits (market Game)) (ofZ reserveCredits) || (0 <? cooldown terminal)
  then retM tt
  else
    let amount := Z.max amount TERMINAL_MIN_SEND in
    if (energy terminal <? 10000) || (storeCapacity terminal - storeSum terminal <? amount)
    then retM tt
    else
      let ordersForMineral :=
        getAllOrders (λ order, bool_decide (type order = ORDER_SELL)
                               && bool_decide (resourceType order = mineralType)
                               && (amount <=? TraderJoe.amount order)) in
      let bestOrder := minBy ordersForMineral price in
      let maxPrice := if onMMO then Num (maxPriceFor mineralType) else Inf in
      match bestOrder with
      | Some bestOrder =>
          if match maxPrice with Num p => leb (price bestOrder) p | Inf => true end then
            let* response := perform (deal (id bestOrder) amount (troom terminal)) in
            logTransaction bestOrder (troom terminal) amount response
          else retM tt
      | None => retM tt
      end.

(** One of the two loops of [recordStats]: the transactions are read until
    the first one older than [time]. *)
Fixpoint tally (time : Z) (txs : list Transaction) (acc : gmap string ResourceStats)
  : gmap string ResourceStats :=
  match txs with
  | [] => acc
  | transaction :: rest =>
      if txTime transaction <? time then acc      (* break *)
      else
        match txOrderPrice transaction with
        | Some price =>
            let resourceType := txResourceType transaction in
            let amount := txAmount transaction in
            let cur := default (mkResourceStats 0 (ofZ 0)) (acc !! resourceType) in
            tally time rest
              (<[resourceType :=
                   mkResourceStats (statAmount cur + amount)
                     (fadd (statCredits cur) (fmul (ofZ amount) price))]> acc)
        | None => tally time rest acc
        end
  end.

(** Look through transactions happening on the previous tick and record
    stats. *)
Definition recordStats : M unit :=
  let* s := getSelf in
  let time := time Game - 1 in
  setStats (mkStats (credits (market Game))
              (tally time (incomingTransactions (market Game)) (bought (stats s)))
              (tally time (outgoingTransactions (market Game)) (sold (stats s)))).

Definition init : M unit :=
  let* s := getSelf in
  whenM (cache_timeout <? time Game - tick (cache (memory s)))
    (buildMarketCache false).

Definition run : M unit :=
  let* _ := whenM (Z.rem (time Game) 10 =? 0) cleanUpInactiveOrders in
  let* s := getSelf in
  let* _ := whenM (0 <? Z.of_nat (length (notifications s)))
              (let* _ := perform (logInfo (notifications s)) in retM tt) in
  recordStats.
End Methods.

End TraderJoe.

(** ** Notions used by the properties of the trade network *)

Module Trade.
Import TraderJoe.

Definition isDeal (a : Action) : bool :=
  match a with deal _ _ _ => true | _ => false end.

(** What a method has added to the calls made so far. *)
Definition newActions (r r' : Run) : list Action :=
  drop (length (actions r)) (actions r').

(** The transactions that [recordStats] reads: those before the first one
    older than [time]. *)
Fixpoint leading (time : Z) (txs : list Transaction) : list Transaction :=
  match txs with
  | [] => []
  | tx :: rest => if txTime tx <? time then [] else tx :: leading time rest
  end.

(** Of these, the ones of a resource that came from a market order. *)
Definition counted (time : Z) (res : string) (txs : list Transaction) : list Transaction :=
  List.filter (λ tx, bool_decide (is_Some (txOrderPrice tx))
                     && bool_decide (txResourceType tx = res))
              (leading time txs).

Definition sumAmounts (txs : list Transaction) : Z :=
  foldr (λ tx acc, txAmount tx + acc) 0 txs.

(** The amount recorded for a resource, 0 when there is no record. *)
Definition amountOf (m : gmap string ResourceStats) (res : string) : Z :=
  default 0 (statAmount <$> m !! res).

(** The orders of the book of a kind and a resource that count for the
    cache. *)
Definition cacheOrders `{!Env} (kind : OrderType) (res : string) : list Order :=
  List.filter (λ o, countsForCache o && bool_decide (type o = kind)
                    && bool_decide (resourceType o = res))
              (allOrders (market Game)).

(** The group of a key, in a list of groups. *)
Fixpoint lookupGroup (k : string) (gs : list (string * list Order)) : option (list Order) :=
  match gs with
  | [] => None
  | (k', g) :: rest => if bool_decide (k = k') then Some g else lookupGroup k rest
  end.

(** My sell orders for a resource placed from the room of a terminal. *)
Definition mySellOrders `{!Env} (terminal : Terminal) (resource : string) : list Order :=
  List.filter (λ o, bool_decide (type o = ORDER_SELL)
                    && bool_decide (resourceType o = resource)
                    && bool_decide (roomName o = Some (troom terminal)))
              (orders (market Game)).

(** The second state comes from the first by making the calls [acts] and
    writing the notifications [notes], and by nothing else. *)
Definition adds (r r' : Run) (acts : list Action) (notes : list Notice) : Prop :=
  actions r' = actions r ++ acts
  ∧ notifications (self r') = notifications (self r) ++ notes
  ∧ memory (self r') = memory (self r)
  ∧ stats (self r') = stats (self r).

(** The two calls that maintaining a sell order can make for it: a change
    of its price to the market low, which it does not have yet, and an
    extension that brings what remains of it to the amount asked. *)
Definition maintains (marketLow : Qc) (amount : Z) (o : Order) (a : Action) : Prop :=
  (a = changeOrderPrice (id o) marketLow ∧ price o ≠ marketLow)
  ∨ (a = extendOrder (id o) (amount - remainingAmount o) ∧ remainingAmount o < 2000).

(** The notification that [logTransaction] writes for an order. *)
Definition transacted `{!Env} (order : Order) (room : string) (amount response : Z)
  : Notice :=
  Transacted (type order) (default room (roomPrints Game !! room)) amount
             (resourceType order) (roomName order) response.

(** The side of the cache for a kind of order. *)
Definition side (kind : OrderType) (c : MarketCache) : gmap string PriceRange :=
  match kind with ORDER_BUY => buy c | ORDER_SELL => sell c end.

(** The range that [buildMarketCache] writes for a group of orders. *)
Definition rangeOf (g : list Order) : option PriceRange :=
  match g with
  | [] => None
  | o :: os =>
      Some (mkRange (maxOf (price o) (price <$> os)) (minOf (price o) (price <$> os)))
  end.

End Trade.

(** ** Further sample data *)

Module Cases.
Import Sample.

Definition terminal1 : Structure :=
  mkStructure (mkObj "terminal1" (W1N1 12 12)) STRUCTURE_TERMINAL 3000 3000 0.

Definition lab1 : Structure :=
  mkStructure (mkObj "lab1" (W1N1 14 12)) STRUCTURE_LAB 500 500 0.

(** The quiet room with a terminal and a lab. *)
Definition labRoom : Room :=
  mkRoom "W1N1" (Some (mkObj "ctl1" (W1N1 25 25))) None (Some terminal1) [lab1] []
         300 [] [] [] [road; tower] [] [] [].

Definition chemist : Overlord.t :=
  Overlord.new
    (mkColony "W1N1" labRoom [labRoom] [] (Some hatch) None false [] (λ _, [])).

Definition fullQueen : QueenOverlord.Zerg :=
  QueenOverlord.mkZerg "queen" (W1N1 6 6) 300 300 None.

Definition hatcheryBattery : QueenOverlord.Store :=
  QueenOverlord.mkStore (mkObj "battery1" (W1N1 4 6)) false false.

(** A hatchery with a link and a battery, neither empty nor full. *)
Definition stocked : QueenOverlord.HatcheryCluster :=
  QueenOverlord.mkCluster (Some hatcheryLink) (Some hatcheryBattery) (λ _ _, None).

(** A hatchery with a battery and no link. *)
Definition linkless : QueenOverlord.HatcheryCluster :=
  QueenOverlord.mkCluster None (Some hatcheryBattery) (λ _ _, None).
End Cases.

(** A market at tick 5000 on shard2, seen from the colony W1N1. *)
Module Bazaar.
Import TraderJoe.

Definition q (n : Z) (d : positive) : Qc := Q2Qc (Qmake n d).

Definition buyH : Order :=
  mkOrder "buyH" 4000 true ORDER_BUY "H" (Some "E5S5") 6000 6000 (q 2 5).
Definition sellH : Order :=
  mkOrder "sellH" 4100 true ORDER_SELL "H" (Some "E7S2") 3000 3000 (q 1 5).
Definition sellH2 : Order :=
  mkOrder "sellH2" 4200 true ORDER_SELL "H" (Some "E1S8") 2000 2000 (q 3 10).
Definition sellO : Order :=
  mkOrder "sellO" 4300 true ORDER_SELL "O" (Some "E3S3") 4000 4000 (q 1 4).
Definition tiny : Order :=
  mkOrder "tiny" 4400 true ORDER_SELL "H" (Some "E2S2") 500 500 (q 1 100).

(** My sell order for oxygen, almost sold out, and an order left by a
    colony that is gone. *)
Definition mine : Order :=
  mkOrder "mine" 3000 true ORDER_SELL "O" (Some "W1N1") 1500 1500 (q 1 2).
Definition orphan : Order :=
  mkOrder "orphan" 3500 true ORDER_SELL "U" (Some "W9N9") 5000 5000 (q 1 2).

Definition bought1 : Transaction := mkTransaction 5000 "H" 700 (Some (q 1 5)).
Definition bought2 : Transaction := mkTransaction 4999 "H" 300 (Some (q 1 5)).
Definition stale : Transaction := mkTransaction 4990 "H" 900 (Some (q 1 5)).
Definition late : Transaction := mkTransaction 5000 "H" 40 (Some (q 1 5)).

Definition game : GameState :=
  mkGame 5000
    (mkMarket (ofZ 20000) [mine; orphan] [buyH; sellH; sellH2; sellO; tiny; mine]
       [bought1; bought2; stale; late] [])
    "shard2" ∅.

Definition numLt (a b : Number) : bool :=
  match a, b with
  | Num x, Num y => ltb x y
  | Num _, Inf => true
  | Inf, _ => false
  end.

(** The first order with the greatest value, and the first with the least
    price. *)
Definition firstMax (l : list Order) (f : Order → Number) : option Order :=
  foldl (λ best o, match best with
                   | None => Some o
                   | Some b => if numLt (f b) (f o) then Some o else Some b
                   end) None l.

Definition firstMin (l : list Order) (f : Order → Qc) : option Order :=
  foldl (λ best o, match best with
                   | None => Some o
                   | Some b => if ltb (f o) (f b) then Some o else Some b
                   end) None l.

#[export] Instance env : Env := {|
  Game := game;
  colonies := {["W1N1"]};
  calcTransactionCost amount _ _ := amount / 10;
  respond _ _ := 0;
  fmul := Qcmult;
  fadd := Qcplus;
  fsub := Qcminus;
  fdiv := Qcdiv;
  maxBy := firstMax;
  minBy := firstMin;
  TERMINAL_MIN_SEND := 100
|}.

Definition terminal : Terminal :=
  mkTerminal "W1N1" "W1N1" 20000 {["O" := 8000]} 300000 0.

(** The trader before its first [init], and after it. *)
Definition fresh : Run :=
  mkRun (mk (mkMemory (mkCache ∅ ∅ 0) 0) (mkStats (ofZ 0) ∅ ∅) []) [].

Definition ready : Run := (init fresh).2.
End Bazaar.

(** * Properties *)

Section ObjectiveGroupFacts.
Import ObjectiveGroup Claims.
Context `{!Ambient}.

Lemma candidates_spec w n os i o :
  (i, o) ∈ candidates w n os ↔ os !! i = Some o ∧ candidate w n o = true.
Proof.
  unfold candidates. rewrite list_elem_of_filter, elem_of_lookup_imap. simpl.
  split.
  - intros [Hc (j & y & Heq & Hl)]. inversion Heq; subst.
    split; [done|]. by apply Is_true_true.
  - intros [Hl Hc]. split; [by apply Is_true_true|]. by exists i, o.
Qed.

Lemma foldl_nearer_In w c cs : foldl (nearer w) c cs ∈ c :: cs.
Proof.
  revert c. induction cs as [|d cs IH]; intros c; simpl.
  - apply list_elem_of_here.
  - specialize (IH (nearer w c d)). unfold nearer in IH |- *.
    destruct (range w d.2 <? range w c.2).
    + by apply list_elem_of_further.
    + apply elem_of_cons in IH as [->|IH].
      * apply list_elem_of_here.
      * by do 2 apply list_elem_of_further.
Qed.

Lemma nearer_le w c d :
  range w (nearer w c d).2 ≤ range w c.2 ∧ range w (nearer w c d).2 ≤ range w d.2.
Proof. unfold nearer. destruct (Z.ltb_spec (range w d.2) (range w c.2)); lia. Qed.

Lemma foldl_nearer_acc w c cs :
  range w (foldl (nearer w) c cs).2 ≤ range w c.2.
Proof.
  revert c. induction cs as [|d cs IH]; intros c; simpl; [lia|].
  pose proof (nearer_le w c d) as [Hc _]. specialize (IH (nearer w c d)). lia.
Qed.

Lemma foldl_nearer_le w c cs e :
  e ∈ c :: cs → range w (foldl (nearer w) c cs).2 ≤ range w e.2.
Proof.
  revert c. induction cs as [|d cs IH]; intros c He; simpl.
  - apply list_elem_of_singleton in He. subst. lia.
  - pose proof (nearer_le w c d) as [Hc Hd].
    pose proof (foldl_nearer_acc w (nearer w c d) cs) as Hbest.
    apply elem_of_cons in He as [->|He]; [lia|].
    apply elem_of_cons in He as [->|He]; [lia|].
    apply IH. by apply list_elem_of_further.
Qed.

Lemma closest_None w cands : closest w cands = None ↔ cands = [].
Proof. destruct cands; simpl; split; congruence. Qed.

Lemma closest_Some w cands c :
  closest w cands = Some c →
  c ∈ cands ∧ ∀ e, e ∈ cands → range w c.2 ≤ range w e.2.
Proof.
  destruct cands as [|d cs]; simpl; [done|]. intros [= <-].
  split; [apply foldl_nearer_In|]. intros e. apply foldl_nearer_le.
Qed.


Lemma assignFrom_Some g w names g' tk :
  assignFrom g w names = (g', Some tk) →
  ∃ pre n post i o,
    names = pre ++ n :: post
    ∧ (∀ m, m ∈ pre → candidates w m (bucket g m) = [])
    ∧ closest w (candidates w n (bucket g n)) = Some (i, o)
    ∧ tk = taskFor w n o
    ∧ g' = mk (objectivePriorities g)
              ((λ os : list Objective, claimTarget w (target o) <$> os) <$> objectives g).
Proof.
  induction names as [|n names IH]; simpl; [done|].
  destruct (closest w (candidates w n (bucket g n))) as [[i o]|] eqn:Hc.
  - intros [= <- <-]. exists [], n, names, i, o. repeat split; try done.
    intros m Hm. by apply elem_of_nil in Hm.
  - intros Hrest. destruct (IH Hrest) as (pre & m & post & i & o & -> & Hpre & Hm & -> & ->).
    exists (n :: pre), m, post, i, o. repeat split; try done.
    intros k [->|Hk]%elem_of_cons; [by apply (closest_None w)|by apply Hpre].
Qed.

(** The chosen objective sits in its bucket, is a candidate, and no
    candidate of the bucket is nearer. *)
Lemma closest_candidates w n os i o :
  closest w (candidates w n os) = Some (i, o) →
  os !! i = Some o ∧ candidate w n o = true
  ∧ ∀ j o', os !! j = Some o' → candidate w n o' = true → range w o ≤ range w o'.
Proof.
  intros [Hin Hmin]%closest_Some. apply candidates_spec in Hin as [Hl Hc].
  repeat split; try done. intros j o' Hj Hc'.
  apply (Hmin (j, o')). by apply candidates_spec.
Qed.

Lemma candidates_nil w n os o :
  candidates w n os = [] → o ∈ os → candidate w n o = false.
Proof.
  intros Hnil [j Hj]%list_elem_of_lookup.
  destruct (candidate w n o) eqn:Hc; [|done].
  assert (Hin : (j, o) ∈ candidates w n os) by by apply candidates_spec.
  rewrite Hnil in Hin. by apply elem_of_nil in Hin.
Qed.








Lemma push_priorities g o :
  objectivePriorities (push g o) = objectivePriorities g.
Proof. done. Qed.

(** Registration leaves the priority list as the constructor set it. *)
Lemma registerObjectives_priorities g sets :
  objectivePriorities (registerObjectives g sets) = objectivePriorities g.
Proof.
  unfold registerObjectives. generalize (concat sets). intros os. revert g.
  induction os as [|o os IH]; intros g; simpl; [done|]. by rewrite IH.
Qed.

Lemma registered_priorities g log :
  objectivePriorities (Overlord.registered g log) = objectivePriorities g.
Proof.
  unfold Overlord.registered. revert g.
  induction log as [|c log IH]; intros g; simpl; [done|].
  rewrite IH. destruct c; try done. apply registerObjectives_priorities.
Qed.

(** The group of a fresh Overlord is configured with its priority list. *)
Lemma new_priorities c :
  objectivePriorities (Overlord.objectiveGroup (Overlord.new c)) = Overlord.priorities
  ∧ Overlord.objectivePriorities (Overlord.new c) = Overlord.priorities.
Proof. done. Qed.

End ObjectiveGroupFacts.

(** ** Claims on task assignment *)

Section Assignment.
Import ObjectiveGroup Claims.
Context `{!Ambient}.


(** C4.  When a query gives a creep a task, the task comes from a bucket
    of the priority list such that no earlier bucket of the list holds an
    unclaimed objective compatible with the creep; the objective chosen is
    itself unclaimed and compatible, and no such objective of its bucket
    is nearer.  The order of the list is left as it was. *)
Theorem C4_highest_bucket_first (ov : Overlord.t) (creep : Creep) (tk : Task) :
  (offer (Overlord.objectiveGroup ov) creep).2 = Some tk →
  let g := Overlord.objectiveGroup ov in
  let g' := (offer g creep).1 in
  Overlord.assignTask ov creep = (Overlord.setGroup ov g', setTask creep tk)
  ∧ objectivePriorities g' = objectivePriorities g
  ∧ ∃ (k i : nat) (n : string) (o : Objective),
      objectivePriorities g !! k = Some n
      ∧ bucket g n !! i = Some o
      ∧ tk = taskFor creep n o
      ∧ unclaimed o = true ∧ compatible creep n o = true
      ∧ (∀ (j : nat) (m : string) (o' : Objective),
           (j < k)%nat → objectivePriorities g !! j = Some m →
           o' ∈ bucket g m →
           ¬ (unclaimed o' = true ∧ compatible creep m o' = true))
      ∧ (∀ o', o' ∈ bucket g n →
           unclaimed o' = true → compatible creep n o' = true →
           range creep o ≤ range creep o').
Proof.
  intros Htk g g'. subst g g'. set (g := Overlord.objectiveGroup ov) in *.
  destruct (offer g creep) as [g1 otk] eqn:Ho. simpl in Htk. subst otk.
  split.
  { unfold Overlord.assignTask, assignTask. fold g. by rewrite Ho. }
  pose proof Ho as (pre & n & post & i & o & Hnames & Hpre & Hc & -> & ->)%assignFrom_Some.
  split; [done|].
  apply closest_candidates in Hc as (Hl & Hcand & Hmin).
  apply andb_prop in Hcand as [Hun Hcomp].
  exists (length pre), i, n, o.
  split; [by rewrite Hnames, list_lookup_middle|].
  do 4 (split; [done|]). split.
  - intros j m o' Hj Hm Ho' [Hun' Hcomp'].
    rewrite Hnames, lookup_app_l in Hm by done.
    apply list_elem_of_lookup_2 in Hm.
    pose proof (candidates_nil _ _ _ _ (Hpre m Hm) Ho') as Hno.
    unfold candidate in Hno. by rewrite Hun', Hcomp' in Hno.
  - intros o' [j Hj]%list_elem_of_lookup Hun' Hcomp'.
    apply (Hmin j o' Hj). unfold candidate. by rewrite Hun', Hcomp'.
Qed.
End Assignment.

Section AssignmentExamples.
Import ObjectiveGroup Claims Sample.


Lemma C4_highest_bucket_first_witness :
  Overlord.assignTask afterInit bob
  = (Overlord.setGroup afterInit (offer (Overlord.objectiveGroup afterInit) bob).1,
     setTask bob (mkTask "bob" "repair" tower 7)).
Proof.
  refine (proj1 (C4_highest_bucket_first afterInit bob (mkTask "bob" "repair" tower 7) _)).
  vm_compute. reflexivity.
Defined.
End AssignmentExamples.

(** ** Calls and completion of the combinators *)

Section EffFacts.
Lemma completes_ret {A} (a : A) : completes (ret a).
Proof. by exists a. Qed.

Lemma completes_call c : completes (call c).
Proof. by exists tt. Qed.

Lemma completes_when b m : completes m → completes (when b m).
Proof. destruct b; [done|]. intros _. apply completes_ret. Qed.

Lemma completes_bind {A B} (m : Eff A) (k : A → Eff B) :
  completes m → (∀ a, completes (k a)) → completes (bind m k).
Proof.
  destruct m as [log [a|e]]; intros [a' Ha] Hk; simpl in *; [|done].
  destruct (Hk a) as [b Hb]. destruct (k a) as [log' r]. simpl in *. by exists b.
Qed.

Lemma completes_forEach {A} (l : list A) (body : A → Eff unit) :
  (∀ a, a ∈ l → completes (body a)) → completes (forEach l body).
Proof.
  induction l as [|a l IH]; intros Hb; simpl; [apply completes_ret|].
  apply completes_bind.
  - apply Hb, list_elem_of_here.
  - intros _. apply IH. intros b Hin. by apply Hb, list_elem_of_further.
Qed.

Lemma calls_bind {A B} (m : Eff A) (k : A → Eff B) :
  calls (bind m k)
  = calls m ++ match m.2 with Done a => calls (k a) | Thrown _ => [] end.
Proof.
  destruct m as [log [a|e]]; simpl.
  - by destruct (k a).
  - by rewrite app_nil_r.
Qed.

Lemma calls_seq {A} (m : Eff unit) (k : Eff A) :
  completes m → calls (m ;; k) = calls m ++ calls k.
Proof. intros [[] Ha]. by rewrite calls_bind, Ha. Qed.

Lemma calls_forEach {A} (l : list A) (body : A → Eff unit) :
  (∀ a, a ∈ l → completes (body a)) →
  calls (forEach l body) = concat ((λ a, calls (body a)) <$> l).
Proof.
  induction l as [|a l IH]; intros Hb; simpl; [done|].
  rewrite calls_seq by apply Hb, list_elem_of_here.
  rewrite IH; [done|]. intros b Hin. by apply Hb, list_elem_of_further.
Qed.

Lemma calls_when b m : calls (when b m) = if b then calls m else [].
Proof. by destruct b. Qed.
End EffFacts.

(** ** Facts on the sub-steps of the Overlord *)

Section OverlordFacts.
Import Claims.
Variable T : Z.     (* EMERGENCY_ENERGY_THRESHOLD *)

Lemma filter_nil_iff {A} (f : A → bool) (l : list A) :
  List.filter f l = [] ↔ ∀ a, a ∈ l → f a = false.
Proof.
  induction l as [|b l IH]; simpl.
  - split; [|done]. intros _ a Ha. by apply elem_of_nil in Ha.
  - destruct (f b) eqn:Hb.
    + split; [done|]. intros Hall.
      specialize (Hall b (list_elem_of_here _ _)). congruence.
    + rewrite IH. split.
      * intros Hall a [->|Ha]%elem_of_cons; [done|by apply Hall].
      * intros Hall a Ha. by apply Hall, list_elem_of_further.
Qed.

Lemma filter_length_pos {A} (f : A → bool) (l : list A) :
  (0 <? Z.of_nat (length (List.filter f l))) = true ↔ ∃ a, a ∈ l ∧ f a = true.
Proof.
  rewrite Z.ltb_lt. split.
  - intros Hlen. destruct (List.filter f l) as [|a l'] eqn:Hf; [simpl in Hlen; lia|].
    assert (Hin : In a (List.filter f l)) by (rewrite Hf; by left).
    apply filter_In in Hin as [Hin Hfa]. exists a. by rewrite list_elem_of_In.
  - intros (a & Ha & Hfa).
    assert (Hin : In a (List.filter f l)) by (apply filter_In; by rewrite <-list_elem_of_In).
    destruct (List.filter f l); [done|]. simpl. lia.
Qed.

Lemma guardFlags_none r :
  bool_decide (length (List.filter DirectiveGuard.filter (flags r)) = 0%nat) = true
  ↔ unguarded r.
Proof.
  rewrite bool_decide_eq_true, length_zero_iff_nil, filter_nil_iff.
  unfold unguarded, DirectiveGuard.filter.
  split; intros Hall f Hf; specialize (Hall f Hf).
  - by apply bool_decide_eq_false in Hall.
  - by apply bool_decide_eq_false.
Qed.

Lemma completes_placeGuard r : completes (Overlord.placeGuard r).
Proof.
  unfold Overlord.placeGuard. destruct (hostiles r); [apply completes_ret|].
  apply completes_when, completes_call.
Qed.

(** What one round of the guard loop does. *)
Lemma calls_placeGuard r :
  calls (Overlord.placeGuard r)
  = match hostiles r with
    | h :: _ =>
        if bool_decide (length (List.filter DirectiveGuard.filter (flags r)) = 0%nat)
        then [CreateDirective GuardMarker (cpos h)] else []
    | [] => []
    end.
Proof.
  unfold Overlord.placeGuard. destruct (hostiles r); [done|].
  by rewrite calls_when.
Qed.

Lemma completes_placeEmergency ov : completes (Overlord.placeEmergency T ov).
Proof.
  unfold Overlord.placeEmergency.
  destruct (isIncubating (Overlord.colony ov)), (hatchery (Overlord.colony ov));
    try apply completes_ret; apply completes_when, completes_call.
Qed.

Lemma completes_guardLoop ov :
  completes (forEach (Overlord.roomsToCheck ov) Overlord.placeGuard).
Proof. apply completes_forEach. intros r _. apply completes_placeGuard. Qed.

Lemma completes_placeDirectives ov : completes (Overlord.placeDirectives T ov).
Proof.
  apply completes_bind; [apply completes_guardLoop|].
  intros _. apply completes_placeEmergency.
Qed.

Lemma calls_placeDirectives ov :
  calls (Overlord.placeDirectives T ov)
  = concat ((λ r, calls (Overlord.placeGuard r)) <$> Overlord.roomsToCheck ov)
    ++ calls (Overlord.placeEmergency T ov).
Proof.
  unfold Overlord.placeDirectives.
  rewrite calls_seq by apply completes_guardLoop.
  rewrite calls_forEach; [done|]. intros r _. apply completes_placeGuard.
Qed.

Lemma calls_placeEmergency_kind ov c :
  c ∈ calls (Overlord.placeEmergency T ov) → isCreate EmergencyMarker c = true.
Proof.
  unfold Overlord.placeEmergency.
  destruct (isIncubating (Overlord.colony ov)), (hatchery (Overlord.colony ov)); simpl;
    try (intros Hc; by apply elem_of_nil in Hc).
  rewrite calls_when. case_match; [|intros Hc; by apply elem_of_nil in Hc].
  intros ->%list_elem_of_singleton. done.
Qed.

Lemma calls_placeGuard_kind r c :
  c ∈ calls (Overlord.placeGuard r) → isCreate GuardMarker c = true.
Proof.
  rewrite calls_placeGuard. destruct (hostiles r); [intros Hc; by apply elem_of_nil in Hc|].
  case_match; [|intros Hc; by apply elem_of_nil in Hc].
  intros ->%list_elem_of_singleton. done.
Qed.
End OverlordFacts.

(** ** Claims on directive placement *)

Section Placement.
Import Claims.
Variable T : Z.     (* EMERGENCY_ENERGY_THRESHOLD *)

Lemma emergencyFlags_none ov :
  bool_decide (length (Overlord.emergencyFlags ov) = 0%nat) = true ↔ ¬ marked ov.
Proof.
  rewrite bool_decide_eq_true, length_zero_iff_nil.
  unfold Overlord.emergencyFlags. rewrite filter_nil_iff.
  unfold marked, DirectiveEmergency.filter. split.
  - intros Hall (f & Hf & Hm). specialize (Hall f Hf).
    by apply bool_decide_eq_false in Hall.
  - intros Hno f Hf. apply bool_decide_eq_false. intros Hm. apply Hno. by exists f.
Qed.

Lemma guard_calls_not_emergency (rs : list Room) :
  List.filter (isCreate EmergencyMarker)
    (concat ((λ r, calls (Overlord.placeGuard r)) <$> rs)) = [].
Proof.
  apply filter_nil_iff. intros c (l & Hl & Hc)%list_elem_of_In%in_concat.
  apply list_elem_of_In, list_elem_of_fmap in Hl as (r & -> & _).
  apply list_elem_of_In in Hc.
  apply calls_placeGuard_kind in Hc. by destruct c as [| | | |[]|].
Qed.

Lemma emergencyCreates_placeEmergency ov :
  emergencyCreates T ov = calls (Overlord.placeEmergency T ov).
Proof.
  unfold emergencyCreates. rewrite calls_placeDirectives, List.filter_app.
  rewrite guard_calls_not_emergency. simpl.
  apply forallb_filter_id, forallb_forall. intros c Hc.
  by apply (calls_placeEmergency_kind T ov), list_elem_of_In.
Qed.

Lemma crisis_flags ov :
  crisis T ov →
  Overlord.roomHasEnergy T ov = false
  ∧ Overlord.roomHasEnergySupply T ov = false
  ∧ Overlord.roomHasMiners ov = false.
Proof.
  intros (_ & _ & Hen & Hst & Hmi). repeat split.
  - unfold Overlord.roomHasEnergy. apply Z.leb_gt. done.
  - unfold Overlord.roomHasEnergySupply.
    destruct (storage (Overlord.room ov)) as [st|] eqn:Hs; [|done].
    destruct (Z.ltb_spec T (energy st)) as [Hlt|]; [|done].
    by rewrite (Hst st eq_refl Hlt).
  - unfold Overlord.roomHasMiners. by rewrite Hmi.
Qed.

Lemma placeEmergency_crisis ov h :
  crisis T ov → hatchery (Overlord.colony ov) = Some h →
  calls (Overlord.placeEmergency T ov)
  = if bool_decide (length (Overlord.emergencyFlags ov) = 0%nat)
    then [CreateDirective EmergencyMarker (hpos h)] else [].
Proof.
  intros Hcr Hh. destruct (crisis_flags ov Hcr) as (He & Hs & Hm).
  destruct Hcr as (Hinc & _).
  unfold Overlord.placeEmergency. rewrite Hinc, Hh, He, Hs, Hm. simpl.
  by rewrite calls_when.
Qed.

(** With a marker in the room nothing is created, whatever the state of
    the colony. *)
Lemma emergencyCreates_marked ov : marked ov → emergencyCreates T ov = [].
Proof.
  intros Hm. rewrite emergencyCreates_placeEmergency.
  unfold Overlord.placeEmergency.
  destruct (isIncubating (Overlord.colony ov)), (hatchery (Overlord.colony ov)); try done.
  rewrite calls_when.
  destruct (bool_decide (length (Overlord.emergencyFlags ov) = 0%nat)) eqn:Hb.
  - by apply emergencyFlags_none in Hb.
  - by rewrite andb_false_r.
Qed.

Lemma emergencyCreates_unmarked ov h :
  crisis T ov → hatchery (Overlord.colony ov) = Some h → ¬ marked ov →
  emergencyCreates T ov = [CreateDirective EmergencyMarker (hpos h)].
Proof.
  intros Hcr Hh Hm. rewrite emergencyCreates_placeEmergency.
  rewrite (placeEmergency_crisis ov h Hcr Hh).
  apply emergencyFlags_none in Hm. by rewrite Hm.
Qed.

Lemma marked_kept ov ov' : markersKept T ov ov' → marked ov → marked ov'.
Proof. intros Hkept (f & Hf & Hm). exists f. split; [apply Hkept; by left|done]. Qed.

(** The directive created in a crisis leaves its marker for the next
    tick. *)
Lemma marked_next ov ov' h :
  crisis T ov → hatcheryAtHome ov → hatchery (Overlord.colony ov) = Some h →
  markersKept T ov ov' → marked ov'.
Proof.
  intros Hcr Hhome Hh Hkept.
  destruct (Overlord.emergencyFlags ov) as [|f fs] eqn:Hflags.
  - exists (mkFlag (hpos h) EmergencyMarker). split; [|done].
    apply Hkept. right. split; [|by apply Hhome].
    rewrite calls_placeDirectives. unfold placedMarkers.
    rewrite omap_app. apply elem_of_app. right.
    rewrite (placeEmergency_crisis ov h Hcr Hh), Hflags. simpl.
    apply list_elem_of_here.
  - apply (marked_kept ov ov' Hkept).
    assert (Hin : In f (Overlord.emergencyFlags ov)) by (rewrite Hflags; by left).
    apply filter_In in Hin as [Hin Hm].
    exists f. split; [by apply list_elem_of_In|].
    by apply bool_decide_eq_true in Hm.
Qed.

(** Once the marker is there, the ticks that follow create nothing. *)
Lemma marked_run_creates_nothing later : ∀ ov,
  followedBy T ov later → marked ov →
  concat (emergencyCreates T <$> ov :: later) = [].
Proof.
  induction later as [|ov' later IH]; intros ov Hrun Hm; simpl.
  - by rewrite (emergencyCreates_marked ov Hm).
  - rewrite (emergencyCreates_marked ov Hm). simpl.
    destruct Hrun as [Hkept Hrun]. apply IH; [done|].
    by apply (marked_kept ov ov').
Qed.

(** C2.  Take a tick in which the colony is not incubating, has its
    hatchery, spawn energy is below the emergency threshold, no storage
    above the threshold has a supplier to carry from it, and no miner is
    present; take also any number of ticks that follow, the markers of the
    room staying from one tick to the next.  If no emergency marker stands
    in the room at the first tick, the emergency directive is created then,
    at the hatchery, and it is the only one created over all these ticks; if
    a marker stands there, none is created in any of them. *)
Theorem C2_emergency_created_once (ov : Overlord.t) (later : list Overlord.t)
    (h : Hatchery) :
  hatchery (Overlord.colony ov) = Some h →
  crisis T ov → hatcheryAtHome ov →
  followedBy T ov later →
  (¬ marked ov →
     emergencyCreates T ov = [CreateDirective EmergencyMarker (hpos h)]
     ∧ concat (emergencyCreates T <$> ov :: later)
       = [CreateDirective EmergencyMarker (hpos h)])
  ∧ (marked ov → concat (emergencyCreates T <$> ov :: later) = []).
Proof.
  intros Hh Hcr Hhome Hrun. split.
  - intros Hno. pose proof (emergencyCreates_unmarked ov h Hcr Hh Hno) as Hfirst.
    split; [done|]. simpl. rewrite Hfirst. simpl. f_equal.
    destruct later as [|ov' later]; [done|]. destruct Hrun as [Hkept Hrun].
    apply marked_run_creates_nothing; [done|].
    by apply (marked_next ov ov' h).
  - by apply marked_run_creates_nothing.
Qed.

(** C5.  The rooms checked are the outposts of the colony followed by the
    rooms of the colonies it incubates.  For each of them the guard round
    creates a guard directive at the position of a hostile of the room
    exactly when the room holds a hostile and none of its markers is a
    guard marker, and creates nothing otherwise; the guard directives that
    [placeDirectives] creates are those of these rounds. *)
Theorem C5_guard_iff_hostile_unguarded (ov : Overlord.t) :
  Overlord.roomsToCheck ov
  = outposts (Overlord.colony ov) ++ concat (incubatingColonies (Overlord.colony ov))
  ∧ (∀ r, r ∈ Overlord.roomsToCheck ov →
       ((∃ h, h ∈ hostiles r
              ∧ calls (Overlord.placeGuard r) = [CreateDirective GuardMarker (cpos h)])
        ↔ hostiles r ≠ [] ∧ unguarded r)
       ∧ (¬ (hostiles r ≠ [] ∧ unguarded r) → calls (Overlord.placeGuard r) = []))
  ∧ (∀ p, CreateDirective GuardMarker p ∈ calls (Overlord.placeDirectives T ov)
          ↔ ∃ r h, r ∈ Overlord.roomsToCheck ov
                   ∧ hostiles r !! 0%nat = Some h ∧ cpos h = p ∧ unguarded r).
Proof.
  split; [done|]. split.
  - intros r _. rewrite calls_placeGuard.
    destruct (hostiles r) as [|h hs] eqn:Hh.
    + split; [|done]. split; [|by intros [? _]].
      intros (h & Hin & _). by apply elem_of_nil in Hin.
    + destruct (bool_decide _) eqn:Hg.
      * apply guardFlags_none in Hg. split.
        -- split; [done|]. intros _. exists h. split; [apply list_elem_of_here|done].
        -- intros Hno. destruct Hno. done.
      * split; [|done]. split; [by intros (? & _ & ?)|].
        intros [_ Hun]. apply guardFlags_none in Hun. congruence.
  - intros p. rewrite calls_placeDirectives, elem_of_app. split.
    + intros [Hin|Hin].
      * apply list_elem_of_In, in_concat in Hin as (l & Hl & Hc).
        apply list_elem_of_In, list_elem_of_fmap in Hl as (r & -> & Hr).
        rewrite calls_placeGuard in Hc.
        destruct (hostiles r) as [|h hs] eqn:Hh; [done|].
        destruct (bool_decide _) eqn:Hg; [|done].
        destruct Hc as [[= <-]|[]]. exists r, h.
        rewrite Hh. by apply guardFlags_none in Hg.
      * by apply calls_placeEmergency_kind in Hin.
    + intros (r & h & Hr & Hh & <- & Hun). left.
      apply list_elem_of_In, in_concat. exists (calls (Overlord.placeGuard r)).
      split.
      * apply list_elem_of_In, list_elem_of_fmap. by exists r.
      * rewrite calls_placeGuard. destruct (hostiles r) as [|h' hs]; [done|].
        apply guardFlags_none in Hun. rewrite Hun. left. by injection Hh as ->.
Qed.
End Placement.

(** ** The product with 0.7 *)

Section Binary64Facts.
Import Binary64.

(** What rounding does to a number with more than 53 bits: it moves to one
    of the two neighbouring multiples of [2^e], and stays when the number
    is such a multiple. *)
Lemma round_neighbours n :
  2 ^ 53 ≤ n →
  ∃ e q r, 1 ≤ e ∧ e = Z.log2 n - 52 ∧ n = q * 2 ^ e + r ∧ 0 ≤ r < 2 ^ e
           ∧ 2 ^ e * 2 ^ 52 ≤ n
           ∧ (round n = q * 2 ^ e ∨ (0 < r ∧ round n = (q + 1) * 2 ^ e)).
Proof.
  intros Hn.
  assert (Hlog : 53 ≤ Z.log2 n) by (apply Z.log2_le_pow2; lia).
  set (e := Z.log2 n - 52).
  assert (Hp : 0 < 2 ^ e) by (apply Z.pow_pos_nonneg; lia).
  exists e, (n / 2 ^ e), (n mod 2 ^ e).
  split; [lia|]. split; [done|].
  split; [rewrite Z.mul_comm; apply Z_div_mod_eq_full|].
  split; [apply Z.mod_pos_bound; lia|].
  split.
  { rewrite <-Z.pow_add_r by lia. replace (e + 52) with (Z.log2 n) by lia.
    apply Z.log2_spec. lia. }
  unfold round. fold e. destruct (Z.leb_spec e 0) as [|_]; [lia|].
  cbv zeta.
  destruct ((2 ^ (e - 1) <? n mod 2 ^ e)
            || ((n mod 2 ^ e =? 2 ^ (e - 1)) && Z.odd (n / 2 ^ e))) eqn:Hup; [|by left].
  right. split; [|done].
  assert (0 < 2 ^ (e - 1)) by (apply Z.pow_pos_nonneg; lia).
  apply orb_prop in Hup as [Hup|Hup].
  - apply Z.ltb_lt in Hup. lia.
  - apply andb_prop in Hup as [Hup _]. apply Z.eqb_eq in Hup. lia.
Qed.

(** On whole numbers below [2^48], comparing with [0.7 * v] computed in
    binary64 is comparing tenths exactly. *)
Lemma lt_times07_exact h v :
  0 ≤ h → 0 ≤ v < 2 ^ 48 →
  lt_times07 h v = (10 * h <? 7 * v).
Proof.
  intros Hh [Hv0 Hv]. unfold lt_times07, times07.
  assert (Hten : 10 * (mantissa07 * v) = 7 * 2 ^ 53 * v - 4 * v).
  { unfold mantissa07. change (2 ^ 53) with 9007199254740992. clear. lia. }
  generalize dependent (mantissa07 * v). intros n Hten.
  change (2 ^ 48) with 281474976710656 in Hv.
  destruct (Z_lt_le_dec n (2 ^ 53)) as [Hsmall|Hbig].
  - assert (Hr : round n = n).
    { unfold round. destruct (Z.leb_spec (Z.log2 n - 52) 0) as [|He]; [done|].
      assert (53 ≤ Z.log2 n) by lia.
      assert (0 < n).
      { destruct (Z_lt_le_dec 0 n) as [|Hle]; [done|].
        pose proof (Z.log2_nonpos n Hle). lia. }
      assert (2 ^ 53 ≤ n); [|lia].
      etrans; [|apply Z.log2_spec; lia]. apply Z.pow_le_mono_r; lia. }
    rewrite Hr. change (2 ^ 53) with 9007199254740992 in *.
    destruct (Z.ltb_spec (10 * h) (7 * v)); [apply Z.ltb_lt|apply Z.ltb_ge]; lia.
  - destruct (round_neighbours n Hbig) as (e & q & r & He & Hedef & Hn & Hr & Hlow & Hround).
    assert (Hp : 0 < 2 ^ e) by (apply Z.pow_pos_nonneg; lia).
    assert (He53 : e ≤ 53).
    { assert (Z.log2 n < 105); [|lia]. apply Z.log2_lt_pow2; [lia|].
      change (2 ^ 105) with (2 ^ 53 * 2 ^ 52). change (2 ^ 53) with 9007199254740992 in *.
      change (2 ^ 52) with 4503599627370496. lia. }
    assert (Hsplit : 2 ^ 53 = 2 ^ (53 - e) * 2 ^ e).
    { rewrite <-Z.pow_add_r by lia. f_equal. lia. }
    assert (Hk : 0 < 2 ^ (53 - e)) by (apply Z.pow_pos_nonneg; lia).
    set (p := 2 ^ e) in *. set (k := 2 ^ (53 - e)) in *.
    change (2 ^ 52) with 4503599627370496 in Hlow.
    destruct (Z.ltb_spec (10 * h) (7 * v)) as [Hlt|Hge].
    + apply Z.ltb_lt.
      assert (q * p ≤ round n) by (destruct Hround as [->|[_ ->]]; lia).
      change (2 ^ 53) with 9007199254740992 in Hten |- *. lia.
    + apply Z.ltb_ge.
      assert (Hhn : n ≤ h * 2 ^ 53).
      { change (2 ^ 53) with 9007199254740992 in Hten |- *. lia. }
      destruct Hround as [->|[Hrpos ->]]; [lia|].
      rewrite Hsplit, Z.mul_assoc in Hhn |- *.
      apply Z.mul_le_mono_nonneg_r; [lia|].
      assert (q * p < h * k * p) by lia.
      assert (q < h * k); [|lia]. apply (Z.mul_lt_mono_pos_r p); lia.
Qed.
End Binary64Facts.

(** ** Claims on the two phases and their sub-steps *)

Section Phases.
Import Claims.
Variable T : Z.     (* EMERGENCY_ENERGY_THRESHOLD *)

Lemma completes_hooks (ds : list string) (hook : string → Call) :
  completes (forEach ds (λ d, call (hook d))).
Proof. apply completes_forEach. intros d _. apply completes_call. Qed.

Lemma calls_hooks (ds : list string) (hook : string → Call) :
  calls (forEach ds (λ d, call (hook d))) = hook <$> ds.
Proof.
  induction ds as [|d ds IH]; [done|]. cbn [forEach].
  rewrite calls_seq by apply completes_call. simpl. by rewrite IH.
Qed.

Lemma completes_roomLoop ov :
  completes (forEach (rooms (Overlord.colony ov))
               (λ r, call (RegisterObjectives (Overlord.roomObjectives ov r)))).
Proof. apply completes_forEach. intros r _. apply completes_call. Qed.

Lemma completes_registerObjectives ov : completes (Overlord.registerObjectives ov).
Proof.
  unfold Overlord.registerObjectives.
  apply completes_bind; [apply completes_call|]. intros _. apply completes_roomLoop.
Qed.

(** The calls of [registerObjectives]: one registration for the hauling
    requests, then one for each room of the colony. *)
Lemma calls_registerObjectives ov :
  ∃ sets, calls (Overlord.registerObjectives ov)
          = RegisterObjectives sets
            :: ((λ r, RegisterObjectives (Overlord.roomObjectives ov r))
                  <$> rooms (Overlord.colony ov)).
Proof.
  unfold Overlord.registerObjectives. eexists.
  rewrite calls_seq by apply completes_call. simpl. f_equal.
  induction (rooms (Overlord.colony ov)) as [|r rs IH]; [done|]. cbn [forEach].
  rewrite calls_seq by apply completes_call. simpl. by rewrite IH.
Qed.

Lemma completes_registerCreepRequests ov : completes (Overlord.registerCreepRequests ov).
Proof.
  unfold Overlord.registerCreepRequests.
  destruct (hatchery (Overlord.colony ov)); [|apply completes_ret].
  apply completes_bind.
  - destruct (terminal (Overlord.room ov)); [|apply completes_ret].
    do 2 apply completes_when. apply completes_call.
  - intros _. apply completes_when, completes_call.
Qed.

Lemma calls_init ov :
  calls (Overlord.init ov)
  = (DirectiveInit <$> Overlord.directives ov)
    ++ calls (Overlord.registerObjectives ov)
    ++ calls (Overlord.registerCreepRequests ov).
Proof.
  unfold Overlord.init.
  rewrite calls_seq by apply completes_hooks.
  rewrite calls_seq by apply completes_registerObjectives.
  by rewrite calls_hooks.
Qed.

Lemma calls_run ov :
  calls (Overlord.run T ov)
  = (DirectiveRun <$> Overlord.directives ov)
    ++ calls (Overlord.handleSafeMode ov ;; Overlord.placeDirectives T ov).
Proof.
  unfold Overlord.run. rewrite calls_seq by apply completes_hooks.
  by rewrite calls_hooks.
Qed.

Lemma completes_handleSafeMode ov :
  completes (Overlord.handleSafeMode ov)
  ↔ is_Some (controller (Overlord.room ov)) ∨ Overlord.safeModeTrigger ov = false.
Proof.
  unfold Overlord.handleSafeMode.
  destruct (Overlord.safeModeTrigger ov), (controller (Overlord.room ov)) as [ctl|]; simpl.
  - split; [intros _; left; by exists ctl|intros _; apply completes_call].
  - split; [by intros [[] ?]|]. intros [[? ?]|?]; done.
  - split; [by right|intros _; apply completes_ret].
  - split; [by right|intros _; apply completes_ret].
Qed.

(** Splitting a log in two parts orders the calls of the two parts. *)
Lemma precedes_app (P Q : Call → bool) (l1 l2 : list Call) :
  (∀ c, c ∈ l1 → Q c = false) → (∀ c, c ∈ l2 → P c = false) →
  precedes P Q (l1 ++ l2).
Proof.
  intros H1 H2 i j c d Hi Hj HP HQ.
  destruct (decide (i < length l1)%nat) as [Hlt|Hge].
  - destruct (decide (j < length l1)%nat) as [Hjlt|Hjge]; [|lia].
    rewrite lookup_app_l in Hj by done.
    apply list_elem_of_lookup_2, H1 in Hj. congruence.
  - rewrite lookup_app_r in Hi by lia.
    apply list_elem_of_lookup_2, H2 in Hi. congruence.
Qed.
Lemma workerRequests_registerCreepRequests ov :
  List.filter isWorkerRequest (calls (Overlord.registerCreepRequests ov))
  = match hatchery (Overlord.colony ov) with
    | Some _ =>
        if (Z.of_nat (length (getCreepsByRole (Overlord.colony ov) "worker"))
              <? Overlord.numWorkersNeeded ov)
           && (0 <? Z.of_nat (length (storageUnits (Overlord.room ov))))
        then [Enqueue (Overlord.WorkerSetup_create (controller (Overlord.room ov))
                         (Overlord.workerPatternRepetitionLimit (Overlord.settings ov)))]
        else []
    | None => []
    end.
Proof.
  unfold Overlord.registerCreepRequests.
  destruct (hatchery (Overlord.colony ov)); [|done].
  rewrite calls_bind, List.filter_app.
  assert (Hsup : ∀ m : Eff unit,
            m = match terminal (Overlord.room ov) with
                | Some term =>
                    when (0 <? Z.of_nat (length (labs (Overlord.room ov))))
                      (when (Z.of_nat (length (getCreepsByRole (Overlord.colony ov)
                                                 "mineralSupplier")) <? 1)
                         (call (Enqueue (Overlord.MineralSupplierSetup_create
                                           (Some (sobj term)) (Finite 1)))))
                | None => ret tt
                end →
            List.filter isWorkerRequest (calls m) = [] ∧ m.2 = Done tt).
  { intros m ->. destruct (terminal (Overlord.room ov)); [|done].
    destruct (0 <? _); [|done]. destruct (_ <? 1); done. }
  destruct (Hsup _ eq_refl) as [-> ->]. simpl.
  rewrite calls_when. by destruct (_ && _).
Qed.

Lemma workerRequests_others (l : list Call) :
  (∀ c, c ∈ l → isDirectiveInit c = true ∨ (∃ sets, c = RegisterObjectives sets)) →
  List.filter isWorkerRequest l = [].
Proof.
  intros Hl. apply filter_nil_iff. intros c Hc.
  destruct (Hl c Hc) as [Hi|[sets ->]]; [|done]. by destruct c.
Qed.

(** C7.  In the init phase a request for a worker is put on the queue of the
    hatchery when, and only when, the hatchery exists, the room has at
    least one storage unit and the number of workers is below the number
    needed, which is 3 when the colony has an incubator and 1 otherwise;
    the request is then made once. *)
Theorem C7_worker_request_iff (ov : Overlord.t) :
  let needed := match incubator (Overlord.colony ov) with Some _ => 3 | None => 1 end in
  let wanted := is_Some (hatchery (Overlord.colony ov))
                ∧ storageUnits (Overlord.room ov) ≠ []
                ∧ Z.of_nat (length (getCreepsByRole (Overlord.colony ov) "worker")) < needed in
  ((∃ c, c ∈ calls (Overlord.init ov) ∧ isWorkerRequest c = true) ↔ wanted)
  ∧ (wanted →
       List.filter isWorkerRequest (calls (Overlord.init ov))
       = [Enqueue (mkProto "worker" (controller (Overlord.room ov))
                     (Overlord.workerPatternRepetitionLimit (Overlord.settings ov)))]).
Proof.
  intros needed wanted.
  assert (Hfilter :
    List.filter isWorkerRequest (calls (Overlord.init ov))
    = List.filter isWorkerRequest (calls (Overlord.registerCreepRequests ov))).
  { rewrite calls_init, !List.filter_app.
    destruct (calls_registerObjectives ov) as [sets Hreg].
    rewrite (workerRequests_others (DirectiveInit <$> _)),
            (workerRequests_others (calls (Overlord.registerObjectives ov))); [done| |].
    - rewrite Hreg. intros c [->|Hc]%elem_of_cons; right; [by eexists|].
      apply list_elem_of_fmap in Hc as (r & -> & _). by eexists.
    - intros c (d & -> & _)%list_elem_of_fmap. by left. }
  rewrite workerRequests_registerCreepRequests in Hfilter.
  assert (Hwanted : wanted ↔
    ∃ h, hatchery (Overlord.colony ov) = Some h
         ∧ (Z.of_nat (length (getCreepsByRole (Overlord.colony ov) "worker"))
              <? Overlord.numWorkersNeeded ov)
            && (0 <? Z.of_nat (length (storageUnits (Overlord.room ov)))) = true).
  { unfold wanted, needed, Overlord.numWorkersNeeded.
    setoid_rewrite andb_true_iff. setoid_rewrite Z.ltb_lt.
    assert (storageUnits (Overlord.room ov) ≠ []
            ↔ 0 < Z.of_nat (length (storageUnits (Overlord.room ov)))) as ->.
    { destruct (storageUnits (Overlord.room ov)); simpl; split; (done || lia). }
    split.
    - intros ([h Hh] & ? & ?). by exists h.
    - intros (h & Hh & ? & ?). split; [by exists h|done]. }
  split.
  - rewrite Hwanted. split.
    + intros (c & Hc & Hw).
      assert (Hin : In c (List.filter isWorkerRequest (calls (Overlord.init ov)))).
      { apply filter_In. split; [by apply list_elem_of_In|done]. }
      rewrite Hfilter in Hin.
      destruct (hatchery (Overlord.colony ov)) as [h|]; [|done].
      exists h. split; [done|]. by destruct (_ && _).
    + intros (h & Hh & Hb). rewrite Hh, Hb in Hfilter.
      eexists. rewrite list_elem_of_In.
      apply (filter_In isWorkerRequest). rewrite Hfilter. by left.
  - intros (h & Hh & Hb)%Hwanted. by rewrite Hfilter, Hh, Hb.
Qed.
Lemma safeModeTrigger_iff ov :
  Overlord.safeModeTrigger ov = true
  ↔ (∃ b, b ∈ barriers (Overlord.room ov) ∧ hits b < 5000)
    ∧ (∃ c, c ∈ hostiles (Overlord.room ov) ∧ username c ≠ "Invader")
    ∧ incubator (Overlord.colony ov) = None.
Proof.
  unfold Overlord.safeModeTrigger, Overlord.criticalBarriers, Overlord.nonInvaderHostiles.
  rewrite !andb_true_iff, !filter_length_pos, bool_decide_eq_true.
  setoid_rewrite Z.ltb_lt. setoid_rewrite bool_decide_eq_true. tauto.
Qed.

Lemma placeDirectives_no_safeMode ov :
  List.filter isSafeMode (calls (Overlord.placeDirectives T ov)) = [].
Proof.
  apply filter_nil_iff. intros c. rewrite calls_placeDirectives, elem_of_app.
  intros [Hc|Hc].
  - apply list_elem_of_In, in_concat in Hc as (l & Hl & Hc).
    apply list_elem_of_In, list_elem_of_fmap in Hl as (r & -> & _).
    apply list_elem_of_In, calls_placeGuard_kind in Hc. by destruct c.
  - apply calls_placeEmergency_kind in Hc. by destruct c.
Qed.

(** C6.  In a colony room that has its controller, [handleSafeMode]
    activates safe mode when, and only when, the room holds a barrier with
    fewer than 5000 hits and a hostile creep not owned by the invader
    and the colony is not being incubated; otherwise it makes no call.  The
    same holds of the whole run phase of the tick. *)
Theorem C6_safe_mode_iff (ov : Overlord.t) (ctl : RoomObject) :
  controller (Overlord.room ov) = Some ctl →
  let breach := (∃ b, b ∈ barriers (Overlord.room ov) ∧ hits b < 5000)
                ∧ (∃ c, c ∈ hostiles (Overlord.room ov) ∧ username c ≠ "Invader")
                ∧ incubator (Overlord.colony ov) = None in
  (Overlord.handleSafeMode ov = ([ActivateSafeMode ctl], Done tt) ↔ breach)
  ∧ (¬ breach → Overlord.handleSafeMode ov = ([], Done tt))
  ∧ (List.filter isSafeMode (calls (Overlord.run T ov)) = [ActivateSafeMode ctl] ↔ breach)
  ∧ (¬ breach → List.filter isSafeMode (calls (Overlord.run T ov)) = []).
Proof.
  intros Hctl breach.
  assert (Hsafe : Overlord.handleSafeMode ov
                  = if Overlord.safeModeTrigger ov
                    then ([ActivateSafeMode ctl], Done tt) else ([], Done tt)).
  { unfold Overlord.handleSafeMode. rewrite Hctl. by destruct (Overlord.safeModeTrigger ov). }
  assert (Hrun : List.filter isSafeMode (calls (Overlord.run T ov))
                 = calls (Overlord.handleSafeMode ov)).
  { rewrite calls_run, List.filter_app.
    rewrite calls_seq by (apply completes_handleSafeMode; left; by exists ctl).
    rewrite List.filter_app, placeDirectives_no_safeMode, app_nil_r.
    replace (List.filter isSafeMode (DirectiveRun <$> Overlord.directives ov)) with (@nil Call).
    - rewrite Hsafe. by destruct (Overlord.safeModeTrigger ov).
    - symmetry. apply filter_nil_iff. by intros c (d & -> & _)%list_elem_of_fmap. }
  rewrite Hrun, Hsafe. unfold breach. rewrite <-safeModeTrigger_iff.
  destruct (Overlord.safeModeTrigger ov); simpl; repeat split; try done.
  all: intros Hno; by destruct Hno.
Qed.

(** C3, as amended.  [registerCreepRequests] and [placeDirectives] end
    normally in every state of the colony, and without a hatchery the
    former makes no call and the latter creates no emergency directive.
    [handleSafeMode] takes the controller of the colony room to be present:
    it ends normally exactly when the controller is there or the trigger
    does not hold. *)
Theorem C3_substeps_complete (ov : Overlord.t) :
  completes (Overlord.registerCreepRequests ov)
  ∧ completes (Overlord.placeDirectives T ov)
  ∧ (hatchery (Overlord.colony ov) = None →
       Overlord.registerCreepRequests ov = ([], Done tt)
       ∧ Overlord.placeEmergency T ov = ([], Done tt))
  ∧ (completes (Overlord.handleSafeMode ov)
     ↔ is_Some (controller (Overlord.room ov)) ∨ Overlord.safeModeTrigger ov = false).
Proof.
  split; [apply completes_registerCreepRequests|].
  split; [apply completes_placeDirectives|].
  split; [|apply completes_handleSafeMode].
  intros Hh. unfold Overlord.registerCreepRequests, Overlord.placeEmergency.
  rewrite Hh. by destruct (isIncubating (Overlord.colony ov)).
Qed.

Lemma run_tail_not_hook ov c :
  c ∈ calls (Overlord.handleSafeMode ov ;; Overlord.placeDirectives T ov) →
  isDirectiveRun c = false.
Proof.
  rewrite calls_bind, elem_of_app. intros [Hc|Hc].
  - unfold Overlord.handleSafeMode in Hc.
    destruct (Overlord.safeModeTrigger ov); [|by apply elem_of_nil in Hc].
    destruct (controller (Overlord.room ov)); [|by apply elem_of_nil in Hc].
    by apply list_elem_of_singleton in Hc as ->.
  - destruct ((Overlord.handleSafeMode ov).2); [|by apply elem_of_nil in Hc].
    rewrite calls_placeDirectives, elem_of_app in Hc. destruct Hc as [Hc|Hc].
    + apply list_elem_of_In, in_concat in Hc as (l & Hl & Hc).
      apply list_elem_of_In, list_elem_of_fmap in Hl as (r & -> & _).
      apply list_elem_of_In, calls_placeGuard_kind in Hc. by destruct c.
    + apply calls_placeEmergency_kind in Hc. by destruct c.
Qed.

(** C8, as amended.  In the init phase every directive init hook is called
    before every registration of objectives and every spawn request.  In
    the run phase every directive run hook is called before the safe-mode
    call and before every directive that the placement step creates. *)
Theorem C8_hooks_come_first (ov : Overlord.t) :
  precedes isDirectiveInit isRegistration (calls (Overlord.init ov))
  ∧ precedes isDirectiveRun (λ c, isSafeMode c || isPlacement c)
      (calls (Overlord.run T ov))
  ∧ calls (Overlord.init ov)
    = (DirectiveInit <$> Overlord.directives ov)
      ++ calls (Overlord.registerObjectives ov)
      ++ calls (Overlord.registerCreepRequests ov).
Proof.
  split; [|split; [|apply calls_init]].
  - rewrite calls_init. apply precedes_app.
    + by intros c (d & -> & _)%list_elem_of_fmap.
    + intros c [Hc|Hc]%elem_of_app.
      * destruct (calls_registerObjectives ov) as [sets Hreg]. rewrite Hreg in Hc.
        apply elem_of_cons in Hc as [->|Hc]; [done|].
        by apply list_elem_of_fmap in Hc as (r & -> & _).
      * unfold Overlord.registerCreepRequests in Hc.
        destruct (hatchery (Overlord.colony ov)); [|by apply elem_of_nil in Hc].
        rewrite calls_bind, elem_of_app in Hc. destruct Hc as [Hc|Hc].
        -- destruct (terminal (Overlord.room ov)); [|by apply elem_of_nil in Hc].
           rewrite !calls_when in Hc. repeat case_match; try by apply elem_of_nil in Hc.
           by apply list_elem_of_singleton in Hc as ->.
        -- case_match; [|by apply elem_of_nil in Hc].
           rewrite calls_when in Hc. case_match; [|by apply elem_of_nil in Hc].
           by apply list_elem_of_singleton in Hc as ->.
  - rewrite calls_run. apply precedes_app.
    + by intros c (d & -> & _)%list_elem_of_fmap.
    + apply run_tail_not_hook.
Qed.

(** C10.  Of the repairable structures of a room of the colony, those that
    get a repair objective are the ones whose hits are strictly below
    their maximum and, for containers and roads, strictly below 70% of it;
    the repair objectives of the room are registered with the room.  Hit
    points are whole numbers, not negative and below [2^48]. *)
Theorem C10_repair_objective_iff (ov : Overlord.t) (r : Room) (s : Structure) :
  r ∈ rooms (Overlord.colony ov) →
  0 ≤ hits s → 0 ≤ hitsMax s < 2 ^ 48 →
  (s ∈ Overlord.repairStructures r
   ↔ s ∈ repairables r
     ∧ hits s < hitsMax s
     ∧ (structureType s = STRUCTURE_CONTAINER ∨ structureType s = STRUCTURE_ROAD →
        10 * hits s < 7 * hitsMax s))
  ∧ Overlord.repairObjectives r
    = (λ s' : Structure, mkObjective "repair" (sobj s') None) <$> Overlord.repairStructures r
  ∧ ∃ sets, RegisterObjectives sets ∈ calls (Overlord.init ov)
            ∧ Overlord.repairObjectives r ∈ sets.
Proof.
  intros Hr Hhits Hmax. split; [|split; [done|]].
  - unfold Overlord.repairStructures. rewrite list_elem_of_In, filter_In, <-list_elem_of_In.
    unfold Overlord.needsRepair, Overlord.below70.
    rewrite (lt_times07_exact _ _ Hhits Hmax).
    rewrite !andb_true_iff, !orb_true_iff, !bool_decide_eq_true, !Z.ltb_lt.
    destruct (decide (structureType s = STRUCTURE_CONTAINER)) as [Hc|Hc];
      destruct (decide (structureType s = STRUCTURE_ROAD)) as [Hd|Hd];
      try (rewrite Hc in Hd; discriminate); intuition congruence.
  - exists (Overlord.roomObjectives ov r). split.
    + rewrite calls_init. apply elem_of_app. right. apply elem_of_app. left.
      destruct (calls_registerObjectives ov) as [sets ->].
      apply list_elem_of_further, list_elem_of_fmap. by exists r.
    + unfold Overlord.roomObjectives. apply list_elem_of_further, list_elem_of_here.
Qed.
End Phases.

(** ** Claims on the queen *)

Section QueenFacts.
Import Claims QueenOverlord.
Variable isIdle : Zerg → bool.
Variable hatchery : HatcheryCluster.

Lemma available_None s : available s = None ↔ exhausted s.
Proof.
  unfold available, exhausted. destruct s as [st|]; [|by split; [left|]].
  destruct (isEmpty st) eqn:He; split; try done.
  - intros _. right. by exists st.
  - intros [?|(st' & [= <-] & ?)]; congruence.
Qed.

Lemma available_Some s st : available s = Some st ↔ s = Some st ∧ isEmpty st = false.
Proof.
  unfold available. destruct s as [st'|]; [|by split; [|intros []]].
  destruct (isEmpty st') eqn:He; split; try done.
  - intros [[= ->] ?]. congruence.
  - by intros [= ->].
  - by intros [-> _].
Qed.

Lemma rechargeActions_task queen : ztask (rechargeActions hatchery queen) ≠ None.
Proof.
  unfold rechargeActions.
  destruct (available (hlink hatchery)); [done|].
  by destruct (available (battery hatchery)).
Qed.

Lemma firstActions_task queen : ztask (firstActions hatchery queen) ≠ None.
Proof.
  unfold firstActions, supplyActions.
  destruct (0 <? carryEnergy queen); [|apply rechargeActions_task].
  destruct (getPrioritizedClosestRequest _ _ _); [done|apply rechargeActions_task].
Qed.

(** The idle actions only ever give a task; they take none away. *)
Lemma idleActions_task queen :
  ztask queen ≠ None → ztask (idleActions hatchery queen) ≠ None.
Proof.
  intros Hq. unfold idleActions.
  repeat (case_match; try done).
Qed.

(** C9, as amended.  [handleQueen] first gives the queen a task: when she
    carries energy and there is a prioritized closest supply request, a
    transfer to its target; when she carries none, or there is no such
    request, a withdrawal from the link if it is there and not empty, else
    from the battery if it is there and not empty, else the recharge task.
    At the end of the call she has a task.  It is the one just described
    when she does not count as idle after that step.  When she still counts
    as idle, the idle actions decide: with a link that is not empty and a
    battery that is not full, a withdrawal from the link if she has room to
    carry and a transfer to the battery if she is full; with a link that is
    not empty and no battery, or a full one, a withdrawal from the link if
    she has room; with an empty link, a withdrawal from the battery if it
    is there, not empty, and she has room; without a link, a withdrawal
    from the battery if it is there and she has room; and in every other
    case the task of the first step. *)
Theorem C9_queen_always_tasked (queen : Zerg) :
  let request := getPrioritizedClosestRequest hatchery (zpos queen) "supply" in
  let first := firstActions hatchery queen in
  let final := handleQueen isIdle hatchery queen in
  let room := carryEnergy queen < carryCapacity queen in
  (∀ rq, 0 < carryEnergy queen → request = Some rq →
         ztask first = Some (transfer (reqTarget rq)))
  ∧ (carryEnergy queen ≤ 0 ∨ request = None →
       (∀ lnk, hlink hatchery = Some lnk → isEmpty lnk = false →
               ztask first = Some (withdraw lnk))
       ∧ (∀ bat, exhausted (hlink hatchery) →
                 battery hatchery = Some bat → isEmpty bat = false →
                 ztask first = Some (withdraw bat))
       ∧ (exhausted (hlink hatchery) → exhausted (battery hatchery) →
          ztask first = Some recharge))
  ∧ ztask first ≠ None
  ∧ ztask final ≠ None
  ∧ (isIdle first = false → final = first)
  ∧ (isIdle first = true →
     final = idleActions hatchery first
     ∧ (∀ lnk bat, hlink hatchery = Some lnk → battery hatchery = Some bat →
                   isEmpty lnk = false → isFull bat = false →
                   (room → ztask final = Some (withdraw lnk))
                   ∧ (¬ room → ztask final = Some (transfer bat)))
     ∧ (∀ lnk, hlink hatchery = Some lnk → isEmpty lnk = false →
               battery hatchery = None
               ∨ (∃ bat, battery hatchery = Some bat ∧ isFull bat = true) →
               (room → ztask final = Some (withdraw lnk))
               ∧ (¬ room → ztask final = ztask first))
     ∧ (∀ lnk, hlink hatchery = Some lnk → isEmpty lnk = true →
               (∀ bat, battery hatchery = Some bat → isEmpty bat = false →
                       room → ztask final = Some (withdraw bat))
               ∧ (exhausted (battery hatchery) ∨ ¬ room →
                  ztask final = ztask first))
     ∧ (hlink hatchery = None →
        (∀ bat, battery hatchery = Some bat → room →
                ztask final = Some (withdraw bat))
        ∧ (battery hatchery = None ∨ ¬ room → ztask final = ztask first))).
Proof.
  intros request first final room.
  assert (Hrecharge : ∀ q,
    (∀ lnk, hlink hatchery = Some lnk → isEmpty lnk = false →
            ztask (rechargeActions hatchery q) = Some (withdraw lnk))
    ∧ (∀ bat, exhausted (hlink hatchery) →
              battery hatchery = Some bat → isEmpty bat = false →
              ztask (rechargeActions hatchery q) = Some (withdraw bat))
    ∧ (exhausted (hlink hatchery) → exhausted (battery hatchery) →
       ztask (rechargeActions hatchery q) = Some recharge)).
  { intros q. unfold rechargeActions. repeat split.
    - intros lnk Hl He.
      by rewrite (proj2 (available_Some _ lnk) (conj Hl He)).
    - intros bat Hl Hb He. rewrite (proj2 (available_None _) Hl).
      by rewrite (proj2 (available_Some _ bat) (conj Hb He)).
    - intros Hl Hb.
      by rewrite (proj2 (available_None _) Hl), (proj2 (available_None _) Hb). }
  assert (Hcarry : carryEnergy first = carryEnergy queen
                   ∧ carryCapacity first = carryCapacity queen).
  { subst first. unfold firstActions, supplyActions, rechargeActions.
    repeat case_match; done. }
  destruct Hcarry as [Henergy Hcapacity].
  split; [|split; [|split; [|split; [|split]]]].
  - intros rq Hpos Hrq. subst first. unfold firstActions, supplyActions.
    apply Z.ltb_lt in Hpos. fold request. by rewrite Hpos, Hrq.
  - intros Hcase. subst first. unfold firstActions, supplyActions. fold request.
    destruct (Z.ltb_spec 0 (carryEnergy queen)) as [Hpos|Hle]; [|apply Hrecharge].
    destruct Hcase as [Hle|Hnone]; [lia|]. rewrite Hnone. apply Hrecharge.
  - apply firstActions_task.
  - subst final. unfold handleQueen. fold first. destruct (isIdle first).
    + apply idleActions_task, firstActions_task.
    + apply firstActions_task.
  - intros Hidle. subst final. unfold handleQueen. fold first. by rewrite Hidle.
  - intros Hidle.
    assert (final = idleActions hatchery first) as Hfinal.
    { subst final. unfold handleQueen. fold first. by rewrite Hidle. }
    split; [done|]. rewrite Hfinal. unfold idleActions, room.
    rewrite Henergy, Hcapacity. clear Hfinal.
    split; [|split; [|split]].
    + intros lnk bat -> -> -> ->. cbn [negb andb].
      destruct (Z.ltb_spec (carryEnergy queen) (carryCapacity queen));
        split; intros ?; done || lia.
    + intros lnk -> -> Hbat.
      destruct (Z.ltb_spec (carryEnergy queen) (carryCapacity queen));
        destruct Hbat as [->|(bat & -> & ->)];
        split; intros ?; done || lia.
    + intros lnk -> ->. split.
      * intros bat -> -> Hroom%Z.ltb_lt. by rewrite Hroom, andb_false_r.
      * intros Hcase.
        destruct (Z.ltb_spec (carryEnergy queen) (carryCapacity queen)) as [Hroom|Hfull].
        -- destruct Hcase as [[->|(bat & -> & ->)]|Hno]; [done| |lia].
          by rewrite andb_false_r.
        -- destruct (battery hatchery); [|done]. by rewrite andb_false_r.
    + intros ->. split.
      * intros bat -> Hroom%Z.ltb_lt. by rewrite Hroom.
      * intros Hcase.
        destruct (Z.ltb_spec (carryEnergy queen) (carryCapacity queen)) as [Hroom|Hfull].
        -- destruct Hcase as [->|Hno]; [done|lia].
        -- by destruct (battery hatchery).
Qed.
End QueenFacts.

(** ** The claims at work on sample colonies *)

Section PhaseExamples.
Import Claims Sample.

Lemma crashed_crisis fl : crisis threshold (crashed fl) ∧ hatcheryAtHome (crashed fl).
Proof.
  split.
  - by repeat split.
  - by intros h [= <-].
Qed.

Lemma C2_emergency_created_once_witness :
  concat (emergencyCreates threshold
            <$> [crashed []; crashed [emergencyMarker]; crashed [emergencyMarker]])
  = [CreateDirective EmergencyMarker (hpos hatch)].
Proof.
  refine (proj2 (proj1 (C2_emergency_created_once threshold (crashed [])
                          [crashed [emergencyMarker]; crashed [emergencyMarker]]
                          hatch eq_refl (proj1 (crashed_crisis []))
                          (proj2 (crashed_crisis [])) _) _)).
  - repeat split.
    + intros f [Hf|[Hf Hr]]; [by apply elem_of_nil in Hf|].
      vm_compute in Hf.
      apply elem_of_cons in Hf as [->|Hf]; [done|].
      apply elem_of_cons in Hf as [->|Hf]; [apply list_elem_of_here|].
      by apply elem_of_nil in Hf.
    + intros f [Hf|[Hf Hr]]; [done|].
      vm_compute in Hf.
      apply elem_of_cons in Hf as [->|Hf]; [done|].
      by apply elem_of_nil in Hf.
  - intros (f & Hf & _). by apply elem_of_nil in Hf.
Defined.

(** C3, as stated, fails: without a controller, a rampart about to fall and
    a raider in the room make [handleSafeMode] raise. *)
Lemma C3_missing_controller_raises :
  Overlord.handleSafeMode (besieged None) = ([], Thrown TypeError)
  ∧ ¬ completes (Overlord.handleSafeMode (besieged None)).
Proof. split; [reflexivity|]. by intros [[] ?]. Qed.

Lemma C3_substeps_complete_witness :
  completes (Overlord.handleSafeMode (besieged (Some (mkObj "ctl1" (W1N1 25 25)))))
  ∧ Overlord.registerCreepRequests (Overlord.new
      (mkColony "W1N1" quietRoom [quietRoom] [] None None false [] (λ _, [])))
    = ([], Done tt).
Proof.
  split.
  - apply (proj2 (proj2 (proj2 (proj2 (C3_substeps_complete threshold
             (besieged (Some (mkObj "ctl1" (W1N1 25 25))))))))).
    left. by eexists.
  - apply (proj1 (proj2 (proj2 (C3_substeps_complete threshold (Overlord.new
      (mkColony "W1N1" quietRoom [quietRoom] [] None None false [] (λ _, []))))))
             eq_refl).
Defined.

Lemma C5_guard_iff_hostile_unguarded_witness :
  CreateDirective GuardMarker (cpos scout)
  ∈ calls (Overlord.placeDirectives threshold (crashed [])).
Proof.
  apply (proj2 (proj2 (C5_guard_iff_hostile_unguarded threshold (crashed [])))).
  exists outpost, scout. repeat split.
  - apply list_elem_of_here.
  - intros f Hf. by apply elem_of_nil in Hf.
Defined.

Lemma C6_safe_mode_iff_witness :
  Overlord.handleSafeMode (besieged (Some (mkObj "ctl1" (W1N1 25 25))))
  = ([ActivateSafeMode (mkObj "ctl1" (W1N1 25 25))], Done tt).
Proof.
  apply (proj1 (C6_safe_mode_iff threshold
                  (besieged (Some (mkObj "ctl1" (W1N1 25 25)))) _ eq_refl)).
  repeat split.
  - exists rampart. split; [apply list_elem_of_here|simpl; lia].
  - exists raider. split; [apply list_elem_of_here|done].
Defined.

Lemma C7_worker_request_iff_witness :
  List.filter isWorkerRequest (calls (Overlord.init (crashed [])))
  = [Enqueue (mkProto "worker" (Some (mkObj "ctl1" (W1N1 25 25))) Infinity)].
Proof.
  apply (proj2 (C7_worker_request_iff (crashed []))).
  split; [by eexists|]. split; [done|simpl; lia].
Defined.

(** C8, as stated, fails: with a directive in place, the run phase of the
    crashed colony calls the run hook and only then creates the guard and
    the emergency directive. *)
Lemma C8_run_hook_before_placement :
  calls (Overlord.run threshold (crashed []))
  = [ DirectiveRun "guard_W2N1";
      CreateDirective GuardMarker (cpos scout);
      CreateDirective EmergencyMarker (hpos hatch) ]
  ∧ ¬ precedes isPlacement isDirectiveRun (calls (Overlord.run threshold (crashed []))).
Proof.
  split; [reflexivity|]. intros Hafter.
  pose proof (Hafter 1%nat 0%nat _ _ eq_refl eq_refl eq_refl eq_refl). lia.
Qed.

(** C9, as stated, fails: a full queen without supply request, at a
    hatchery whose link is not empty and whose battery is not full, gets a
    withdrawal from the link in the first step; full as she is, she still
    counts as idle, and the idle actions send her to the battery. *)
Lemma C9_idle_full_queen_transfers :
  0 < QueenOverlord.carryEnergy Cases.fullQueen
  ∧ QueenOverlord.getPrioritizedClosestRequest Cases.stocked
      (QueenOverlord.zpos Cases.fullQueen) "supply" = None
  ∧ QueenOverlord.hlink Cases.stocked = Some hatcheryLink
  ∧ QueenOverlord.isEmpty hatcheryLink = false
  ∧ QueenOverlord.ztask
      (QueenOverlord.firstActions Cases.stocked Cases.fullQueen)
    = Some (QueenOverlord.withdraw (QueenOverlord.stobj hatcheryLink))
  ∧ QueenOverlord.ztask
      (QueenOverlord.handleQueen (λ _, true) Cases.stocked Cases.fullQueen)
    = Some (QueenOverlord.transfer (QueenOverlord.stobj Cases.hatcheryBattery))
  ∧ QueenOverlord.ztask
      (QueenOverlord.handleQueen (λ _, true) Cases.stocked Cases.fullQueen)
    ≠ Some (QueenOverlord.withdraw (QueenOverlord.stobj hatcheryLink)).
Proof. repeat split; try reflexivity. discriminate. Qed.

Lemma C9_queen_always_tasked_witness :
  QueenOverlord.handleQueen (λ _, false) cluster queen
  = QueenOverlord.setTask queen
      (QueenOverlord.withdraw (QueenOverlord.stobj hatcheryLink))
  ∧ QueenOverlord.ztask
      (QueenOverlord.handleQueen (λ _, true) Cases.stocked Cases.fullQueen)
    = Some (QueenOverlord.transfer (QueenOverlord.stobj Cases.hatcheryBattery)).
Proof.
  split.
  - apply (proj1 (proj2 (proj2 (proj2 (proj2
             (C9_queen_always_tasked (λ _, false) cluster queen))))) eq_refl).
  - pose proof (C9_queen_always_tasked (λ _, true) Cases.stocked Cases.fullQueen)
      as Hqueen.
    cbv zeta in Hqueen. destruct Hqueen as (_ & _ & _ & _ & _ & Hidle).
    destruct (Hidle eq_refl) as (_ & Hboth & _).
    apply (Hboth hatcheryLink Cases.hatcheryBattery); try reflexivity.
    simpl. lia.
Defined.

Lemma C10_repair_objective_iff_witness :
  road ∈ Overlord.repairStructures quietRoom
  ∧ ¬ tower ∈ Overlord.repairStructures
        (mkRoom "W1N1" None None None [] [] 0 [] [] [] [road] [] [] []).
Proof.
  assert (Hhits : 0 ≤ hits road) by (simpl; lia).
  assert (Hmax : 0 ≤ hitsMax road < 2 ^ 48) by (simpl; lia).
  pose proof (C10_repair_objective_iff overlord quietRoom road
                (list_elem_of_here _ _) Hhits Hmax) as [Hroad _].
  split.
  - apply Hroad. split; [apply list_elem_of_here|]. simpl. lia.
  - intros Hin. apply list_elem_of_In, filter_In in Hin as [Hin _].
    simpl in Hin. destruct Hin as [Heq|[]]. discriminate Heq.
Defined.

(** [sortBy] orders by the key and keeps equal keys in their order. *)
Example sortBy_is_stable :
  sortBy [(3, "a"); (1, "b"); (2, "c"); (1, "d")] fst
  = [(1, "b"); (1, "d"); (2, "c"); (3, "a")].
Proof. reflexivity. Qed.

(** At exactly 70% of its hits a container is left alone; one hit below,
    it is repaired; a tower is repaired as soon as it is damaged. *)
Example needsRepair_at_the_threshold :
  Overlord.needsRepair (mkStructure (mkObj "c" (W1N1 1 1)) STRUCTURE_CONTAINER 175000 250000 0) = false
  ∧ Overlord.needsRepair (mkStructure (mkObj "c" (W1N1 1 1)) STRUCTURE_CONTAINER 174999 250000 0) = true
  ∧ Overlord.needsRepair (mkStructure (mkObj "t" (W1N1 1 1)) STRUCTURE_TOWER 2999 3000 0) = true
  ∧ Overlord.needsRepair (mkStructure (mkObj "t" (W1N1 1 1)) STRUCTURE_TOWER 3000 3000 0) = false.
Proof. repeat split. Qed.
End PhaseExamples.

(** * Further properties of the Overlord *)

Section SortBy.
Context {A : Type} (key : A → Z).

Lemma insertBy_Permutation (a : A) (l : list A) : insertBy key a l ≡ₚ a :: l.
Proof.
  induction l as [|b l IH]; simpl; [done|].
  destruct (key b <? key a); [|done]. rewrite IH. apply Permutation_swap.
Qed.

Lemma sortBy_Permutation (l : list A) : sortBy l key ≡ₚ l.
Proof.
  unfold sortBy. induction l as [|a l IH]; simpl; [done|].
  by rewrite insertBy_Permutation, IH.
Qed.

Lemma insertBy_sorted (a : A) (l : list A) :
  StronglySorted (λ x y, key x ≤ key y) l →
  StronglySorted (λ x y, key x ≤ key y) (insertBy key a l).
Proof.
  induction 1 as [|b l Hs IH Hb]; simpl.
  - repeat constructor.
  - destruct (Z.ltb_spec (key b) (key a)) as [Hlt|Hge].
    + constructor; [done|]. rewrite insertBy_Permutation.
      constructor; [lia|done].
    + constructor; [by constructor|]. constructor; [done|].
      eapply Forall_impl; [exact Hb|]. simpl. intros. lia.
Qed.

Lemma sortBy_sorted (l : list A) :
  StronglySorted (λ x y, key x ≤ key y) (sortBy l key).
Proof.
  unfold sortBy. induction l as [|a l IH]; simpl; [constructor|].
  by apply insertBy_sorted.
Qed.

(** Elements with the same key keep their order. *)
Lemma insertBy_stable (k : Z) (a : A) (l : list A) :
  StronglySorted (λ x y, key x ≤ key y) l →
  List.filter (λ x, key x =? k) (insertBy key a l)
  = List.filter (λ x, key x =? k) (a :: l).
Proof.
  induction 1 as [|b l Hs IH Hb]; [done|].
  cbn [insertBy]. destruct (Z.ltb_spec (key b) (key a)) as [Hlt|Hge]; [|done].
  cbn [List.filter]. rewrite IH. cbn [List.filter].
  destruct (Z.eqb_spec (key b) k), (Z.eqb_spec (key a) k); try done. lia.
Qed.

Lemma sortBy_stable (k : Z) (l : list A) :
  List.filter (λ x, key x =? k) (sortBy l key) = List.filter (λ x, key x =? k) l.
Proof.
  unfold sortBy. induction l as [|a l IH]; [done|]. cbn [foldr].
  rewrite insertBy_stable by apply sortBy_sorted.
  cbn [List.filter]. by rewrite IH.
Qed.
End SortBy.

Section OverlordMore.
Import Claims Kinds.
Variable T : Z.     (* EMERGENCY_ENERGY_THRESHOLD *)

(** The two parts of [registerCreepRequests]. *)
Lemma calls_registerCreepRequests ov :
  calls (Overlord.registerCreepRequests ov)
  = match hatchery (Overlord.colony ov) with
    | Some _ =>
        match terminal (Overlord.room ov) with
        | Some term =>
            if (0 <? Z.of_nat (length (labs (Overlord.room ov))))
               && (Z.of_nat (length (getCreepsByRole (Overlord.colony ov)
                                       "mineralSupplier")) <? 1)
            then [Enqueue (mkProto "mineralSupplier" (Some (sobj term)) (Finite 1))]
            else []
        | None => []
        end
        ++ (if (Z.of_nat (length (getCreepsByRole (Overlord.colony ov) "worker"))
                  <? Overlord.numWorkersNeeded ov)
               && (0 <? Z.of_nat (length (storageUnits (Overlord.room ov))))
            then [Enqueue (mkProto "worker" (controller (Overlord.room ov))
                             (Overlord.workerPatternRepetitionLimit (Overlord.settings ov)))]
            else [])
    | None => []
    end.
Proof.
  unfold Overlord.registerCreepRequests.
  destruct (hatchery (Overlord.colony ov)); [|done].
  rewrite calls_bind.
  destruct (terminal (Overlord.room ov)) as [term|]; simpl.
  - destruct (0 <? _); simpl; [destruct (_ <? 1); simpl|];
      rewrite calls_when; by destruct (_ && _).
  - rewrite calls_when. by destruct (_ && _).
Qed.

Lemma length_pos_iff {A} (l : list A) : (0 <? Z.of_nat (length l)) = true ↔ l ≠ [].
Proof. destruct l; simpl; split; (done || lia). Qed.

Lemma length_lt_1_iff {A} (l : list A) : (Z.of_nat (length l) <? 1) = true ↔ l = [].
Proof. rewrite Z.ltb_lt. destruct l; simpl; split; (done || lia). Qed.

Lemma optional_request_role (b : bool) (p : ProtoCreep) (c : Call) :
  c ∈ (if b then [Enqueue p] else []) → b = true ∧ c = Enqueue p.
Proof.
  destruct b; intros Hc; [|by apply elem_of_nil in Hc].
  by apply list_elem_of_singleton in Hc as ->.
Qed.

(** X1.  [registerCreepRequests] asks the hatchery for a mineral supplier
    when, and only when, the hatchery exists, the room has a terminal and
    at least one lab, and the colony has no mineral supplier.  The request
    is then the first one made; it is assigned to the terminal and limited
    to one repetition of the body pattern. *)
Theorem X1_mineral_supplier_iff (ov : Overlord.t) :
  let wanted := is_Some (hatchery (Overlord.colony ov))
                ∧ is_Some (terminal (Overlord.room ov))
                ∧ labs (Overlord.room ov) ≠ []
                ∧ getCreepsByRole (Overlord.colony ov) "mineralSupplier" = [] in
  ((∃ c, c ∈ calls (Overlord.registerCreepRequests ov) ∧ isSupplierRequest c = true)
   ↔ wanted)
  ∧ (wanted →
     ∃ term, terminal (Overlord.room ov) = Some term
             ∧ head (calls (Overlord.registerCreepRequests ov))
               = Some (Enqueue (mkProto "mineralSupplier" (Some (sobj term)) (Finite 1)))).
Proof.
  intros wanted. rewrite calls_registerCreepRequests. unfold wanted.
  destruct (hatchery (Overlord.colony ov)) as [h|].
  2:{ split; [|by intros [[? ?] _]]. split; [|by intros [[? ?] _]].
      intros (c & Hc & _). by apply elem_of_nil in Hc. }
  assert (Hworker : ∀ (c : Call) (b : bool) (p : ProtoCreep), setupRole p = "worker" →
            c ∈ (if b then [Enqueue p] else []) → isSupplierRequest c = true → False).
  { intros c b p Hp [_ ->]%optional_request_role. simpl. by rewrite Hp. }
  destruct (terminal (Overlord.room ov)) as [term|].
  2:{ split; [|by intros (_ & [? ?] & _)]. split; [|by intros (_ & [? ?] & _)].
      intros (c & Hc & Hs). simpl in Hc. exfalso.
      eapply (Hworker c); [|exact Hc|exact Hs]. done. }
  destruct ((0 <? Z.of_nat (length (labs (Overlord.room ov))))
            && (Z.of_nat (length (getCreepsByRole (Overlord.colony ov)
                                    "mineralSupplier")) <? 1)) eqn:Hb.
  - apply andb_prop in Hb as [Hl%length_pos_iff Hs%length_lt_1_iff]. split.
    + split; [intros _; by repeat split|]. intros _.
      eexists. split; [apply list_elem_of_here|done].
    + intros _. by exists term.
  - assert (Hno : ¬ (labs (Overlord.room ov) ≠ []
                     ∧ getCreepsByRole (Overlord.colony ov) "mineralSupplier" = [])).
    { intros [Hl%length_pos_iff Hs%length_lt_1_iff]. by rewrite Hl, Hs in Hb. }
    split; [|by intros (_ & _ & ? & ?); destruct Hno].
    split; [|by intros (_ & _ & ? & ?); destruct Hno].
    intros (c & Hc & Hs). simpl in Hc. exfalso.
      eapply (Hworker c); [|exact Hc|exact Hs]. done.
Qed.

(** X2.  [registerCreepRequests] only talks to the queue of the hatchery:
    it makes at most one request for a mineral supplier, then at most one
    for a worker, and no other call. *)
Theorem X2_requests_shape (ov : Overlord.t) :
  ∃ s w, calls (Overlord.registerCreepRequests ov) = s ++ w
         ∧ (length s ≤ 1)%nat ∧ (length w ≤ 1)%nat
         ∧ (∀ c, c ∈ s → isSupplierRequest c = true)
         ∧ (∀ c, c ∈ w → isWorkerRequest c = true).
Proof.
  rewrite calls_registerCreepRequests.
  destruct (hatchery (Overlord.colony ov)) as [h|].
  2:{ exists [], []. repeat split; simpl; try lia; intros c Hc; by apply elem_of_nil in Hc. }
  eexists _, _. split; [done|].
  repeat split.
  - destruct (terminal (Overlord.room ov)); [destruct (_ && _)|]; simpl; lia.
  - destruct (_ && _); simpl; lia.
  - intros c. destruct (terminal (Overlord.room ov)); [destruct (_ && _)|];
      intros Hc; try by apply elem_of_nil in Hc.
    by apply list_elem_of_singleton in Hc as ->.
  - intros c. destruct (_ && _); intros Hc; [|by apply elem_of_nil in Hc].
    by apply list_elem_of_singleton in Hc as ->.
Qed.
End OverlordMore.

Section OverlordObjectives.
Import Claims Kinds.

Lemma filter_take_prefix {A} (f : A → bool) (n : nat) (l : list A) :
  List.filter f (take n l) `prefix_of` List.filter f l.
Proof.
  exists (List.filter f (drop n l)).
  by rewrite <-List.filter_app, take_drop.
Qed.

(** X3.  In a colony without incubator, the fortify objectives of a room
    are for the five barriers with the fewest hits (all of them when the
    room has five or fewer): they come in ascending order of hits, no
    barrier left out has fewer hits than one chosen, and among barriers
    with equal hits those listed first in the room are chosen first.  In a
    colony with an incubator no fortify objective is made. *)
Theorem X3_fortify_lowest_barriers (ov : Overlord.t) (r : Room) :
  (incubator (Overlord.colony ov) = None →
   ∃ chosen rest,
     Overlord.roomObjectives ov r !! 4%nat
     = Some ((λ b : Structure, mkObjective "fortify" (sobj b) None) <$> chosen)
     ∧ chosen ++ rest ≡ₚ barriers r
     ∧ length chosen = min 5 (length (barriers r))
     ∧ StronglySorted fewerHits chosen
     ∧ (∀ a b, a ∈ chosen → b ∈ rest → hits a ≤ hits b)
     ∧ (∀ h, withHits h chosen `prefix_of` withHits h (barriers r)))
  ∧ (incubator (Overlord.colony ov) ≠ None →
     Overlord.roomObjectives ov r !! 4%nat = Some []).
Proof.
  split.
  - intros Hinc.
    exists (take 5 (sortBy (barriers r) hits)), (drop 5 (sortBy (barriers r) hits)).
    pose proof (sortBy_sorted hits (barriers r)) as Hsorted.
    rewrite <-(take_drop 5 (sortBy (barriers r) hits)) in Hsorted.
    split; [|split; [|split; [|split; [|split]]]].
    + unfold Overlord.roomObjectives. by rewrite Hinc.
    + rewrite take_drop. apply sortBy_Permutation.
    + rewrite length_take. by rewrite (Permutation_length (sortBy_Permutation hits (barriers r))).
    + by apply StronglySorted_app_1_l in Hsorted.
    + intros a b Ha Hb. by apply (StronglySorted_app_1_elem_of _ _ _ a b) in Hsorted.
    + intros h. unfold withHits.
      rewrite <-(sortBy_stable hits h (barriers r)). apply filter_take_prefix.
  - intros Hinc. unfold Overlord.roomObjectives.
    by destruct (incubator (Overlord.colony ov)).
Qed.

Lemma elem_of_map_filter {A B} (f : A → bool) (g : A → B) (l : list A) (b : B) :
  b ∈ g <$> List.filter f l ↔ ∃ a, a ∈ l ∧ f a = true ∧ b = g a.
Proof.
  rewrite list_elem_of_fmap. split.
  - intros (a & -> & Ha). apply list_elem_of_In, filter_In in Ha as [Ha Hf].
    exists a. by rewrite list_elem_of_In.
  - intros (a & Ha & Hf & ->). exists a. split; [done|].
    apply list_elem_of_In, filter_In. by rewrite <-list_elem_of_In.
Qed.

(** X4.  [registerObjectives] registers once for the hauling requests and
    then once for each room of the colony, whatever the rooms hold.  The
    first registration has a collect objective for the target of each
    outgoing hauling request for energy and a deposit objective for the
    target of each incoming one; requests for other resources and requests
    that are not hauling requests give no objective. *)
Theorem X4_hauling_objectives (ov : Overlord.t) :
  ∃ collect deposit rest,
    Overlord.registerObjectives ov
    = (RegisterObjectives [collect; deposit] :: rest, Done tt)
    ∧ rest = (λ r, RegisterObjectives (Overlord.roomObjectives ov r))
               <$> rooms (Overlord.colony ov)
    ∧ (∀ o, o ∈ collect
            ↔ ∃ rq, rq ∈ haul (resourceOut (Overlord.resourceRequests ov))
                    ∧ resourceType rq = "energy"
                    ∧ o = mkObjective "collectEnergyMiningSite" (rtarget rq) None)
    ∧ (∀ o, o ∈ deposit
            ↔ ∃ rq, rq ∈ haul (resourceIn (Overlord.resourceRequests ov))
                    ∧ resourceType rq = "energy"
                    ∧ o = mkObjective "depositContainer" (rtarget rq) None).
Proof.
  eexists _, _, _. split; [|split; [reflexivity|]].
  - destruct (Overlord.registerObjectives ov) as [log out] eqn:Hreg.
    assert (Hlog : log = calls (Overlord.registerObjectives ov)) by by rewrite Hreg.
    destruct (completes_registerObjectives ov) as [[] Hdone].
    rewrite Hreg in Hdone. simpl in Hdone. subst out. f_equal. rewrite Hlog.
    unfold Overlord.registerObjectives.
    rewrite calls_seq by apply completes_call. simpl. f_equal.
    induction (rooms (Overlord.colony ov)) as [|r rs IH]; [done|]. cbn [forEach].
    rewrite calls_seq by apply completes_call. simpl. by rewrite IH.
  - split; intros o.
    + rewrite <-list_fmap_compose, elem_of_map_filter.
      unfold Overlord.isEnergy. by setoid_rewrite bool_decide_eq_true.
    + rewrite <-list_fmap_compose, elem_of_map_filter.
      unfold Overlord.isEnergy. by setoid_rewrite bool_decide_eq_true.
Qed.

(** X5.  The registration of a room has six sets of objectives, for pickup,
    repair, build, road building, fortifying and upgrading, in this order.
    Dropped energy is picked up only in amounts above 100; every
    construction site has its build objective; the controller of the room
    has an upgrade objective, and a room without controller has none. *)
Theorem X5_room_registration (ov : Overlord.t) (r : Room) :
  ∃ pickup repair build buildRoad fortify upgrade,
    Overlord.roomObjectives ov r = [pickup; repair; build; buildRoad; fortify; upgrade]
    ∧ (∀ o, o ∈ pickup
            ↔ ∃ d, d ∈ droppedEnergy r ∧ 100 < amount d
                   ∧ o = mkObjective "pickupEnergy" (robj d) None)
    ∧ repair = Overlord.repairObjectives r
    ∧ build = (λ s : ConstructionSite, mkObjective "build" (csobj s) None)
                <$> structureSites r
    ∧ buildRoad = (λ s : ConstructionSite, mkObjective "buildRoad" (csobj s) None)
                    <$> roadSites r
    ∧ (∀ o, o ∈ upgrade ↔ controller r = Some (target o) ∧ o = mkObjective "upgrade" (target o) None).
Proof.
  unfold Overlord.roomObjectives. eexists _, _, _, _, _, _.
  split; [reflexivity|]. split; [|split; [done|split; [done|split; [done|]]]].
  - intros o. rewrite elem_of_map_filter. by setoid_rewrite Z.ltb_lt.
  - intros o. destruct (controller r) as [c|].
    + rewrite list_elem_of_singleton. split.
      * by intros ->.
      * by intros [[= ->] ->].
    + split; [intros Ho; by apply elem_of_nil in Ho|by intros [? _]].
Qed.
End OverlordObjectives.

Section OverlordRun.
Import Claims Kinds.
Variable T : Z.     (* EMERGENCY_ENERGY_THRESHOLD *)

Lemma calls_placeEmergency ov :
  calls (Overlord.placeEmergency T ov)
  = match isIncubating (Overlord.colony ov), hatchery (Overlord.colony ov) with
    | false, Some h =>
        if negb (Overlord.roomHasEnergy T ov) && negb (Overlord.roomHasEnergySupply T ov)
           && negb (Overlord.roomHasMiners ov)
           && bool_decide (length (Overlord.emergencyFlags ov) = 0%nat)
        then [CreateDirective EmergencyMarker (hpos h)] else []
    | _, _ => []
    end.
Proof.
  unfold Overlord.placeEmergency.
  destruct (isIncubating (Overlord.colony ov)), (hatchery (Overlord.colony ov)); try done.
  by rewrite calls_when.
Qed.

(** The three tests of the emergency, read back as the state of the
    colony. *)
Lemma no_energy_no_supply_no_miners ov :
  negb (Overlord.roomHasEnergy T ov) && negb (Overlord.roomHasEnergySupply T ov)
  && negb (Overlord.roomHasMiners ov) = true
  ↔ energyAvailable (Overlord.room ov) < T
    ∧ (∀ st, storage (Overlord.room ov) = Some st → T < energy st →
             getCreepsByRole (Overlord.colony ov) "supplier" = [])
    ∧ getCreepsByRole (Overlord.colony ov) "miner" = [].
Proof.
  rewrite !andb_true_iff, !negb_true_iff.
  unfold Overlord.roomHasEnergy, Overlord.roomHasEnergySupply, Overlord.roomHasMiners.
  rewrite Z.leb_gt.
  assert (Hempty : ∀ l : list Creep, (0 <? Z.of_nat (length l)) = false ↔ l = []).
  { intros l. rewrite Z.ltb_ge. destruct l; simpl; split; (done || lia). }
  rewrite Hempty.
  destruct (storage (Overlord.room ov)) as [st|].
  - rewrite andb_false_iff, Z.ltb_ge, Hempty. split.
    + intros [[He Hs] Hm]. repeat split; try done.
      intros st' [= <-] Hlt. destruct Hs as [?|?]; [lia|done].
    + intros (He & Hs & Hm). repeat split; try done.
      destruct (Z_lt_le_dec T (energy st)) as [Hlt|?]; [|by left].
      right. by apply (Hs st).
  - split; [intros [[? _] ?]|intros (? & _ & ?)]; by repeat split.
Qed.

(** X6.  [placeDirectives] creates an emergency directive in exactly one
    situation: the colony is not incubating, has its hatchery, spawn energy
    is below the threshold, no storage above the threshold has a supplier,
    there is no miner, and no emergency marker stands in the room.  It is
    then created once, at the hatchery. *)
Theorem X6_emergency_only_in_crisis (ov : Overlord.t) :
  ((∃ p, CreateDirective EmergencyMarker p ∈ calls (Overlord.placeDirectives T ov))
   ↔ crisis T ov ∧ ¬ marked ov)
  ∧ (∀ p, CreateDirective EmergencyMarker p ∈ calls (Overlord.placeDirectives T ov) →
          emergencyCreates T ov = [CreateDirective EmergencyMarker p]
          ∧ hpos <$> hatchery (Overlord.colony ov) = Some p)
  ∧ (isIncubating (Overlord.colony ov) = true → emergencyCreates T ov = []).
Proof.
  assert (Hin : ∀ p, CreateDirective EmergencyMarker p ∈ calls (Overlord.placeDirectives T ov)
                     ↔ CreateDirective EmergencyMarker p ∈ calls (Overlord.placeEmergency T ov)).
  { intros p. rewrite calls_placeDirectives, elem_of_app. split; [|by right].
    intros [Hg|He]; [|done].
    apply list_elem_of_In, in_concat in Hg as (l & Hl & Hc).
    apply list_elem_of_In, list_elem_of_fmap in Hl as (r & -> & _).
    by apply list_elem_of_In, calls_placeGuard_kind in Hc. }
  setoid_rewrite Hin. rewrite emergencyCreates_placeEmergency, calls_placeEmergency.
  unfold crisis.
  destruct (isIncubating (Overlord.colony ov)).
  { split; [|split; [|done]].
    - split; [intros [p Hp]; by apply elem_of_nil in Hp|by intros [[? _] _]].
    - intros p Hp. by apply elem_of_nil in Hp. }
  destruct (hatchery (Overlord.colony ov)) as [h|].
  2:{ split; [|split; [|done]].
      - split; [intros [p Hp]; by apply elem_of_nil in Hp|by intros [(_ & [? ?] & _) _]].
      - intros p Hp. by apply elem_of_nil in Hp. }
  destruct (negb (Overlord.roomHasEnergy T ov) && negb (Overlord.roomHasEnergySupply T ov)
            && negb (Overlord.roomHasMiners ov)) eqn:Htests; simpl.
  - apply no_energy_no_supply_no_miners in Htests.
    destruct (bool_decide (length (Overlord.emergencyFlags ov) = 0%nat)) eqn:Hflags.
    + apply emergencyFlags_none in Hflags. split; [|split; [|done]].
      * split; [intros _|intros _; eexists; apply list_elem_of_here].
        split; [|done]. split; [done|]. split; [by eexists|done].
      * by intros p [= ->]%list_elem_of_singleton.
    + split; [|split; [|done]].
      * split; [intros [p Hp]; by apply elem_of_nil in Hp|].
        intros [_ Hno]. apply emergencyFlags_none in Hno. congruence.
      * intros p Hp. by apply elem_of_nil in Hp.
  - split; [|split; [|done]].
    + split; [intros [p Hp]; by apply elem_of_nil in Hp|].
      intros [(_ & _ & Hrest) _]. apply no_energy_no_supply_no_miners in Hrest. congruence.
    + intros p Hp. by apply elem_of_nil in Hp.
Qed.

(** X7.  [placeDirectives] ends normally and does nothing but create
    directives: first guard directives, at most one for each room checked,
    then at most one emergency directive. *)
Theorem X7_placement_shape (ov : Overlord.t) :
  ∃ guards emergency,
    Overlord.placeDirectives T ov = (guards ++ emergency, Done tt)
    ∧ (∀ c, c ∈ guards → isCreate GuardMarker c = true)
    ∧ (length guards ≤ length (Overlord.roomsToCheck ov))%nat
    ∧ (∀ c, c ∈ emergency → isCreate EmergencyMarker c = true)
    ∧ (length emergency ≤ 1)%nat.
Proof.
  exists (concat ((λ r, calls (Overlord.placeGuard r)) <$> Overlord.roomsToCheck ov)),
         (calls (Overlord.placeEmergency T ov)).
  split; [|split; [|split; [|split]]].
  - destruct (Overlord.placeDirectives T ov) as [log out] eqn:Hpd.
    pose proof (calls_placeDirectives T ov) as Hlog. rewrite Hpd in Hlog. simpl in Hlog.
    destruct (completes_placeDirectives T ov) as [[] Hdone]. rewrite Hpd in Hdone.
    simpl in Hdone. by subst.
  - intros c (l & Hl & Hc)%list_elem_of_In%in_concat.
    apply list_elem_of_In, list_elem_of_fmap in Hl as (r & -> & _).
    by apply list_elem_of_In, calls_placeGuard_kind in Hc.
  - induction (Overlord.roomsToCheck ov) as [|r rs IH]; [done|].
    rewrite fmap_cons. cbn [concat]. rewrite length_app, length_cons.
    assert (length (calls (Overlord.placeGuard r)) ≤ 1)%nat; [|lia].
    rewrite calls_placeGuard.
    destruct (hostiles r); [simpl; lia|]. destruct (bool_decide _); simpl; lia.
  - intros c. apply calls_placeEmergency_kind.
  - rewrite calls_placeEmergency.
    destruct (isIncubating (Overlord.colony ov)), (hatchery (Overlord.colony ov));
      simpl; try lia.
    destruct (_ && _); simpl; lia.
Qed.

(** X8.  The run phase ends normally exactly when the colony room has its
    controller or the safe-mode trigger does not hold.  When the trigger
    holds and the controller is missing, the run hooks of the directives
    have been called and the phase raises: no directive is placed in that
    tick. *)
Theorem X8_run_raises_without_controller (ov : Overlord.t) :
  (completes (Overlord.run T ov)
   ↔ is_Some (controller (Overlord.room ov)) ∨ ¬ breach ov)
  ∧ (controller (Overlord.room ov) = None → breach ov →
     Overlord.run T ov = (DirectiveRun <$> Overlord.directives ov, Thrown TypeError)).
Proof.
  assert (Hhooks : forEach (Overlord.directives ov) (λ d, call (DirectiveRun d))
                   = (DirectiveRun <$> Overlord.directives ov, Done tt)).
  { destruct (forEach _ _) as [log out] eqn:Hf.
    pose proof (calls_hooks (Overlord.directives ov) DirectiveRun) as Hlog.
    destruct (completes_hooks (Overlord.directives ov) DirectiveRun) as [[] Hdone].
    rewrite Hf in Hlog, Hdone. simpl in *. by subst. }
  assert (Hbreach : breach ov ↔ Overlord.safeModeTrigger ov = true)
    by (symmetry; apply safeModeTrigger_iff).
  unfold Overlord.run. rewrite Hhooks. unfold Overlord.handleSafeMode.
  destruct (completes_placeDirectives T ov) as [[] Hpd].
  destruct (Overlord.placeDirectives T ov) as [plog pout]. simpl in Hpd. subst pout.
  rewrite Hbreach.
  destruct (Overlord.safeModeTrigger ov), (controller (Overlord.room ov)) as [ctl|]; simpl.
  - split; [|done]. split; [by left|by exists tt].
  - split; [|by rewrite app_nil_r]. split; [by intros [[] ?]|].
    intros [[? ?]|?]; done.
  - split; [|done]. split; [by left|by exists tt].
  - split; [|done]. split; [by right|by exists tt].
Qed.

(** X9.  Each phase keeps to its own calls.  The init phase always ends
    normally and only calls init hooks, registers objectives and queues
    spawn requests: it creates no directive and does not touch safe mode.
    The run phase only calls run hooks, activates safe mode and creates
    directives: it registers no objective and queues no spawn request. *)
Theorem X9_phases_keep_to_their_calls (ov : Overlord.t) :
  completes (Overlord.init ov)
  ∧ (∀ c, c ∈ calls (Overlord.init ov) →
          isDirectiveInit c || isRegistration c = true)
  ∧ (∀ c, c ∈ calls (Overlord.run T ov) →
          isDirectiveRun c || isSafeMode c || isPlacement c = true).
Proof.
  split; [|split].
  - unfold Overlord.init.
    apply completes_bind; [apply completes_hooks|]. intros _.
    apply completes_bind; [apply completes_registerObjectives|]. intros _.
    apply completes_registerCreepRequests.
  - intros c. rewrite calls_init, !elem_of_app. intros [Hc|[Hc|Hc]].
    + by apply list_elem_of_fmap in Hc as (d & -> & _).
    + destruct (calls_registerObjectives ov) as [sets Hreg]. rewrite Hreg in Hc.
      apply elem_of_cons in Hc as [->|Hc]; [done|].
      by apply list_elem_of_fmap in Hc as (r & -> & _).
    + rewrite calls_registerCreepRequests in Hc.
      destruct (hatchery (Overlord.colony ov)); [|by apply elem_of_nil in Hc].
      apply elem_of_app in Hc as [Hc|Hc].
      * destruct (terminal (Overlord.room ov)); [|by apply elem_of_nil in Hc].
        by apply optional_request_role in Hc as [_ ->].
      * by apply optional_request_role in Hc as [_ ->].
  - intros c. rewrite calls_run, elem_of_app. intros [Hc|Hc].
    + by apply list_elem_of_fmap in Hc as (d & -> & _).
    + rewrite calls_bind, elem_of_app in Hc. destruct Hc as [Hc|Hc].
      * unfold Overlord.handleSafeMode in Hc.
        destruct (Overlord.safeModeTrigger ov); [|by apply elem_of_nil in Hc].
        destruct (controller (Overlord.room ov)); [|by apply elem_of_nil in Hc].
        by apply list_elem_of_singleton in Hc as ->.
      * destruct ((Overlord.handleSafeMode ov).2); [|by apply elem_of_nil in Hc].
        rewrite calls_placeDirectives, elem_of_app in Hc. destruct Hc as [Hc|Hc].
        -- apply list_elem_of_In, in_concat in Hc as (l & Hl & Hc).
           apply list_elem_of_In, list_elem_of_fmap in Hl as (r & -> & _).
           apply list_elem_of_In, calls_placeGuard_kind in Hc. by destruct c.
        -- apply calls_placeEmergency_kind in Hc. by destruct c.
Qed.
End OverlordRun.

(** * Further properties of the queen *)

Section QueenMore.
Import Claims QueenOverlord.
Variable isIdle : Zerg → bool.
Variable hatchery : HatcheryCluster.

(** X10.  The idle actions never send a queen that is full to withdraw.
    They send her to transfer to the battery when the hatchery has a link
    that is not empty and a battery that is not full, and leave her as she
    is in every other case. *)
Theorem X10_idle_full_queen (queen : Zerg) :
  carryCapacity queen ≤ carryEnergy queen →
  (∀ lnk bat, hlink hatchery = Some lnk → battery hatchery = Some bat →
              isEmpty lnk = false → isFull bat = false →
              idleActions hatchery queen = setTask queen (transfer bat))
  ∧ (hlink hatchery = None ∨ battery hatchery = None
     ∨ (∃ lnk, hlink hatchery = Some lnk ∧ isEmpty lnk = true)
     ∨ (∃ bat, battery hatchery = Some bat ∧ isFull bat = true) →
     idleActions hatchery queen = queen)
  ∧ (∀ tg, ztask (idleActions hatchery queen) = Some (withdraw tg) →
           ztask queen = Some (withdraw tg)).
Proof.
  intros Hfull. apply Z.ltb_ge in Hfull. unfold idleActions. rewrite Hfull.
  split; [|split].
  - intros lnk bat -> -> -> ->. done.
  - intros [Hl|[Hb|[(lnk & Hl & He)|(bat & Hb & Hf)]]].
    + rewrite Hl. by destruct (battery hatchery).
    + rewrite Hb. by destruct (hlink hatchery).
    + rewrite Hl, He. destruct (battery hatchery); [|done]. by rewrite andb_false_r.
    + rewrite Hb, Hf. by destruct (hlink hatchery).
  - intros tg. destruct (hlink hatchery) as [lnk|], (battery hatchery) as [bat|]; try done.
    by destruct (negb (isFull bat) && negb (isEmpty lnk)).
Qed.

(** X11.  With nothing to draw from, the idle actions differ by whether
    there is a link.  When the link is there but empty and the battery is
    missing or empty, or when there is neither link nor battery, the queen
    is left as she is.  When there is no link, a queen with room to carry
    is sent to withdraw from the battery whether or not it is empty. *)
Theorem X11_idle_nothing_to_draw (queen : Zerg) :
  (∀ lnk, hlink hatchery = Some lnk → isEmpty lnk = true →
          exhausted (battery hatchery) → idleActions hatchery queen = queen)
  ∧ (hlink hatchery = None → battery hatchery = None →
     idleActions hatchery queen = queen)
  ∧ (∀ bat, hlink hatchery = None → battery hatchery = Some bat →
            carryEnergy queen < carryCapacity queen →
            idleActions hatchery queen = setTask queen (withdraw bat)).
Proof.
  unfold idleActions. split; [|split].
  - intros lnk -> He [->|(bat & -> & Hb)]; rewrite He; simpl.
    + by destruct (_ <? _).
    + rewrite andb_false_r, Hb. simpl. by destruct (_ <? _).
  - by intros -> ->.
  - intros bat -> -> Hlt%Z.ltb_lt. by rewrite Hlt.
Qed.

Lemma firstActions_setTask queen tk :
  firstActions hatchery (setTask queen tk) = firstActions hatchery queen.
Proof.
  unfold firstActions, supplyActions, rechargeActions, setTask. simpl.
  repeat case_match; done.
Qed.

Lemma firstActions_is_setTask queen :
  ∃ tk, firstActions hatchery queen = setTask queen tk.
Proof.
  unfold firstActions, supplyActions, rechargeActions.
  repeat case_match; by eexists.
Qed.

Lemma idleActions_cases queen :
  idleActions hatchery queen = queen
  ∨ ∃ tk, idleActions hatchery queen = setTask queen tk.
Proof.
  unfold idleActions. repeat case_match; (by left) || (right; by eexists).
Qed.

Lemma idleActions_setTask queen tk :
  idleActions hatchery (setTask queen tk) = setTask queen tk
  ∨ idleActions hatchery (setTask queen tk) = idleActions hatchery queen.
Proof.
  unfold idleActions, setTask. simpl.
  repeat case_match; (by left) || (by right).
Qed.

(** X12.  [handleQueen] pays no attention to the task the queen had: with
    any task set before, the outcome is the same, so a task never lasts
    from one call to the next unless it is chosen again.  Handling a queen
    twice in a row gives what handling her once gives, and so do the idle
    actions. *)
Theorem X12_handleQueen_forgets_task (queen : Zerg) (tk : QueenTask) :
  handleQueen isIdle hatchery (setTask queen tk) = handleQueen isIdle hatchery queen
  ∧ handleQueen isIdle hatchery (handleQueen isIdle hatchery queen)
    = handleQueen isIdle hatchery queen
  ∧ idleActions hatchery (idleActions hatchery queen) = idleActions hatchery queen.
Proof.
  assert (Hforget : ∀ q tk', handleQueen isIdle hatchery (setTask q tk')
                             = handleQueen isIdle hatchery q).
  { intros q tk'. unfold handleQueen. by rewrite firstActions_setTask. }
  assert (Hidle : ∀ q, idleActions hatchery (idleActions hatchery q)
                       = idleActions hatchery q).
  { intros q. destruct (idleActions_cases q) as [Hq|[tk' Hq]]; rewrite Hq; [done|].
    destruct (idleActions_setTask q tk') as [Hs|Hs]; rewrite Hs; done. }
  split; [apply Hforget|]. split; [|apply Hidle].
  unfold handleQueen at 2.
  destruct (firstActions_is_setTask queen) as [tk1 Hfirst].
  destruct (isIdle (firstActions hatchery queen)) eqn:Hi.
  - rewrite Hfirst.
    destruct (idleActions_cases (setTask queen tk1)) as [Hq|[tk2 Hq]]; rewrite Hq.
    + rewrite Hforget. unfold handleQueen. by rewrite Hi, Hfirst, Hq.
    + assert (Hsame : setTask (setTask queen tk1) tk2 = setTask queen tk2) by done.
      rewrite Hsame, Hforget. unfold handleQueen. by rewrite Hi, Hfirst, Hq, Hsame.
  - rewrite Hfirst, Hforget. unfold handleQueen. by rewrite Hi.
Qed.
End QueenMore.

(** * Properties of the trade network *)

Section TradeBasics.
Import TraderJoe Trade.
Context `{!Env}.

(** A loop whose rounds only make one call each. *)
Lemma forEachM_perform {A} (l : list A) (f : A → Action) (r : Run) :
  forEachM l (λ a, let* _ := perform (f a) in retM tt) r
  = (tt, mkRun (self r) (actions r ++ (f <$> l))).
Proof.
  revert r. induction l as [|a l IH]; intros r.
  - simpl. unfold retM. destruct r. simpl. by rewrite app_nil_r.
  - cbn [forEachM]. unfold bindM at 1. unfold bindM at 1. unfold perform at 1. simpl.
    rewrite IH. simpl. by rewrite <-app_assoc.
Qed.

Lemma cleanUp_run (r : Run) :
  cleanUpInactiveOrders r
  = (tt, mkRun (self r)
           (actions r ++ ((λ o, cancelOrder (id o))
                            <$> List.filter toClean (orders (market Game))))).
Proof. unfold cleanUpInactiveOrders. apply forEachM_perform. Qed.

(** X13.  [cleanUpInactiveOrders] cancels my orders that pass its test, in
    the order in which they are listed, and does nothing else.  An order
    with 10 units or more remaining, placed from a room that is still a
    colony or from no room at all, is never cancelled; an order placed from
    a room that is no longer a colony always is. *)
Theorem X13_cleanup_spares_live_orders (r : Run) :
  let r' := (cleanUpInactiveOrders r).2 in
  self r' = self r
  ∧ actions r' = actions r ++ newActions r r'
  ∧ newActions r r'
    = (λ o, cancelOrder (id o)) <$> List.filter toClean (orders (market Game))
  ∧ (∀ o, o ∈ orders (market Game) →
          cleanupAmount ≤ remainingAmount o →
          (∀ rn, roomName o = Some rn → rn = "" ∨ rn ∈ colonies) →
          (∀ o', o' ∈ orders (market Game) → id o' = id o → o' = o) →
          cancelOrder (id o) ∉ newActions r r')
  ∧ (∀ o rn, o ∈ orders (market Game) → roomName o = Some rn → rn ≠ "" →
             rn ∉ colonies → cancelOrder (id o) ∈ newActions r r').
Proof.
  intros r'. subst r'. rewrite cleanUp_run. unfold newActions. simpl.
  rewrite drop_app_length.
  split; [done|]. split; [done|]. split; [done|]. split.
  - intros o Ho Hrem Hroom Huniq (o' & Hid & Ho')%list_elem_of_fmap.
    apply list_elem_of_In, filter_In in Ho' as [Ho' Hclean].
    apply list_elem_of_In in Ho'. injection Hid as Hid.
    rewrite (Huniq o' Ho' (eq_sym Hid)) in Hclean. clear Hid Ho' o'.
    unfold toClean, cleanupAmount in *.
    apply orb_prop in Hclean as [Hclean|Hclean].
    + apply orb_prop in Hclean as [Hclean|Hclean].
      * apply andb_prop in Hclean as [_ Hz%Z.eqb_eq]. lia.
      * apply andb_prop in Hclean as [_ Hz%Z.ltb_lt]. lia.
    + apply andb_prop in Hclean as [Hname Hdead].
      unfold hasRoomName in Hname. destruct (roomName o) as [rn|]; [|done].
      apply negb_true_iff, bool_decide_eq_false in Hname, Hdead. simpl in Hdead.
      destruct (Hroom rn eq_refl); done.
  - intros o rn Ho Hrn Hne Hdead. apply list_elem_of_fmap. exists o. split; [done|].
    apply list_elem_of_In, filter_In. split; [by apply list_elem_of_In|].
    unfold toClean, hasRoomName. rewrite Hrn. simpl.
    rewrite (bool_decide_eq_false_2 _ Hne), (bool_decide_eq_false_2 _ Hdead). simpl.
    by rewrite orb_true_r.
Qed.
End TradeBasics.

Section TradeStats.
Import TraderJoe Trade.
Context `{!Env}.

Lemma leading_app_stale (time : Z) (fresh rest : list Transaction) (stale : Transaction) :
  txTime stale < time →
  leading time (fresh ++ stale :: rest) = leading time (fresh ++ [stale]).
Proof.
  intros Hstale%Z.ltb_lt. induction fresh as [|tx fresh IH]; simpl.
  - by rewrite Hstale.
  - destruct (txTime tx <? time); [done|]. by rewrite IH.
Qed.

Lemma amountOf_insert (m : gmap string ResourceStats) (k res : string) (v : ResourceStats) :
  amountOf (<[k := v]> m) res = if bool_decide (k = res) then statAmount v else amountOf m res.
Proof.
  unfold amountOf. case_bool_decide as Hk.
  - subst. by rewrite lookup_insert_eq.
  - by rewrite lookup_insert_ne.
Qed.

Lemma tally_amount (time : Z) (res : string) (txs : list Transaction)
    (acc : gmap string ResourceStats) :
  amountOf (tally time txs acc) res
  = amountOf acc res + sumAmounts (counted time res txs).
Proof.
  revert acc. unfold counted.
  induction txs as [|tx txs IH]; intros acc; [simpl; lia|].
  cbn [tally leading]. destruct (txTime tx <? time); [simpl; lia|].
  cbn [List.filter]. destruct (txOrderPrice tx) as [p|] eqn:Hp.
  - rewrite IH, amountOf_insert.
    rewrite (bool_decide_eq_true_2 (is_Some (Some p))) by by eexists.
    simpl. case_bool_decide as Hres.
    + subst res. simpl. unfold amountOf.
      destruct (acc !! txResourceType tx); simpl; lia.
    + done.
  - rewrite IH. rewrite (bool_decide_eq_false_2 (is_Some None)) by by intros [? ?].
    done.
Qed.

Lemma tally_untouched (time : Z) (res : string) (txs : list Transaction)
    (acc : gmap string ResourceStats) :
  counted time res txs = [] → tally time txs acc !! res = acc !! res.
Proof.
  revert acc. unfold counted.
  induction txs as [|tx txs IH]; intros acc; [done|].
  cbn [tally leading]. destruct (txTime tx <? time); [done|].
  cbn [List.filter]. destruct (txOrderPrice tx) as [p|] eqn:Hp.
  - rewrite (bool_decide_eq_true_2 (is_Some (Some p))) by by eexists.
    simpl. case_bool_decide as Hres; [done|].
    intros Hnil. rewrite IH by done. by rewrite lookup_insert_ne.
  - rewrite (bool_decide_eq_false_2 (is_Some None)) by by intros [? ?].
    simpl. apply IH.
Qed.

(** X20.  [recordStats] sets the credits of the stats to those of the
    market and adds, for each resource, the amounts of the transactions of
    the market that came from an order, reading each list only up to the
    first transaction older than the previous tick: what is listed after
    such a transaction is not counted, however recent.  A resource without
    a counted transaction among the incoming ones keeps its record of what
    was bought, or its lack of one, and likewise for the outgoing ones and
    what was sold.  Nothing else changes and no call is made. *)
Theorem X20_recordStats_reads_until_stale (r : Run) (res : string) :
  let r' := (recordStats r).2 in
  let time := time Game - 1 in
  statsCredits (stats (self r')) = credits (market Game)
  ∧ amountOf (bought (stats (self r'))) res
    = amountOf (bought (stats (self r))) res
      + sumAmounts (counted time res (incomingTransactions (market Game)))
  ∧ amountOf (sold (stats (self r'))) res
    = amountOf (sold (stats (self r))) res
      + sumAmounts (counted time res (outgoingTransactions (market Game)))
  ∧ (counted time res (incomingTransactions (market Game)) = [] →
     bought (stats (self r')) !! res = bought (stats (self r)) !! res)
  ∧ (counted time res (outgoingTransactions (market Game)) = [] →
     sold (stats (self r')) !! res = sold (stats (self r)) !! res)
  ∧ (∀ fresh stale rest, txTime stale < time →
       counted time res (fresh ++ stale :: rest) = counted time res fresh)
  ∧ actions r' = actions r
  ∧ memory (self r') = memory (self r)
  ∧ notifications (self r') = notifications (self r).
Proof.
  intros r' time'. subst r'. unfold recordStats, bindM, getSelf, setStats. simpl.
  split; [done|]. split; [apply tally_amount|]. split; [apply tally_amount|].
  split; [apply tally_untouched|]. split; [apply tally_untouched|].
  split; [|done].
  intros fresh stale rest Hstale. unfold counted.
  rewrite leading_app_stale by done. f_equal.
  apply Z.ltb_lt in Hstale. induction fresh as [|tx fresh IH]; simpl.
  - by rewrite Hstale.
  - destruct (txTime tx <? time'); [done|]. by rewrite IH.
Qed.

Lemma run_stats (r : Run) :
  stats (self (run r).2) = stats (self (recordStats r).2).
Proof.
  unfold run, bindM, whenM.
  destruct (Z.rem (time Game) 10 =? 0).
  - rewrite cleanUp_run. unfold getSelf. simpl.
    by destruct (notifications (self r)).
  - unfold retM, getSelf. simpl. by destruct (notifications (self r)).
Qed.

(** X14.  [run] cancels orders only on ticks that are a multiple of 10,
    prints the notifications when there are any without ever removing them,
    and records the stats; it makes no deal and creates, changes or extends
    no order, and leaves the memory as it is.  The stats it leaves are
    those that [recordStats] leaves on the state before the call: the
    credits of the market, and for each resource the amounts bought and
    sold raised by the transactions counted, a resource without a counted
    transaction keeping its record or its lack of one. *)
Theorem X14_run_cleans_every_tenth_tick (r : Run) :
  let r' := (run r).2 in
  let time := time Game - 1 in
  actions r'
  = actions r
    ++ (if Z.rem (TraderJoe.time Game) 10 =? 0
        then (λ o, cancelOrder (id o)) <$> List.filter toClean (orders (market Game))
        else [])
    ++ (match notifications (self r) with
        | [] => []
        | _ :: _ => [logInfo (notifications (self r))]
        end)
  ∧ notifications (self r') = notifications (self r)
  ∧ memory (self r') = memory (self r)
  ∧ statsCredits (stats (self r')) = credits (market Game)
  ∧ stats (self r') = stats (self (recordStats r).2)
  ∧ ∀ res,
      amountOf (bought (stats (self r'))) res
      = amountOf (bought (stats (self r))) res
        + sumAmounts (counted time res (incomingTransactions (market Game)))
      ∧ amountOf (sold (stats (self r'))) res
        = amountOf (sold (stats (self r))) res
          + sumAmounts (counted time res (outgoingTransactions (market Game)))
      ∧ (counted time res (incomingTransactions (market Game)) = [] →
         bought (stats (self r')) !! res = bought (stats (self r)) !! res)
      ∧ (counted time res (outgoingTransactions (market Game)) = [] →
         sold (stats (self r')) !! res = sold (stats (self r)) !! res).
Proof.
  intros r' time'. subst r'.
  assert (actions (run r).2
          = actions r
            ++ (if Z.rem (time Game) 10 =? 0
                then (λ o, cancelOrder (id o))
                       <$> List.filter toClean (orders (market Game))
                else [])
            ++ (match notifications (self r) with
                | [] => []
                | _ :: _ => [logInfo (notifications (self r))]
                end)
          ∧ notifications (self (run r).2) = notifications (self r)
          ∧ memory (self (run r).2) = memory (self r)) as (Hacts & Hnotes & Hmem).
  { unfold run, bindM, whenM.
    destruct (Z.rem (time Game) 10 =? 0).
    - rewrite cleanUp_run. unfold getSelf. simpl.
      destruct (notifications (self r)) as [|n ns] eqn:Hn; simpl.
      + unfold retM, recordStats, bindM, getSelf, setStats. simpl.
        by rewrite app_nil_r.
      + unfold perform, retM, recordStats, bindM, getSelf, setStats. simpl.
        by rewrite Hn, <-app_assoc.
    - unfold retM, getSelf. simpl.
      destruct (notifications (self r)) as [|n ns] eqn:Hn; simpl.
      + unfold recordStats, bindM, getSelf, setStats. simpl. by rewrite app_nil_r.
      + unfold perform, recordStats, bindM, getSelf, setStats. simpl. by rewrite Hn. }
  do 3 (split; [done|]). rewrite run_stats.
  unfold recordStats, bindM, getSelf, setStats. simpl.
  do 2 (split; [done|]). intros res.
  split; [apply tally_amount|]. split; [apply tally_amount|].
  split; apply tally_untouched.
Qed.
End TradeStats.

Section TradeOrders.
Import TraderJoe Trade.
Context `{!Env}.

Lemma adds_refl (r : Run) : adds r r [] [].
Proof. unfold adds. by rewrite !app_nil_r. Qed.

Lemma adds_trans (r1 r2 r3 : Run) acts1 notes1 acts2 notes2 :
  adds r1 r2 acts1 notes1 → adds r2 r3 acts2 notes2 →
  adds r1 r3 (acts1 ++ acts2) (notes1 ++ notes2).
Proof.
  intros (Ha1 & Hn1 & Hm1 & Hs1) (Ha2 & Hn2 & Hm2 & Hs2). unfold adds.
  rewrite Ha2, Ha1, Hn2, Hn1, Hm2, Hm1, Hs2, Hs1, !app_assoc. done.
Qed.

Lemma ltb_ne (a b : Qc) : ltb a b = true → a ≠ b ∧ b ≠ a.
Proof.
  intros Hlt%bool_decide_eq_true. apply Qclt_not_eq in Hlt. split; congruence.
Qed.

Lemma maintainOne_adds terminal resource amount marketLow order (r : Run) :
  ∃ acts notes,
    adds r (maintainOne terminal resource amount marketLow order r).2 acts notes
    ∧ length notes = length acts
    ∧ ∀ a, a ∈ acts → maintains marketLow amount order a.
Proof.
  unfold maintainOne, bindM, whenM.
  assert (Hprice : ltb marketLow (price order)
                   || (ltb (price order) marketLow && (remainingAmount order =? 0)) = true
                   → price order ≠ marketLow).
  { intros [Hlt|[Hlt _]%andb_prop]%orb_prop; apply ltb_ne in Hlt; tauto. }
  destruct (ltb marketLow (price order)
            || (ltb (price order) marketLow && (remainingAmount order =? 0))) eqn:Hchange;
    destruct (Z.ltb_spec (remainingAmount order) 2000) as [Hlow|Hhigh];
    unfold perform, notify, retM; simpl.
  - exists [changeOrderPrice (id order) marketLow;
            extendOrder (id order) (amount - remainingAmount order)].
    eexists. split; [|split].
    + unfold adds. simpl. rewrite <-!app_assoc. by repeat split.
    + done.
    + intros a [->|Ha]%elem_of_cons; [left; auto|].
      apply list_elem_of_singleton in Ha as ->. by right.
  - exists [changeOrderPrice (id order) marketLow]. eexists. split; [|split].
    + unfold adds. simpl. by repeat split.
    + done.
    + intros a ->%list_elem_of_singleton. left; auto.
  - exists [extendOrder (id order) (amount - remainingAmount order)]. eexists.
    split; [|split].
    + unfold adds. simpl. by repeat split.
    + done.
    + intros a ->%list_elem_of_singleton. by right.
  - exists [], []. split; [|split; [done|]].
    + destruct r. apply adds_refl.
    + intros a Ha. by apply elem_of_nil in Ha.
Qed.

Lemma maintainLoop_adds terminal resource amount marketLow (l : list Order) (r : Run) :
  ∃ acts notes,
    adds r (forEachM l (maintainOne terminal resource amount marketLow) r).2 acts notes
    ∧ length notes = length acts
    ∧ ∀ a, a ∈ acts → ∃ o, o ∈ l ∧ maintains marketLow amount o a.
Proof.
  revert r. induction l as [|o l IH]; intros r.
  - exists [], []. split; [apply adds_refl|]. split; [done|].
    intros a Ha. by apply elem_of_nil in Ha.
  - cbn [forEachM]. unfold bindM at 1.
    destruct (maintainOne_adds terminal resource amount marketLow o r)
      as (acts1 & notes1 & Hadds1 & Hlen1 & Hall1).
    destruct (maintainOne terminal resource amount marketLow o r) as [[] r1].
    destruct (IH r1) as (acts2 & notes2 & Hadds2 & Hlen2 & Hall2).
    exists (acts1 ++ acts2), (notes1 ++ notes2).
    split; [by eapply adds_trans|]. split; [by rewrite !length_app, Hlen1, Hlen2|].
    intros a [Ha|Ha]%elem_of_app.
    + exists o. split; [apply list_elem_of_here|by apply Hall1].
    + destruct (Hall2 a Ha) as (o' & Ho' & Hm). exists o'.
      split; [by apply list_elem_of_further|done].
Qed.

(** X15.  [maintainSellOrder] only adds calls and notifications, one
    notification for each call.  Without a market low for the resource in
    the cache, or with a market low of 0, it does nothing.  Otherwise, when
    I have no sell order for the resource in the room of the terminal, it
    creates one at the market low for the amount asked, and that is all;
    when I have some, it creates none, and each call it makes either sets
    the price of one of them, which differs from the market low, to the
    market low, or extends one with less than 2000 remaining by what is
    missing to the amount asked. *)
Theorem X15_maintainSellOrder_calls (terminal : Terminal) (resource : string)
    (amount : Z) (r : Run) :
  let r' := (maintainSellOrder terminal resource amount r).2 in
  let mine := mySellOrders terminal resource in
  let entry := sell (cache (memory (self r))) !! resource in
  (entry = None ∨ (∃ range, entry = Some range ∧ low range = ofZ 0) → r' = r)
  ∧ ∃ acts notes,
      adds r r' acts notes ∧ length notes = length acts
      ∧ ∀ range, entry = Some range → low range ≠ ofZ 0 →
          (mine = [] →
           acts = [createOrder ORDER_SELL resource (low range) amount (troom terminal)])
          ∧ (mine ≠ [] →
             ∀ a, a ∈ acts → ∃ o, o ∈ mine ∧ maintains (low range) amount o a).
Proof.
  intros r' mine entry. subst r' entry.
  unfold maintainSellOrder, bindM, getSelf. fold (mySellOrders terminal resource). fold mine.
  destruct (sell (cache (memory (self r))) !! resource) as [range|].
  2:{ split; [done|]. exists [], []. split; [apply adds_refl|]. by split. }
  case_bool_decide as Hzero.
  { split; [done|]. exists [], []. split; [apply adds_refl|]. split; [done|].
    by intros range' [= <-] Hne. }
  split; [by intros [?|(range' & [= <-] & ?)]|].
  destruct mine as [|o mine'] eqn:Hmine.
  - unfold perform, notify. simpl.
    exists [createOrder ORDER_SELL resource (low range) amount (troom terminal)].
    eexists. split; [|split].
    + unfold adds. simpl. by repeat split.
    + done.
    + intros range' [= <-] _. by split.
  - destruct (maintainLoop_adds terminal resource amount (low range) (o :: mine') r)
      as (acts & notes & Hadds & Hlen & Hall).
    exists acts, notes. split; [done|]. split; [done|].
    intros range' [= <-] _. by split.
Qed.
End TradeOrders.

Section TradeDeals.
Import TraderJoe Trade.
Context `{!Env}.

Lemma ltb_false_le (a b : Qc) : ltb a b = false → (b ≤ a)%Qc.
Proof. intros Hlt%bool_decide_eq_false. by apply Qcnot_lt_le. Qed.

(** [sellDirectly] makes at most one call, a deal. *)
Lemma sellDirectly_deals (terminal : Terminal) (resource : string)
    (amount : Z) (r : Run) :
  ∃ acts notes,
    adds r (sellDirectly terminal resource amount r).2 acts notes
    ∧ (length acts ≤ 1)%nat ∧ ∀ a, a ∈ acts → isDeal a = true.
Proof.
  unfold sellDirectly.
  destruct (maxBy _ _) as [order|].
  2:{ exists [], []. split; [apply adds_refl|]. split; [simpl; lia|].
      intros a Ha. by apply elem_of_nil in Ha. }
  destruct (_ <? _).
  2:{ exists [], []. split; [apply adds_refl|]. split; [simpl; lia|].
      intros a Ha. by apply elem_of_nil in Ha. }
  eexists [_]. eexists. split; [|split].
  - unfold bindM, perform, logTransaction, notify, retM, adds. simpl.
    by repeat split.
  - simpl. lia.
  - by intros a ->%list_elem_of_singleton.
Qed.

(** X17.  [sellDirectly] either does nothing and returns nothing, or makes
    one deal and returns the answer of the market.  The deal is with the
    order that [maxBy] picked, for the smaller of the amount of the order
    and the amount asked, and is made only if its cost in energy is
    strictly below the energy of the terminal.  The notification states the
    amount asked, also when the order was smaller and less was sold. *)
Theorem X17_sellDirectly_one_deal (terminal : Terminal) (resource : string)
    (amount : Z) (r : Run) :
  let result := (sellDirectly terminal resource amount r).1 in
  let r' := (sellDirectly terminal resource amount r).2 in
  (r' = r ∧ result = None)
  ∨ ∃ order sold response,
      maxBy (getAllOrders (λ o, bool_decide (type o = ORDER_BUY)
                                && bool_decide (resourceType o = resource)
                                && (amount <=? TraderJoe.amount o)))
            (λ order, effectiveBuyPrice order terminal) = Some order
      ∧ sold = Z.min (TraderJoe.amount order) amount
      ∧ sold ≤ amount ∧ sold ≤ TraderJoe.amount order
      ∧ calcTransactionCost sold (Some (troom terminal)) (roomName order)
        < energy terminal
      ∧ response = respond (actions r) (deal (id order) sold (troom terminal))
      ∧ result = Some response
      ∧ adds r r' [deal (id order) sold (troom terminal)]
             [transacted order (troom terminal) amount response].
Proof.
  intros result r'. subst result r'. unfold sellDirectly.
  destruct (maxBy _ _) as [order|]; [|by left].
  destruct (Z.ltb_spec
              (calcTransactionCost (Z.min (TraderJoe.amount order) amount)
                 (Some (troom terminal)) (roomName order))
              (energy terminal)) as [Hcost|Hcost]; [|by left].
  right. exists order, (Z.min (TraderJoe.amount order) amount).
  eexists. split; [done|]. split; [done|]. split; [lia|]. split; [lia|].
  split; [done|].
  split; [reflexivity|].
  unfold bindM, perform, logTransaction, notify, retM. simpl. by repeat split.
Qed.

Lemma maintainSellOrder_no_deal (terminal : Terminal) (resource : string)
    (amount : Z) (r : Run) :
  ∃ acts notes,
    adds r (maintainSellOrder terminal resource amount r).2 acts notes
    ∧ ∀ a, a ∈ acts → isDeal a = false.
Proof.
  unfold maintainSellOrder, bindM, getSelf.
  destruct (sell (cache (memory (self r))) !! resource) as [range|].
  2:{ exists [], []. split; [apply adds_refl|]. intros a Ha. by apply elem_of_nil in Ha. }
  case_bool_decide.
  { exists [], []. split; [apply adds_refl|]. intros a Ha. by apply elem_of_nil in Ha. }
  destruct (List.filter _ _) as [|o mine] eqn:Hmine.
  - unfold perform, notify. simpl. eexists [_]. eexists. split.
    + unfold adds. simpl. by repeat split.
    + by intros a ->%list_elem_of_singleton.
  - destruct (maintainLoop_adds terminal resource amount (low range) (o :: mine) r)
      as (acts & notes & Hadds & _ & Hall).
    exists acts, notes. split; [done|].
    intros a Ha. by destruct (Hall a Ha) as (o' & _ & [[-> _]|[-> _]]).
Qed.

(** X16.  [sell] takes one of two ways and never mixes them.  With credits
    below the reserve of 10000 it sells directly: it makes at most one call,
    a deal.  With credits at the reserve or above it maintains the sell
    order: it makes no deal and returns nothing. *)
Theorem X16_sell_by_reserve (terminal : Terminal) (resource : string)
    (amount : Z) (r : Run) :
  let result := (sellResource terminal resource amount r).1 in
  let r' := (sellResource terminal resource amount r).2 in
  ∃ acts notes,
    adds r r' acts notes
    ∧ ((credits (market Game) < ofZ reserveCredits)%Qc →
       (length acts ≤ 1)%nat ∧ ∀ a, a ∈ acts → isDeal a = true)
    ∧ ((ofZ reserveCredits ≤ credits (market Game))%Qc →
       result = None ∧ ∀ a, a ∈ acts → isDeal a = false).
Proof.
  intros result r'. subst result r'. unfold sellResource.
  destruct (ltb (credits (market Game)) (ofZ reserveCredits)) eqn:Hcredits.
  - apply bool_decide_eq_true in Hcredits.
    destruct (sellDirectly_deals terminal resource amount r)
      as (acts & notes & Hadds & Hlen & Hall).
    exists acts, notes. split; [done|]. split; [done|].
    intros Hle. by apply Qcle_not_lt in Hle.
  - apply bool_decide_eq_false in Hcredits. unfold bindM.
    destruct (maintainSellOrder_no_deal terminal resource amount r)
      as (acts & notes & Hadds & Hall).
    destruct (maintainSellOrder terminal resource amount r) as [[] r1]. simpl in *.
    exists acts, notes. split; [done|]. split; [done|]. by intros _.
Qed.
End TradeDeals.

Section TradeBuying.
Import TraderJoe Trade.
Context `{!Env}.

Lemma leb_true_le (a b : Qc) : leb a b = true → (a ≤ b)%Qc.
Proof. by intros Hle%bool_decide_eq_true. Qed.

(** No price of the table is above the default of 5.0. *)
Lemma maxMarketPrices_le (mineralType : string) (p : Qc) :
  maxMarketPrices !! mineralType = Some p → (p ≤ c5_0)%Qc.
Proof.
  intros Hp%elem_of_list_to_map_2.
  repeat (apply elem_of_cons in Hp as [[= _ ->]|Hp]; [by vm_compute|]).
  by apply elem_of_nil in Hp.
Qed.

Lemma maxPriceFor_le (mineralType : string) : (maxPriceFor mineralType ≤ c5_0)%Qc.
Proof.
  unfold maxPriceFor. destruct (maxMarketPrices !! mineralType) as [p|] eqn:Hp.
  - case_bool_decide; [apply Qcle_refl|]. by eapply maxMarketPrices_le.
  - apply Qcle_refl.
Qed.

(** X18.  [buyMineral] either does nothing or makes one deal, for the
    amount asked raised to [TERMINAL_MIN_SEND], with the order that [minBy]
    picked among the sell orders of the mineral that offer that much.  It
    deals only with credits at the reserve of 10000 or above, a terminal
    that is not cooling down and holds 10000 energy or more, and free room
    in the terminal for the amount.  On a shard of the official server the
    price of the order is at most the maximum price of the mineral, which is
    never above 5.0. *)
Theorem X18_buyMineral_limits (terminal : Terminal) (mineralType : string)
    (amount : Z) (r : Run) :
  let r' := (buyMineral terminal mineralType amount r).2 in
  let bought := Z.max amount TERMINAL_MIN_SEND in
  r' = r
  ∨ ∃ bestOrder response,
      minBy (getAllOrders (λ order, bool_decide (type order = ORDER_SELL)
                                    && bool_decide (resourceType order = mineralType)
                                    && (bought <=? TraderJoe.amount order)))
            price = Some bestOrder
      ∧ (ofZ reserveCredits ≤ credits (market Game))%Qc
      ∧ cooldown terminal ≤ 0
      ∧ 10000 ≤ energy terminal
      ∧ bought ≤ storeCapacity terminal - storeSum terminal
      ∧ (onMMO = true →
         (price bestOrder ≤ maxPriceFor mineralType)%Qc
         ∧ (price bestOrder ≤ c5_0)%Qc)
      ∧ response = respond (actions r) (deal (id bestOrder) bought (troom terminal))
      ∧ adds r r' [deal (id bestOrder) bought (troom terminal)]
             [transacted bestOrder (troom terminal) bought response].
Proof.
  intros r' bought. subst r' bought. unfold buyMineral.
  destruct (ltb (credits (market Game)) (ofZ reserveCredits)) eqn:Hcredits;
    [by left|].
  destruct (Z.ltb_spec 0 (cooldown terminal)) as [Hcool|Hcool]; [by left|].
  cbn [orb].
  destruct (Z.ltb_spec (energy terminal) 10000) as [Henergy|Henergy]; [by left|].
  destruct (Z.ltb_spec (storeCapacity terminal - storeSum terminal)
              (Z.max amount TERMINAL_MIN_SEND)) as [Hfree|Hfree]; [by left|].
  cbn [orb].
  destruct (minBy _ _) as [bestOrder|] eqn:Hbest; [|by left].
  destruct (match (if onMMO then Num (maxPriceFor mineralType) else Inf) with
            | Num p => leb (price bestOrder) p
            | Inf => true
            end) eqn:Hprice; [|by left].
  right. exists bestOrder. eexists.
  split; [done|]. split; [by apply ltb_false_le|].
  split; [done|]. split; [done|]. split; [done|]. split.
  - intros HMMO. rewrite HMMO in Hprice. apply leb_true_le in Hprice.
    split; [done|]. eapply Qcle_trans; [exact Hprice|apply maxPriceFor_le].
  - split; [reflexivity|].
    unfold bindM, perform, logTransaction, notify. simpl. by repeat split.
Qed.

(** X19.  [lookForGoodDeals] either does nothing or makes one deal with
    the buy order that [maxBy] picked.  It deals only with credits at the
    reserve of 10000 or above, when the cache has a sell range for the
    mineral and the order pays strictly more than the low of that range
    times the margin, and when the cost of the transfer in energy is
    strictly below the energy of the terminal.  The deal is for the amount
    of the order and never for more than 10000. *)
Theorem X19_lookForGoodDeals_limits (terminal : Terminal) (mineral : string)
    (margin : Qc) (r : Run) :
  let r' := (lookForGoodDeals terminal mineral margin r).2 in
  r' = r
  ∨ ∃ order range response,
      let dealt := Z.min (TraderJoe.amount order) 10000 in
      let wanted := if bool_decide (mineral = RESOURCE_POWER) then 100 else 5000 in
      maxBy (getAllOrders (λ o, bool_decide (type o = ORDER_BUY)
                                && bool_decide (resourceType o = mineral)
                                && (wanted <=? TraderJoe.amount o)))
            (λ order, effectiveBuyPrice order terminal) = Some order
      ∧ (ofZ reserveCredits ≤ credits (market Game))%Qc
      ∧ sell (cache (memory (self r))) !! mineral = Some range
      ∧ (fmul (low range) margin < price order)%Qc
      ∧ calcTransactionCost dealt (Some (troom terminal)) (roomName order)
        < energy terminal
      ∧ dealt ≤ 10000
      ∧ response = respond (actions r) (deal (id order) dealt (troom terminal))
      ∧ adds r r' [deal (id order) dealt (troom terminal)]
             [transacted order (troom terminal) dealt response].
Proof.
  intros r'. subst r'. unfold lookForGoodDeals.
  destruct (ltb (credits (market Game)) (ofZ reserveCredits)) eqn:Hcredits;
    [by left|].
  unfold bindM, getSelf.
  destruct (sell (cache (memory (self r))) !! mineral) as [range|] eqn:Hrange;
    [|by left].
  destruct (maxBy _ _) as [order|]; [|by left].
  destruct (ltb (fmul (low range) margin) (price order)) eqn:Hmargin; [|by left].
  destruct (Z.ltb_spec
              (calcTransactionCost (Z.min (TraderJoe.amount order) 10000)
                 (Some (troom terminal)) (roomName order))
              (energy terminal)) as [Hcost|Hcost]; [|by left].
  right. exists order, range. eexists.
  split; [done|]. split; [by apply ltb_false_le|]. split; [done|].
  split; [by apply bool_decide_eq_true in Hmargin|]. split; [done|].
  split; [lia|]. split; [reflexivity|].
  unfold perform, logTransaction, notify. simpl. by repeat split.
Qed.
End TradeBuying.

Section TradeCache.
Import TraderJoe Trade.
Context `{!Env}.

Lemma filter_filter_andb {A} (f g : A → bool) (l : list A) :
  List.filter f (List.filter g l) = List.filter (λ x, g x && f x) l.
Proof.
  induction l as [|x l IH]; [done|]. simpl.
  destruct (g x); simpl; [|done]. destruct (f x); by rewrite IH.
Qed.

Lemma maxOf_spec (p : Qc) (ps : list Qc) :
  maxOf p ps ∈ p :: ps ∧ ∀ q, q ∈ p :: ps → (q ≤ maxOf p ps)%Qc.
Proof.
  revert p. induction ps as [|x ps IH]; intros p.
  - split; [apply list_elem_of_here|].
    intros q ->%list_elem_of_singleton. apply Qcle_refl.
  - unfold maxOf in *. cbn [foldl].
    destruct (IH (if ltb p x then x else p)) as [Hin Hmax].
    assert ((p ≤ if ltb p x then x else p)%Qc
            ∧ (x ≤ if ltb p x then x else p)%Qc) as [Hp Hx].
    { unfold ltb. case_bool_decide as Hlt.
      - split; [by apply Qclt_le_weak|apply Qcle_refl].
      - split; [apply Qcle_refl|by apply Qcnot_lt_le]. }
    split.
    + apply elem_of_cons in Hin as [Heq|Hin].
      * rewrite Heq. destruct (ltb p x); [right|]; apply list_elem_of_here.
      * by do 2 right.
    + intros q [->|[->|Hq]%elem_of_cons]%elem_of_cons.
      * eapply Qcle_trans; [exact Hp|]. apply Hmax, list_elem_of_here.
      * eapply Qcle_trans; [exact Hx|]. apply Hmax, list_elem_of_here.
      * apply Hmax. by right.
Qed.

Lemma minOf_spec (p : Qc) (ps : list Qc) :
  minOf p ps ∈ p :: ps ∧ ∀ q, q ∈ p :: ps → (minOf p ps ≤ q)%Qc.
Proof.
  revert p. induction ps as [|x ps IH]; intros p.
  - split; [apply list_elem_of_here|].
    intros q ->%list_elem_of_singleton. apply Qcle_refl.
  - unfold minOf in *. cbn [foldl].
    destruct (IH (if ltb x p then x else p)) as [Hin Hmin].
    assert (((if ltb x p then x else p) ≤ p)%Qc
            ∧ ((if ltb x p then x else p) ≤ x)%Qc) as [Hp Hx].
    { unfold ltb. case_bool_decide as Hlt.
      - split; [by apply Qclt_le_weak|apply Qcle_refl].
      - split; [apply Qcle_refl|by apply Qcnot_lt_le]. }
    split.
    + apply elem_of_cons in Hin as [Heq|Hin].
      * rewrite Heq. destruct (ltb x p); [right|]; apply list_elem_of_here.
      * by do 2 right.
    + intros q [->|[->|Hq]%elem_of_cons]%elem_of_cons.
      * eapply Qcle_trans; [|exact Hp]. apply Hmin, list_elem_of_here.
      * eapply Qcle_trans; [|exact Hx]. apply Hmin, list_elem_of_here.
      * apply Hmin. by right.
Qed.

(** The range of a group: both ends are prices of the group, and every
    price of the group lies between them. *)
Lemma rangeOf_spec (g : list Order) (range : PriceRange) :
  rangeOf g = Some range →
  ∃ oh ol, oh ∈ g ∧ ol ∈ g ∧ high range = price oh ∧ low range = price ol
           ∧ ∀ o, o ∈ g → (low range ≤ price o)%Qc ∧ (price o ≤ high range)%Qc.
Proof.
  destruct g as [|o os]; [done|]. intros [= <-]. cbn [high low].
  destruct (maxOf_spec (price o) (price <$> os)) as [Hmax_in Hmax].
  destruct (minOf_spec (price o) (price <$> os)) as [Hmin_in Hmin].
  change (price o :: (price <$> os)) with (price <$> o :: os) in *.
  apply list_elem_of_fmap in Hmax_in as (oh & Hoh & Hin_h).
  apply list_elem_of_fmap in Hmin_in as (ol & Hol & Hin_l).
  exists oh, ol. split; [done|]. split; [done|]. split; [done|]. split; [done|].
  intros o' Ho'. split.
  - apply Hmin. apply list_elem_of_fmap. by exists o'.
  - apply Hmax. apply list_elem_of_fmap. by exists o'.
Qed.

Lemma rangeOf_None (g : list Order) : rangeOf g = None → g = [].
Proof. by destruct g. Qed.

Lemma lookupGroup_groupInsert (k k' : string) (o : Order)
    (gs : list (string * list Order)) :
  lookupGroup k (groupInsert k' o gs)
  = if bool_decide (k = k') then Some (default [] (lookupGroup k gs) ++ [o])
    else lookupGroup k gs.
Proof.
  induction gs as [|[k'' g] gs IH]; simpl.
  - by case_bool_decide.
  - destruct (bool_decide (k' = k'')) eqn:Hk'; simpl.
    + apply bool_decide_eq_true in Hk' as ->.
      by case_bool_decide.
    + apply bool_decide_eq_false in Hk'. rewrite IH.
      repeat case_bool_decide; subst; done.
Qed.

Lemma groupBy_snoc (l : list Order) (o : Order) (key : Order → string) :
  groupBy (l ++ [o]) key = groupInsert (key o) o (groupBy l key).
Proof. unfold groupBy. by rewrite foldl_app. Qed.

(** The group of a key holds the orders with that key, in the order of the
    list; there is no group for a key that no order has. *)
Lemma lookupGroup_groupBy (l : list Order) (key : Order → string) (k : string) :
  lookupGroup k (groupBy l key)
  = match List.filter (λ o, bool_decide (key o = k)) l with
    | [] => None
    | g => Some g
    end.
Proof.
  induction l as [|o l IH] using rev_ind; [done|].
  rewrite groupBy_snoc, lookupGroup_groupInsert, IH, List.filter_app. simpl.
  destruct (bool_decide (key o = k)) eqn:Hk.
  - apply bool_decide_eq_true in Hk. rewrite bool_decide_eq_true_2 by done.
    by destruct (List.filter _ l).
  - apply bool_decide_eq_false in Hk. rewrite bool_decide_eq_false_2 by done.
    by rewrite app_nil_r.
Qed.

Lemma groupInsert_keys (k k' : string) (o : Order) (gs : list (string * list Order)) :
  k' ∈ (groupInsert k o gs).*1 → k' = k ∨ k' ∈ gs.*1.
Proof.
  induction gs as [|[k'' g] gs IH]; simpl.
  - intros ->%list_elem_of_singleton. by left.
  - case_bool_decide; simpl; [by right|].
    intros [->|Hin]%elem_of_cons; [right; apply list_elem_of_here|].
    destruct (IH Hin) as [->|Hin']; [by left|]. right. by right.
Qed.

Lemma NoDup_groupInsert (k : string) (o : Order) (gs : list (string * list Order)) :
  NoDup gs.*1 → NoDup (groupInsert k o gs).*1.
Proof.
  induction gs as [|[k' g] gs IH]; simpl.
  - intros _. apply NoDup_singleton.
  - intros [Hnotin Hnodup]%NoDup_cons. case_bool_decide as Hk; simpl.
    + by apply NoDup_cons.
    + apply NoDup_cons. split; [|by apply IH].
      intros [->|Hin]%groupInsert_keys; done.
Qed.

Lemma NoDup_groupBy (l : list Order) (key : Order → string) :
  NoDup (groupBy l key).*1.
Proof.
  induction l as [|o l IH] using rev_ind; [apply NoDup_nil_2|].
  rewrite groupBy_snoc. by apply NoDup_groupInsert.
Qed.

Lemma lookupGroup_None (k : string) (gs : list (string * list Order)) :
  k ∉ gs.*1 → lookupGroup k gs = None.
Proof.
  induction gs as [|[k' g] gs IH]; [done|]. simpl.
  intros Hnotin%not_elem_of_cons. destruct Hnotin as [Hne Hnotin].
  rewrite bool_decide_eq_false_2 by done. by apply IH.
Qed.

(** What the state of the trader keeps through a step that writes one side
    of the cache. *)
Lemma cacheGroup_step (kind : OrderType) (verbose : bool)
    (g : string * list Order) (r : Run) :
  let r' := (cacheGroup kind verbose g r).2 in
  let c := cache (memory (self r)) in
  let c' := cache (memory (self r')) in
  side kind c' = match rangeOf g.2 with
                 | Some range => <[g.1 := range]> (side kind c)
                 | None => side kind c
                 end
  ∧ (∀ kind', kind' ≠ kind → side kind' c' = side kind' c)
  ∧ tick c' = tick c
  ∧ equalizeIndex (memory (self r')) = equalizeIndex (memory (self r))
  ∧ stats (self r') = stats (self r)
  ∧ notifications (self r') = notifications (self r)
  ∧ (verbose = false → actions r' = actions r).
Proof.
  destruct g as [k [|o os]], kind, verbose; simpl;
    repeat split; try done; by intros [].
Qed.

Lemma cacheLoop (kind : OrderType) (verbose : bool)
    (gs : list (string * list Order)) (r : Run) :
  NoDup gs.*1 →
  let r' := (forEachM gs (cacheGroup kind verbose) r).2 in
  let c := cache (memory (self r)) in
  let c' := cache (memory (self r')) in
  (∀ res, side kind c' !! res
          = match lookupGroup res gs ≫= rangeOf with
            | Some range => Some range
            | None => side kind c !! res
            end)
  ∧ (∀ kind', kind' ≠ kind → side kind' c' = side kind' c)
  ∧ tick c' = tick c
  ∧ equalizeIndex (memory (self r')) = equalizeIndex (memory (self r))
  ∧ stats (self r') = stats (self r)
  ∧ notifications (self r') = notifications (self r)
  ∧ (verbose = false → actions r' = actions r).
Proof.
  revert r. induction gs as [|[k g] gs IH]; intros r Hnodup; [done|].
  apply NoDup_cons in Hnodup as [Hnotin Hnodup].
  cbn [forEachM]. unfold bindM.
  pose proof (cacheGroup_step kind verbose (k, g) r) as Hstep.
  destruct (cacheGroup kind verbose (k, g) r) as [[] r1].
  cbn [snd fst] in Hstep.
  destruct Hstep as (Hside & Hother & Htick & Hindex & Hstats & Hnotes & Hacts).
  destruct (IH r1 Hnodup) as (Hside' & Hother' & Htick' & Hindex' & Hstats'
                              & Hnotes' & Hacts').
  split; [|repeat split; try congruence].
  - intros res. rewrite Hside'. cbn [lookupGroup].
    case_bool_decide as Hres.
    + subst res. rewrite (lookupGroup_None k gs) by done. simpl. rewrite Hside.
      destruct (rangeOf g); [by rewrite lookup_insert_eq|done].
    + destruct (lookupGroup res gs ≫= rangeOf); [done|]. rewrite Hside.
      destruct (rangeOf g); [by rewrite lookup_insert_ne|done].
  - intros kind' Hkind. by rewrite Hother', Hother.
  - intros Hverbose. by rewrite Hacts', Hacts.
Qed.

Lemma group_range (l : list Order) (res : string) :
  lookupGroup res (groupBy l resourceType) ≫= rangeOf
  = rangeOf (List.filter (λ o, bool_decide (resourceType o = res)) l).
Proof. rewrite lookupGroup_groupBy. by destruct (List.filter _ l). Qed.

Lemma cacheOrders_filters (kind : OrderType) (res : string) :
  List.filter (λ o, bool_decide (resourceType o = res))
    (List.filter (λ o, bool_decide (type o = kind)) (getAllOrders countsForCache))
  = cacheOrders kind res.
Proof.
  unfold getAllOrders, cacheOrders. rewrite !filter_filter_andb.
  apply List.filter_ext. intros o. apply andb_assoc.
Qed.

(** What [buildMarketCache] leaves: for each kind and resource the range of
    the orders that count, the tick of the build, and nothing else changed
    (no call either, unless it is verbose). *)
Lemma buildMarketCache_spec (verbose : bool) (r : Run) :
  let r' := (buildMarketCache verbose r).2 in
  let c' := cache (memory (self r')) in
  (∀ kind res, side kind c' !! res = rangeOf (cacheOrders kind res))
  ∧ tick c' = time Game
  ∧ equalizeIndex (memory (self r')) = equalizeIndex (memory (self r))
  ∧ stats (self r') = stats (self r)
  ∧ notifications (self r') = notifications (self r)
  ∧ (verbose = false → actions r' = actions r).
Proof.
  intros r' c'. subst c' r'. unfold buildMarketCache, bindM. cbv zeta.
  assert (invalidateMarketCache r
          = (tt, mkRun (mk (mkMemory (mkCache ∅ ∅ 0) (equalizeIndex (memory (self r))))
                           (stats (self r)) (notifications (self r)))
                       (actions r))) as -> by done.
  set (r0 := mkRun _ _).
  set (buys := groupBy (List.filter (λ o, bool_decide (type o = ORDER_BUY)) _) _).
  set (sells := groupBy (List.filter (λ o, bool_decide (type o = ORDER_SELL)) _) _).
  pose proof (cacheLoop ORDER_BUY verbose buys r0 (NoDup_groupBy _ _)) as Hbuy.
  destruct (forEachM buys (cacheGroup ORDER_BUY verbose) r0) as [[] r1].
  pose proof (cacheLoop ORDER_SELL verbose sells r1 (NoDup_groupBy _ _)) as Hsell.
  destruct (forEachM sells (cacheGroup ORDER_SELL verbose) r1) as [[] r2].
  cbv zeta in Hbuy, Hsell. cbn [fst snd] in Hbuy, Hsell.
  destruct Hbuy as (Hbuys & Hbuy_other & Htick & Hindex & Hstats & Hnotes & Hacts).
  destruct Hsell as (Hsells & Hsell_other & Htick' & Hindex' & Hstats' & Hnotes'
                     & Hacts').
  simpl in Hindex, Hstats, Hnotes, Hacts.
  split; [|repeat split; simpl; try congruence].
  - intros kind res. destruct kind; simpl.
    + pose proof (Hsell_other ORDER_BUY ltac:(done)) as Hkept. simpl in Hkept.
      specialize (Hbuys res). simpl in Hbuys. rewrite Hkept, Hbuys.
      subst buys. rewrite group_range, cacheOrders_filters.
      by destruct (rangeOf _).
    + pose proof (Hbuy_other ORDER_SELL ltac:(done)) as Hkept. simpl in Hkept.
      specialize (Hsells res). simpl in Hsells. rewrite Hsells, Hkept.
      subst sells. rewrite group_range, cacheOrders_filters.
      by destruct (rangeOf _).
  - intros Hverbose. by rewrite Hacts', Hacts.
Qed.
(** X21.  After [buildMarketCache] the cache carries the tick of the build
    and, for each kind of order and each resource, exactly the range of the
    prices of the orders of the book that count (not one of my active
    orders, amount 1000 or more): no entry when there is no such order,
    else the highest and the lowest of their prices, each the price of one
    of them.  What the cache held before is gone.  The index, the stats and
    the notifications are kept, and a build that is not verbose makes no
    call. *)
Theorem X21_buildMarketCache_ranges (verbose : bool) (r : Run) (kind : OrderType)
    (res : string) :
  let r' := (buildMarketCache verbose r).2 in
  let c' := cache (memory (self r')) in
  tick c' = time Game
  ∧ match side kind c' !! res with
    | None => cacheOrders kind res = []
    | Some range =>
        ∃ oh ol, oh ∈ cacheOrders kind res ∧ ol ∈ cacheOrders kind res
                 ∧ high range = price oh ∧ low range = price ol
                 ∧ ∀ o, o ∈ cacheOrders kind res →
                        (low range ≤ price o)%Qc ∧ (price o ≤ high range)%Qc
    end
  ∧ equalizeIndex (memory (self r')) = equalizeIndex (memory (self r))
  ∧ stats (self r') = stats (self r)
  ∧ notifications (self r') = notifications (self r)
  ∧ (verbose = false → actions r' = actions r).
Proof.
  intros r' c'.
  destruct (buildMarketCache_spec verbose r)
    as (Hside & Htick & Hindex & Hstats & Hnotes & Hacts).
  split; [done|]. split; [|done].
  subst c' r'. rewrite Hside.
  destruct (rangeOf (cacheOrders kind res)) as [range|] eqn:Hrange.
  - by apply rangeOf_spec.
  - by apply rangeOf_None.
Qed.

(** X22.  After [init] the cache is at most 25 ticks old.  [init] makes no
    call, a second [init] in the same tick changes nothing, and an [init]
    with a cache that is at most 25 ticks old changes nothing. *)
Theorem X22_init_keeps_cache_fresh (r : Run) :
  let r' := (init r).2 in
  time Game - tick (cache (memory (self r'))) ≤ cache_timeout
  ∧ actions r' = actions r
  ∧ (init r').2 = r'
  ∧ (time Game - tick (cache (memory (self r))) ≤ cache_timeout → r' = r).
Proof.
  intros r'.
  assert (∀ r0, time Game - tick (cache (memory (self r0))) ≤ cache_timeout →
                (init r0).2 = r0) as Hfresh.
  { intros r0 Hle. unfold init, bindM, getSelf.
    by rewrite (proj2 (Z.ltb_ge _ _) Hle). }
  assert (time Game - tick (cache (memory (self r'))) ≤ cache_timeout
          ∧ actions r' = actions r) as [Hage Hacts].
  { subst r'. unfold init, bindM, getSelf.
    destruct (Z.ltb_spec cache_timeout
                (time Game - tick (cache (memory (self r))))) as [Hold|Hnew];
      [|done].
    destruct (buildMarketCache_spec false r) as (_ & Htick & _ & _ & _ & Hacts).
    cbn [whenM]. rewrite Htick, Z.sub_diag. split; [done|]. by apply Hacts. }
  split; [done|]. split; [done|]. split; [by apply Hfresh|].
  intros Hle. by apply Hfresh.
Qed.
End TradeCache.

Section QueenTargets.
Import QueenOverlord.
Variable isIdle : Zerg → bool.
Variable hatchery : HatcheryCluster.

(** X23.  [handleQueen] changes nothing of the queen but her task.  It
    never sends her to withdraw from an empty link, and sends her to an
    empty battery only when the hatchery has no link.  It sends her to
    transfer only to the target of the supply request when she carries
    energy, or to a battery that is not full when she is full. *)
Theorem X23_queen_task_targets (queen : Zerg) (tg : RoomObject) :
  let queen' := handleQueen isIdle hatchery queen in
  (zname queen' = zname queen ∧ zpos queen' = zpos queen
   ∧ carryEnergy queen' = carryEnergy queen
   ∧ carryCapacity queen' = carryCapacity queen)
  ∧ (ztask queen' = Some (withdraw tg) →
     (∃ lnk, hlink hatchery = Some lnk ∧ tg = stobj lnk ∧ isEmpty lnk = false)
     ∨ (∃ bat, battery hatchery = Some bat ∧ tg = stobj bat
               ∧ (isEmpty bat = false ∨ hlink hatchery = None)))
  ∧ (ztask queen' = Some (transfer tg) →
     (0 < carryEnergy queen
      ∧ ∃ request, getPrioritizedClosestRequest hatchery (zpos queen) "supply"
                   = Some request
                   ∧ tg = reqTarget request)
     ∨ (carryCapacity queen ≤ carryEnergy queen
        ∧ ∃ bat, battery hatchery = Some bat ∧ tg = stobj bat
                 ∧ isFull bat = false)).
Proof.
  intros queen'. subst queen'.
  unfold handleQueen, firstActions, supplyActions, rechargeActions, idleActions,
    available.
  destruct (Z.ltb_spec 0 (carryEnergy queen)) as [Hcarry|Hcarry];
    destruct (getPrioritizedClosestRequest hatchery (zpos queen) "supply")
      as [request|] eqn:Hrequest;
    destruct (hlink hatchery) as [lnk|] eqn:Hlink;
    destruct (battery hatchery) as [bat|] eqn:Hbattery;
    try destruct (isEmpty lnk) eqn:Hlnk;
    try destruct (isEmpty bat) eqn:Hbat;
    try destruct (isFull bat) eqn:Hfull;
    destruct (isIdle _); cbn [negb andb setTask carryEnergy carryCapacity];
    try destruct (Z.ltb_spec (carryEnergy queen) (carryCapacity queen))
      as [Hroom|Hroom];
    (split; [done|]); cbn [ztask setTask];
    (split; intros [= <-] || intros Htask);
    eauto 10.
Qed.
End QueenTargets.

Section TradePrices.
Import TraderJoe Trade.
Context `{!Env}.

(** X24.  After [buildMarketCache], [priceOf] gives for a resource the
    lowest price among the sell orders of the book that count for the
    cache, which is the price of one of them, and [Infinity] when there is
    no such order. *)
Theorem X24_priceOf_after_build (verbose : bool) (r : Run) (res : string) :
  match priceOf (self (buildMarketCache verbose r).2) res with
  | Inf => cacheOrders ORDER_SELL res = []
  | Num p =>
      (∃ o, o ∈ cacheOrders ORDER_SELL res ∧ p = price o)
      ∧ ∀ o, o ∈ cacheOrders ORDER_SELL res → (p ≤ price o)%Qc
  end.
Proof.
  destruct (buildMarketCache_spec verbose r) as (Hside & _).
  specialize (Hside ORDER_SELL res). cbn [side] in Hside.
  unfold priceOf. rewrite Hside.
  destruct (rangeOf (cacheOrders ORDER_SELL res)) as [range|] eqn:Hrange.
  - apply rangeOf_spec in Hrange as (oh & ol & _ & Hol & _ & Hlow & Hall).
    split; [by exists ol|]. intros o Ho. by apply Hall.
  - by apply rangeOf_None.
Qed.
End TradePrices.

Section TradeBook.
Import TraderJoe Trade.
Context `{!Env}.

Lemma newActions_same (r : Run) : newActions r r = [].
Proof. unfold newActions. apply drop_all. Qed.

Lemma elem_of_getAllOrders (f : Order → bool) (o : Order) :
  o ∈ getAllOrders f → o ∈ allOrders (market Game) ∧ f o = true.
Proof.
  unfold getAllOrders. intros Hin%list_elem_of_In%filter_In.
  by rewrite list_elem_of_In.
Qed.

(** X25.  When [maxBy] and [minBy] pick among the orders they are given,
    every deal is with an order of the book of the right kind for the
    resource that offers the amount looked for.  [sellDirectly] then sells
    exactly the amount asked (the order never has less), [buyMineral] never
    buys more than its order offers, and [lookForGoodDeals] deals with
    orders of 5000 or more (100 for power). *)
Theorem X25_deals_match_the_book (terminal : Terminal) (resource : string)
    (amount : Z) (margin : Qc) (r : Run) :
  (∀ l f o, maxBy l f = Some o → o ∈ l) →
  (∀ l f o, minBy l f = Some o → o ∈ l) →
  (∀ a, a ∈ newActions r (sellDirectly terminal resource amount r).2 →
        ∃ order, order ∈ allOrders (market Game)
                 ∧ type order = ORDER_BUY ∧ resourceType order = resource
                 ∧ a = deal (id order) amount (troom terminal))
  ∧ (∀ a, a ∈ newActions r (buyMineral terminal resource amount r).2 →
          ∃ order, order ∈ allOrders (market Game)
                   ∧ type order = ORDER_SELL ∧ resourceType order = resource
                   ∧ Z.max amount TERMINAL_MIN_SEND ≤ TraderJoe.amount order
                   ∧ a = deal (id order) (Z.max amount TERMINAL_MIN_SEND)
                              (troom terminal))
  ∧ (∀ a, a ∈ newActions r (lookForGoodDeals terminal resource margin r).2 →
          ∃ order, order ∈ allOrders (market Game)
                   ∧ type order = ORDER_BUY ∧ resourceType order = resource
                   ∧ (if bool_decide (resource = RESOURCE_POWER) then 100 else 5000)
                     ≤ TraderJoe.amount order
                   ∧ a = deal (id order) (Z.min (TraderJoe.amount order) 10000)
                              (troom terminal)).
Proof.
  intros Hmax Hmin. split; [|split]; intros a.
  - unfold sellDirectly.
    destruct (maxBy _ _) as [order|] eqn:Hbest;
      [|rewrite newActions_same; by intros ?%elem_of_nil].
    apply Hmax, elem_of_getAllOrders in Hbest as [Hin Hf].
    rewrite !andb_true_iff, !bool_decide_eq_true, Z.leb_le in Hf.
    destruct Hf as [[Htype Hres] Hamount].
    destruct (_ <? _); [|rewrite newActions_same; by intros ?%elem_of_nil].
    unfold bindM, perform, logTransaction, notify, retM, newActions. simpl.
    rewrite drop_app_length. intros ->%list_elem_of_singleton.
    exists order. by rewrite Z.min_r by lia.
  - unfold buyMineral.
    destruct (_ || _); [rewrite newActions_same; by intros ?%elem_of_nil|].
    destruct (_ || _); [rewrite newActions_same; by intros ?%elem_of_nil|].
    destruct (minBy _ _) as [order|] eqn:Hbest;
      [|rewrite newActions_same; by intros ?%elem_of_nil].
    apply Hmin, elem_of_getAllOrders in Hbest as [Hin Hf].
    rewrite !andb_true_iff, !bool_decide_eq_true, Z.leb_le in Hf.
    destruct Hf as [[Htype Hres] Hamount].
    destruct (match _ with Num _ => _ | Inf => _ end);
      [|rewrite newActions_same; by intros ?%elem_of_nil].
    unfold bindM, perform, logTransaction, notify, retM, newActions. simpl.
    rewrite drop_app_length. intros ->%list_elem_of_singleton.
    by exists order.
  - unfold lookForGoodDeals.
    destruct (ltb (credits _) _); [rewrite newActions_same; by intros ?%elem_of_nil|].
    unfold bindM, getSelf.
    destruct (sell _ !! resource) as [range|];
      [|rewrite newActions_same; by intros ?%elem_of_nil].
    destruct (maxBy _ _) as [order|] eqn:Hbest;
      [|rewrite newActions_same; by intros ?%elem_of_nil].
    apply Hmax, elem_of_getAllOrders in Hbest as [Hin Hf].
    rewrite !andb_true_iff, !bool_decide_eq_true, Z.leb_le in Hf.
    destruct Hf as [[Htype Hres] Hamount].
    destruct (ltb (fmul _ _) _); [|rewrite newActions_same; by intros ?%elem_of_nil].
    destruct (_ <? _); [|rewrite newActions_same; by intros ?%elem_of_nil].
    unfold perform, logTransaction, notify, retM, newActions. simpl.
    rewrite drop_app_length. intros ->%list_elem_of_singleton.
    by exists order.
Qed.
End TradeBook.

(** ** The further properties at the sample data *)

Section OverlordCases.
Import Claims Kinds Sample Cases.

Lemma X1_mineral_supplier_iff_witness :
  ∃ term, terminal (Overlord.room chemist) = Some term
          ∧ head (calls (Overlord.registerCreepRequests chemist))
            = Some (Enqueue (mkProto "mineralSupplier" (Some (sobj term)) (Finite 1))).
Proof.
  apply (proj2 (X1_mineral_supplier_iff chemist)).
  split; [by eexists|]. split; [by eexists|]. by split.
Defined.

Lemma X3_fortify_lowest_barriers_witness :
  ∃ chosen rest,
    Overlord.roomObjectives (besieged None) (besiegedRoom None) !! 4%nat
    = Some ((λ b : Structure, mkObjective "fortify" (sobj b) None) <$> chosen)
    ∧ chosen ++ rest ≡ₚ [rampart]
    ∧ length chosen = 1%nat
    ∧ StronglySorted fewerHits chosen
    ∧ (∀ a b, a ∈ chosen → b ∈ rest → hits a ≤ hits b)
    ∧ (∀ h, withHits h chosen `prefix_of` withHits h [rampart]).
Proof.
  apply (proj1 (X3_fortify_lowest_barriers (besieged None) (besiegedRoom None))).
  reflexivity.
Defined.

Lemma X6_emergency_only_in_crisis_witness :
  ∃ p, CreateDirective EmergencyMarker p
       ∈ calls (Overlord.placeDirectives threshold (crashed [])).
Proof.
  apply (proj2 (proj1 (X6_emergency_only_in_crisis threshold (crashed [])))).
  split.
  - by repeat split.
  - intros (f & Hf & _). by apply elem_of_nil in Hf.
Defined.

Lemma X8_run_raises_without_controller_witness :
  Overlord.run threshold (besieged None) = ([], Thrown TypeError).
Proof.
  apply (proj2 (X8_run_raises_without_controller threshold (besieged None)));
    [reflexivity|].
  repeat split.
  - exists rampart. split; [apply list_elem_of_here|simpl; lia].
  - exists raider. split; [apply list_elem_of_here|done].
Defined.

Lemma X10_idle_full_queen_witness :
  QueenOverlord.carryCapacity fullQueen ≤ QueenOverlord.carryEnergy fullQueen
  ∧ QueenOverlord.idleActions stocked fullQueen
    = QueenOverlord.setTask fullQueen
        (QueenOverlord.transfer (QueenOverlord.stobj hatcheryBattery)).
Proof.
  assert (QueenOverlord.carryCapacity fullQueen
          ≤ QueenOverlord.carryEnergy fullQueen) as Hfull by (simpl; lia).
  split; [exact Hfull|].
  apply (proj1 (X10_idle_full_queen stocked fullQueen Hfull)
           hatcheryLink hatcheryBattery); reflexivity.
Defined.

Lemma X11_idle_nothing_to_draw_witness :
  QueenOverlord.idleActions linkless queen
  = QueenOverlord.setTask queen
      (QueenOverlord.withdraw (QueenOverlord.stobj hatcheryBattery)).
Proof.
  apply (proj2 (proj2 (X11_idle_nothing_to_draw linkless queen)) hatcheryBattery);
    [reflexivity|reflexivity|simpl; lia].
Defined.

Lemma X23_queen_task_targets_witness :
  (∃ lnk, QueenOverlord.hlink cluster = Some lnk
          ∧ QueenOverlord.stobj hatcheryLink = QueenOverlord.stobj lnk
          ∧ QueenOverlord.isEmpty lnk = false)
  ∨ (∃ bat, QueenOverlord.battery cluster = Some bat
            ∧ QueenOverlord.stobj hatcheryLink = QueenOverlord.stobj bat
            ∧ (QueenOverlord.isEmpty bat = false ∨ QueenOverlord.hlink cluster = None)).
Proof.
  apply (proj1 (proj2 (X23_queen_task_targets (λ _, false) cluster queen
                         (QueenOverlord.stobj hatcheryLink)))).
  reflexivity.
Defined.
End OverlordCases.

Section MarketCases.
Import TraderJoe Trade Bazaar.

Lemma firstMax_elem (l : list Order) (f : Order → Number) (o : Order) :
  firstMax l f = Some o → o ∈ l.
Proof.
  unfold firstMax.
  assert (∀ best, foldl (λ best o, match best with
                                   | None => Some o
                                   | Some b => if numLt (f b) (f o) then Some o else Some b
                                   end) best l = Some o →
                  best = Some o ∨ o ∈ l) as Hfold.
  { induction l as [|x l IH]; intros best; [by left|]. cbn [foldl].
    intros [Hbest|Hin]%IH; [|right; by right].
    destruct best as [b|]; [destruct (numLt _ _)|];
      injection Hbest as ->; (by left) || (right; apply list_elem_of_here). }
  intros [Hnone|Hin]%Hfold; done.
Qed.

Lemma firstMin_elem (l : list Order) (f : Order → Qc) (o : Order) :
  firstMin l f = Some o → o ∈ l.
Proof.
  unfold firstMin.
  assert (∀ best, foldl (λ best o, match best with
                                   | None => Some o
                                   | Some b => if ltb (f o) (f b) then Some o else Some b
                                   end) best l = Some o →
                  best = Some o ∨ o ∈ l) as Hfold.
  { induction l as [|x l IH]; intros best; [by left|]. cbn [foldl].
    intros [Hbest|Hin]%IH; [|right; by right].
    destruct best as [b|]; [destruct (ltb _ _)|];
      injection Hbest as ->; (by left) || (right; apply list_elem_of_here). }
  intros [Hnone|Hin]%Hfold; done.
Qed.

Lemma X25_deals_match_the_book_witness :
  ∃ order, order ∈ allOrders (market Game)
           ∧ type order = ORDER_BUY ∧ resourceType order = "H"
           ∧ deal "buyH" 1000 "W1N1" = deal (id order) 1000 (troom terminal).
Proof.
  apply (proj1 (X25_deals_match_the_book (H:=env) terminal "H" 1000 c1_25 ready
                  firstMax_elem firstMin_elem)).
  vm_compute. apply list_elem_of_here.
Defined.

Lemma X13_cleanup_spares_live_orders_witness :
  cancelOrder "orphan" ∈ newActions ready (cleanUpInactiveOrders ready).2.
Proof.
  apply (proj2 (proj2 (proj2 (proj2 (X13_cleanup_spares_live_orders ready))))
           orphan "W9N9").
  - right. apply list_elem_of_here.
  - reflexivity.
  - done.
  - by vm_compute.
Defined.

Lemma X15_maintainSellOrder_calls_witness :
  (maintainSellOrder terminal "Z" 10000 ready).2 = ready.
Proof.
  apply (proj1 (X15_maintainSellOrder_calls terminal "Z" 10000 ready)).
  left. by vm_compute.
Defined.

Lemma X17_sellDirectly_one_deal_witness :
  ∃ order response,
    (sellDirectly terminal "H" 1000 ready).1 = Some response
    ∧ adds ready (sellDirectly terminal "H" 1000 ready).2
           [deal (id order) 1000 "W1N1"] [transacted order "W1N1" 1000 response].
Proof.
  destruct (X17_sellDirectly_one_deal terminal "H" 1000 ready)
    as [[_ Hnone]|(order & sold & response & _ & Hsold & _ & Hle & _ & _ & Hsome
                   & Hadds)].
  - by vm_compute in Hnone.
  - exists order, response. split; [exact Hsome|].
    assert (sold = 1000) as ->; [|exact Hadds].
    destruct Hadds as (Hacts & _). vm_compute in Hacts.
    by injection Hacts as _ ->.
Defined.

Lemma X18_buyMineral_limits_witness :
  ∃ bestOrder response,
    (price bestOrder ≤ c5_0)%Qc
    ∧ adds ready (buyMineral terminal "H" 2000 ready).2
           [deal (id bestOrder) 2000 "W1N1"]
           [transacted bestOrder "W1N1" 2000 response].
Proof.
  destruct (X18_buyMineral_limits terminal "H" 2000 ready)
    as [Hsame|(bestOrder & response & _ & _ & _ & _ & _ & Hprice & _ & Hadds)].
  - apply (f_equal actions) in Hsame. by vm_compute in Hsame.
  - exists bestOrder, response. split; [by apply Hprice|exact Hadds].
Defined.

Lemma X19_lookForGoodDeals_limits_witness :
  ∃ order response,
    Z.min (amount order) 10000 ≤ 10000
    ∧ adds ready (lookForGoodDeals terminal "H" c1_25 ready).2
           [deal (id order) (Z.min (amount order) 10000) "W1N1"]
           [transacted order "W1N1" (Z.min (amount order) 10000) response].
Proof.
  destruct (X19_lookForGoodDeals_limits terminal "H" c1_25 ready)
    as [Hsame|(order & range & response & _ & _ & _ & _ & _ & Hle & _ & Hadds)].
  - apply (f_equal actions) in Hsame. by vm_compute in Hsame.
  - exists order, response. split; [exact Hle|exact Hadds].
Defined.

Lemma X20_recordStats_reads_until_stale_witness :
  counted (time Game - 1) "H" ([bought1; bought2] ++ stale :: [late])
  = counted (time Game - 1) "H" [bought1; bought2].
Proof.
  apply (proj1 (proj2 (proj2 (proj2 (proj2 (proj2
           (X20_recordStats_reads_until_stale ready "H"))))))
           [bought1; bought2] stale [late]).
  by vm_compute.
Defined.

Lemma X21_buildMarketCache_ranges_witness :
  actions (buildMarketCache false fresh).2 = actions fresh.
Proof.
  apply (proj2 (proj2 (proj2 (proj2 (proj2
           (X21_buildMarketCache_ranges false fresh ORDER_SELL "H")))))).
  reflexivity.
Defined.

Lemma X22_init_keeps_cache_fresh_witness : (init ready).2 = ready.
Proof.
  apply (proj2 (proj2 (proj2 (X22_init_keeps_cache_fresh ready)))).
  by vm_compute.
Defined.
End MarketCases.
